(** * mrf-extractor: streaming CPT extraction from in-network rate files

    A shallow embedding of [fast_bcbs_extract.go] and of its R2 revision
    ([fast_bcbs_extract_r2.go]), with the properties of the extraction and
    flattening engine stated over it.

    Go values are modelled as follows.
    - [string] is Go's [string]: a sequence of bytes.
    - [int], [int64] are [Z] with the two's-complement wrap-around written
      out ([wrap64]).
    - [float64] is [spec_float], the Standard Library's IEEE-754 datatype.
    - slices are lists; a nil slice and an empty slice are both [[]] (the
      program only ranges over slices, takes [len] and joins them).
    - [any] is an inductive with one constructor per dynamic type the
      program's type switches distinguish.
    - the [writers] map is a [gmap string csvFile]; the [allowed] set is a
      [gset string].
    - panics, deferred calls and the mutable state of [main] are threaded
      through a small state-and-panic monad [Go]. *)

From Stdlib Require Import ZArith Lia Ascii String List SpecFloat.
From Stdlib Require DecimalString.
From stdpp Require Import base strings gmap list.

Local Open Scope Z_scope.
Local Set Warnings "-register-all".

(** ** Machine integers *)

Definition wrap64 (z : Z) : Z := (z + 2 ^ 63) mod 2 ^ 64 - 2 ^ 63.

Definition maxInt64 : Z := 2 ^ 63 - 1.

(** [x++] on an [int64] (and on [int], 64 bits wide on the platforms the tool
    targets). *)
Definition incr64 (x : Z) : Z := wrap64 (x + 1).
Definition decr64 (x : Z) : Z := wrap64 (x - 1).

(** ** The [strings] package, as far as the program calls it

    The byte-level fast paths of the library are written out.  Where the
    library falls back to Unicode tables (a byte [>= utf8.RuneSelf] is met),
    the fallback is a parameter of the development (see [Env]). *)

Module GoStrings.

Definition RuneSelf : N := 128.

Definition byte (c : ascii) : N := N_of_ascii c.

Definition isASCIIbyte (c : ascii) : bool := (byte c <? RuneSelf)%N.

(** [asciiSpace]: tab, newline, vertical tab, form feed, carriage return,
    space. *)
Definition asciiSpace (c : ascii) : bool :=
  let n := byte c in
  ((9 <=? n) && (n <=? 13) || (n =? 32))%N.

Fixpoint forallb_string (p : ascii -> bool) (s : string) : bool :=
  match s with
  | EmptyString => true
  | String c s' => p c && forallb_string p s'
  end.

Fixpoint existsb_string (p : ascii -> bool) (s : string) : bool :=
  match s with
  | EmptyString => false
  | String c s' => p c || existsb_string p s'
  end.

Fixpoint map_string (f : ascii -> ascii) (s : string) : string :=
  match s with
  | EmptyString => EmptyString
  | String c s' => String (f c) (map_string f s')
  end.

Section Unicode.
(** [TrimFunc(s, unicode.IsSpace)], [TrimRightFunc(s, unicode.IsSpace)]
    and [Map(unicode.ToUpper, s)]: the Unicode-aware slow paths. *)
Variable TrimFunc_IsSpace : string -> string.
Variable TrimRightFunc_IsSpace : string -> string.
Variable Map_ToUpper : string -> string.

(** First loop of [TrimSpace]: [inl r] when the function returns [r]
    from inside the loop, [inr t] with [t = s[start:]] when the loop
    is left. *)
Fixpoint TrimSpace_start (s : string) : string + string :=
  match s with
  | EmptyString => inr EmptyString
  | String c s' =>
      if negb (isASCIIbyte c) then inl (TrimFunc_IsSpace s)
      else if asciiSpace c then TrimSpace_start s'
      else inr s
  end.

(** Second loop of [TrimSpace], over [s[start:stop]] read from its last
    byte: [r] is that slice reversed. *)
Fixpoint TrimSpace_stop (r : string) : string :=
  match r with
  | EmptyString => EmptyString
  | String c r' =>
      if negb (isASCIIbyte c) then TrimRightFunc_IsSpace (String.rev r)
      else if asciiSpace c then TrimSpace_stop r'
      else String.rev r
  end.

Definition TrimSpace (s : string) : string :=
  match TrimSpace_start s with
  | inl r => r
  | inr t => TrimSpace_stop (String.rev t)
  end.

Definition isLower (c : ascii) : bool :=
  ((97 <=? byte c) && (byte c <=? 122))%N.

Definition upperByte (c : ascii) : ascii :=
  if isLower c then ascii_of_N (byte c - 32) else c.

Definition ToUpper (s : string) : string :=
  if forallb_string isASCIIbyte s then
    if negb (existsb_string isLower s) then s
    else map_string upperByte s
  else Map_ToUpper s.
End Unicode.

(** [HasPrefix(s, prefix)]. *)
Definition HasPrefix (s pre : string) : bool := String.prefix pre s.

(** [Join(elems, sep)]. *)
Definition Join (elems : list string) (sep : string) : string :=
  String.concat sep elems.

(** [TrimRight(s, cutset)] for a cutset of one ASCII byte, the only use in
    the program: the library's [trimRightByte]. *)
Fixpoint trimLeftByte (c : ascii) (s : string) : string :=
  match s with
  | EmptyString => EmptyString
  | String d s' => if Ascii.eqb c d then trimLeftByte c s' else s
  end.

Definition trimRightByte (s : string) (c : ascii) : string :=
  String.rev (trimLeftByte c (String.rev s)).

End GoStrings.

Import GoStrings.

(** ** [fmt.Sprintf("%.10f", f)]

    Fixed notation with ten fractional digits, correctly rounded (ties to
    even) from the exact binary value. *)

Definition decimal (z : Z) : string :=
  DecimalString.NilZero.string_of_uint (N.to_uint (Z.to_N z)).

Definition pad10 (s : string) : string :=
  String.append (string_of_list_ascii
                   (List.repeat "0"%char (10 - String.length s)%nat)) s.

(** Nearest integer to [n * 2^e], ties to even. *)
Definition round_half_even (n e : Z) : Z :=
  if 0 <=? e then n * 2 ^ e
  else
    let d := 2 ^ (- e) in
    let q := n / d in
    let r := n mod d in
    match 2 * r ?= d with
    | Lt => q
    | Gt => q + 1
    | Eq => if Z.even q then q else q + 1
    end.

Definition Sprintf_10f (f : spec_float) : string :=
  match f with
  | S754_nan => "NaN"
  | S754_infinity s => if s then "-Inf" else "+Inf"
  | S754_zero s => String.append (if s then "-" else "") "0.0000000000"
  | S754_finite s m e =>
      let n := round_half_even (Z.pos m * 10 ^ 10) e in
      String.append (if s then "-" else "")
        (String.append (decimal (n / 10 ^ 10))
           (String.append "." (pad10 (decimal (n mod 10 ^ 10)))))
  end.

(** ** The data model ([Item], [Rate], [ProviderGroup], [Price]) *)

(** Dynamic values: the cases the type switches of [anyToString] and
    [normalizeNPIs] tell apart.  Decoding with [UseNumber] produces [Nil],
    [Str], [Num], [Bool], [Arr] and [Obj] only. *)
Inductive any : Type :=
| Nil                                  (* nil *)
| Str (s : string)                     (* string *)
| Num (n : string)                     (* json.Number, the literal's text *)
| F64 (f : spec_float)                 (* float64 *)
| Bool (b : bool)                      (* bool *)
| Arr (a : list any)                   (* []any *)
| Strs (a : list string)               (* []string *)
| Obj (m : list (string * any)).       (* map[string]any *)

Record tin : Type := { tin_Type : string; tin_Value : string }.

Record ProviderGroup : Type := {
  TIN : option tin;                    (* *struct{...}; nil is None *)
  NPI : any
}.

Record Price : Type := {
  NegotiatedRate : any;
  ExpirationDate : string;
  ServiceCode : list string;
  BillingCodeModifier : list string;
  NegotiatedType : string;
  BillingClass : string
}.

Record Rate : Type := {
  ProviderGroups : list ProviderGroup;
  ProviderReferences : list string;    (* []json.RawMessage *)
  NegotiatedPrices : list Price
}.

Record Item : Type := {
  BillingCodeType : string;
  BillingCode : string;
  NegotiationArrangement : any;
  NegotiatedRates : list Rate
}.

(** ** JSON documents and the decoder's token stream *)

(** What [Decoder.Token] returns: a delimiter, a string, a number, a boolean
    or null.  Commas and colons are consumed silently by the decoder. *)
Inductive Token : Type :=
| Delim (c : ascii)
| TStr (s : string)
| TNum (n : string)
| TBool (b : bool)
| TNull.

Inductive json : Type :=
| JNull
| JBool (b : bool)
| JNum (n : string)
| JStr (s : string)
| JArr (elems : list json)
| JObj (members : list (string * json)).

(** The tokens of a syntactically valid JSON value, in document order. *)
Fixpoint tokens (v : json) : list Token :=
  match v with
  | JNull => [TNull]
  | JBool b => [TBool b]
  | JNum n => [TNum n]
  | JStr s => [TStr s]
  | JArr elems =>
      Delim "[" ::
        (fix go (l : list json) : list Token :=
           match l with
           | [] => []
           | x :: l' => tokens x ++ go l'
           end) elems ++ [Delim "]"]
  | JObj members =>
      Delim "{" ::
        (fix go (l : list (string * json)) : list Token :=
           match l with
           | [] => []
           | (k, x) :: l' => TStr k :: tokens x ++ go l'
           end) members ++ [Delim "}"]
  end.

Definition elems_tokens (l : list json) : list Token :=
  concat (map tokens l).

Definition members_tokens (l : list (string * json)) : list Token :=
  concat (map (fun kv => TStr (fst kv) :: tokens (snd kv)) l).

(** Deepest nesting of delimiters inside a value. *)
Fixpoint nesting (v : json) : Z :=
  match v with
  | JArr elems =>
      1 + (fix go (l : list json) : Z :=
             match l with
             | [] => 0
             | x :: l' => Z.max (nesting x) (go l')
             end) elems
  | JObj members =>
      1 + (fix go (l : list (string * json)) : Z :=
             match l with
             | [] => 0
             | (_, x) :: l' => Z.max (nesting x) (go l')
             end) members
  | _ => 0
  end.

Definition isOpen (c : ascii) : bool :=
  (Ascii.eqb c "{" || Ascii.eqb c "[")%char.

Definition isClose (c : ascii) : bool :=
  (Ascii.eqb c "}" || Ascii.eqb c "]")%char.

(** ** Output files *)

Definition record : Type := list string.

(** A [csv.Writer] over a [bufio.Writer] of 1 MiB over an [*os.File]: the
    records whose line is not yet in the file as a whole (what is left of
    them is in the buffer), the records whose line is in the file, and
    whether the file was closed. *)
Record csvFile : Type := {
  pending : list record;
  flushed : list record;
  closed : bool
}.

Definition newFile : csvFile :=
  {| pending := []; flushed := []; closed := false |}.

(** [Flush] on a closed file fails and leaves the buffer as it is. *)
Definition csv_Flush (f : csvFile) : csvFile :=
  if closed f then f
  else {| pending := []; flushed := flushed f ++ pending f; closed := false |}.

Definition file_Close (f : csvFile) : csvFile :=
  {| pending := pending f; flushed := flushed f; closed := true |}.

(** Every record handed to the writer so far, in order. *)
Definition records (f : csvFile) : list record := flushed f ++ pending f.

Definition header : record :=
  ["npi"; "tin_type"; "tin_value";
   "negotiated_rate"; "expiration_date"; "service_code";
   "billing_code"; "billing_code_type"; "negotiation_arrangement";
   "negotiated_type"; "billing_class"; "billing_code_modifier"].

Definition unresHeader : record := ["billing_code"; "ref_id"].

(** [fmt.Sprintf("in_network_%s.csv", code)], the file's name in [csvDir]. *)
Definition csvName (code : string) : string :=
  String.append "in_network_" (String.append code ".csv").

Definition unresName : string := "unresolved_provider_references.csv".

(** ** The state of [main] and the monad of its statements *)

Inductive event : Type :=
| Progress (kept rows : Z)
| Summary (seen kept rows refRates refIDs : Z).

Record world : Type := {
  dec : list Token;                   (* what the decoder has not read yet *)
  seenItems : Z;
  keptItems : Z;
  outRows : Z;
  skippedRefRates : Z;
  skippedRefIDs : Z;
  writers : gmap string csvFile;      (* map[string]*writerPack *)
  unres : option csvFile;             (* unresF / unresW, once created *)
  stdout : list event
}.

Definition set_dec (f : list Token -> list Token) (w : world) : world :=
  {| dec := f (dec w); seenItems := seenItems w; keptItems := keptItems w;
     outRows := outRows w; skippedRefRates := skippedRefRates w;
     skippedRefIDs := skippedRefIDs w; writers := writers w;
     unres := unres w; stdout := stdout w |}.

Definition set_seenItems (f : Z -> Z) (w : world) : world :=
  {| dec := dec w; seenItems := f (seenItems w); keptItems := keptItems w;
     outRows := outRows w; skippedRefRates := skippedRefRates w;
     skippedRefIDs := skippedRefIDs w; writers := writers w;
     unres := unres w; stdout := stdout w |}.

Definition set_keptItems (f : Z -> Z) (w : world) : world :=
  {| dec := dec w; seenItems := seenItems w; keptItems := f (keptItems w);
     outRows := outRows w; skippedRefRates := skippedRefRates w;
     skippedRefIDs := skippedRefIDs w; writers := writers w;
     unres := unres w; stdout := stdout w |}.

Definition set_outRows (f : Z -> Z) (w : world) : world :=
  {| dec := dec w; seenItems := seenItems w; keptItems := keptItems w;
     outRows := f (outRows w); skippedRefRates := skippedRefRates w;
     skippedRefIDs := skippedRefIDs w; writers := writers w;
     unres := unres w; stdout := stdout w |}.

Definition set_skippedRefRates (f : Z -> Z) (w : world) : world :=
  {| dec := dec w; seenItems := seenItems w; keptItems := keptItems w;
     outRows := outRows w; skippedRefRates := f (skippedRefRates w);
     skippedRefIDs := skippedRefIDs w; writers := writers w;
     unres := unres w; stdout := stdout w |}.

Definition set_skippedRefIDs (f : Z -> Z) (w : world) : world :=
  {| dec := dec w; seenItems := seenItems w; keptItems := keptItems w;
     outRows := outRows w; skippedRefRates := skippedRefRates w;
     skippedRefIDs := f (skippedRefIDs w); writers := writers w;
     unres := unres w; stdout := stdout w |}.

Definition set_writers (f : gmap string csvFile -> gmap string csvFile)
    (w : world) : world :=
  {| dec := dec w; seenItems := seenItems w; keptItems := keptItems w;
     outRows := outRows w; skippedRefRates := skippedRefRates w;
     skippedRefIDs := skippedRefIDs w; writers := f (writers w);
     unres := unres w; stdout := stdout w |}.

Definition set_unres (f : option csvFile -> option csvFile) (w : world)
    : world :=
  {| dec := dec w; seenItems := seenItems w; keptItems := keptItems w;
     outRows := outRows w; skippedRefRates := skippedRefRates w;
     skippedRefIDs := skippedRefIDs w; writers := writers w;
     unres := f (unres w); stdout := stdout w |}.

Definition set_stdout (f : list event -> list event) (w : world) : world :=
  {| dec := dec w; seenItems := seenItems w; keptItems := keptItems w;
     outRows := outRows w; skippedRefRates := skippedRefRates w;
     skippedRefIDs := skippedRefIDs w; writers := writers w;
     unres := unres w; stdout := f (stdout w) |}.

(** Why a run panicked. *)
Inductive failure : Type :=
| ErrIO                               (* os.MkdirAll, os.Create *)
| ErrToken                            (* dec.Token returned an error *)
| ErrDecode                           (* dec.Decode returned an error *)
| ExpectedDelim (c : ascii)
| ExpectedStringKey
| NoInNetwork.

(** The outcome of running statements from a state: normal completion with
    a value, a panic, or (for the two loops that read the decoder until it
    has no more) the loop bound of the model being reached. *)
Inductive result (A : Type) : Type :=
| Ok (a : A) (w : world)
| Panic (e : failure) (w : world)
| OutOfFuel.

Arguments Ok {A} a w.
Arguments Panic {A} e w.
Arguments OutOfFuel {A}.

Definition Go (A : Type) : Type := world -> result A.

Definition ret {A} (a : A) : Go A := fun w => Ok a w.

Definition bind {A B} (m : Go A) (k : A -> Go B) : Go B :=
  fun w =>
    match m w with
    | Ok a w' => k a w'
    | Panic e w' => Panic e w'
    | OutOfFuel => OutOfFuel
    end.

Definition panic {A} (e : failure) : Go A := fun w => Panic e w.

Definition modify (f : world -> world) : Go unit := fun w => Ok tt (f w).

Definition gets {A} (f : world -> A) : Go A := fun w => Ok (f w) w.

Declare Scope go_scope.
Delimit Scope go_scope with go.
Notation "x <- c1 ;; c2" := (bind c1 (fun x => c2))
  (at level 100, c1 at next level, c2 at level 200, right associativity)
  : go_scope.
Notation "c1 ;; c2" := (bind c1 (fun _ => c2))
  (at level 100, c2 at level 200, right associativity) : go_scope.

(** [for _, x := range l { body x }] *)
Fixpoint for_range {A} (l : list A) (body : A -> Go unit) : Go unit :=
  match l with
  | [] => ret tt
  | x :: l' => (body x ;; for_range l' body)%go
  end.

(** [defer d()] around the rest of the function: [d] runs when the function
    returns and also when it panics. *)
Definition defer {A} (d : world -> world) (body : Go A) : Go A :=
  fun w =>
    match body w with
    | Ok a w' => Ok a (d w')
    | Panic e w' => Panic e (d w')
    | OutOfFuel => OutOfFuel
    end.

(** The two revisions of the extractor in the repository. *)
Inductive revision : Type :=
| Rev1                                (* fast_bcbs_extract.go *)
| RevR2.                              (* fast_bcbs_extract_r2.go *)

(** ** What the program takes from outside its own source

    The library code behind the calls the program makes, where it is not
    written out above, and the answers of the file system. *)
Record Env : Type := {
  (** [strings.TrimFunc(s, unicode.IsSpace)] *)
  TrimFunc_IsSpace : string -> string;
  (** [strings.TrimRightFunc(s, unicode.IsSpace)] *)
  TrimRightFunc_IsSpace : string -> string;
  (** [strings.Map(unicode.ToUpper, s)] *)
  Map_ToUpper : string -> string;
  (** [json.Marshal(v)] as a string, empty when it fails *)
  json_Marshal : any -> string;
  (** [json.Unmarshal] of the tokens of one value into an [Item], following
      the struct tags; [None] when it returns an error *)
  unmarshal_Item : list Token -> option Item;
  (** whether [os.MkdirAll(csvDir)] succeeds *)
  mkdir_ok : bool;
  (** whether [os.Create] of the named file of the output directory
      succeeds *)
  create_ok : string -> bool;
  (** whether the bytes of the record's line do not fit in what is left of
      the buffer of the file, so that [bufio.Writer] writes the buffer out
      while [csv.Writer.Write] writes the record *)
  bufio_full : csvFile -> record -> bool;
  (** what [dec.More()] answers when the input ends inside an array or
      object: false in the decoder of [encoding/json] itself (its peek
      fails), true in the decoder that [encoding/json] has over
      [encoding/json/v2] (such an end is an error there, and [More] answers
      true on an error) *)
  More_at_end : bool
}.

(** ** Scenarios

    The inputs of the scenarios of the specification, used below to run the
    program and to instantiate the properties. *)
Module Scenario.

(** The [Item] that [dec.Decode] leaves untouched. *)
Definition zeroItem : Item :=
  {| BillingCodeType := ""; BillingCode := "";
     NegotiationArrangement := Nil; NegotiatedRates := [] |}.

(** An environment for the scenarios, whose documents are ASCII and whose
    tables stay far below the size of the buffer: the Unicode slow paths
    are not reached, every array item that is an object decodes to
    [decoded], a null leaves the item as it is, every other item is
    refused, directories and files can be created, no buffer fills up,
    and the decoder is the one of [encoding/json] itself. *)
Definition asciiEnv (decoded : Item) : Env :=
  {| TrimFunc_IsSpace := fun s => s;
     TrimRightFunc_IsSpace := fun s => s;
     Map_ToUpper := fun s => s;
     json_Marshal := fun _ => "null";
     unmarshal_Item := fun ts =>
       match ts with
       | Delim "{" :: _ => Some decoded
       | [TNull] => Some zeroItem
       | _ => None
       end;
     mkdir_ok := true;
     create_ok := fun _ => true;
     bufio_full := fun _ _ => false;
     More_at_end := false |}.

(** The same environment with the decoder that [encoding/json] has over
    [encoding/json/v2]. *)
Definition asciiEnvV2 (decoded : Item) : Env :=
  {| TrimFunc_IsSpace := TrimFunc_IsSpace (asciiEnv decoded);
     TrimRightFunc_IsSpace := TrimRightFunc_IsSpace (asciiEnv decoded);
     Map_ToUpper := Map_ToUpper (asciiEnv decoded);
     json_Marshal := json_Marshal (asciiEnv decoded);
     unmarshal_Item := unmarshal_Item (asciiEnv decoded);
     mkdir_ok := true;
     create_ok := fun _ => true;
     bufio_full := fun _ _ => false;
     More_at_end := true |}.

Definition allow : gset string := {["27130"]}.

Definition einA : tin := {| tin_Type := "ein"; tin_Value := "12-3456789" |}.

(** Scenario A: code 27130 of type CPT4, one rate group with two provider
    groups (NPIs 111 and 222, 333) and two prices. *)
Definition pgA1 : ProviderGroup :=
  {| TIN := Some einA; NPI := Arr [Num "111"] |}.

Definition pgA2 : ProviderGroup :=
  {| TIN := None; NPI := Arr [Num "222"; Num "333"] |}.

Definition priceA (rate : string) : Price :=
  {| NegotiatedRate := Num rate;
     ExpirationDate := "2025-12-31";
     ServiceCode := ["11"; "22"];
     BillingCodeModifier := [];
     NegotiatedType := "negotiated";
     BillingClass := "professional" |}.

Definition rateA : Rate :=
  {| ProviderGroups := [pgA1; pgA2];
     ProviderReferences := [];
     NegotiatedPrices := [priceA "1250.50"; priceA "980"] |}.

Definition itemA : Item :=
  {| BillingCodeType := "CPT4";
     BillingCode := "27130";
     NegotiationArrangement := Str "ffs";
     NegotiatedRates := [rateA] |}.

(** Scenario A as it stands in the document. *)
Definition priceA_json (rate : string) : json :=
  JObj [("negotiated_rate", JNum rate);
        ("expiration_date", JStr "2025-12-31");
        ("service_code", JArr [JStr "11"; JStr "22"]);
        ("negotiated_type", JStr "negotiated");
        ("billing_class", JStr "professional")].

Definition itemA_json : json :=
  JObj [("negotiation_arrangement", JStr "ffs");
        ("billing_code_type", JStr "CPT4");
        ("billing_code", JStr "27130");
        ("negotiated_rates",
         JArr [JObj [("provider_groups",
                      JArr [JObj [("npi", JArr [JNum "111"]);
                                  ("tin", JObj [("type", JStr "ein");
                                                ("value", JStr "12-3456789")])];
                            JObj [("npi", JArr [JNum "222"; JNum "333"]);
                                  ("tin", JNull)]]);
                     ("negotiated_prices",
                      JArr [priceA_json "1250.50"; priceA_json "980"])]])].

(** Scenario B: an item of another code type. *)
Definition itemB : Item :=
  {| BillingCodeType := "HCPCS";
     BillingCode := "27130";
     NegotiationArrangement := Str "ffs";
     NegotiatedRates := [rateA] |}.

(** Scenario C: a rate group with three provider references and no provider
    group. *)
Definition rateC : Rate :=
  {| ProviderGroups := [];
     ProviderReferences := ["1"; "2"; "3"];
     NegotiatedPrices := [priceA "10"] |}.

(** Scenario D: a provider group whose NPI field is null, beside one with
    an NPI. *)
Definition rateD : Rate :=
  {| ProviderGroups := [{| TIN := Some einA; NPI := Nil |}; pgA1];
     ProviderReferences := [];
     NegotiatedPrices := [priceA "10"] |}.

(** The members of a root object before its "in_network" array. *)
Definition preamble : list (string * json) :=
  [("reporting_entity_name", JStr "plan");
   ("version", JStr "1.0.0");
   ("provider_references",
    JArr [JObj [("provider_group_id", JNum "1");
                ("provider_groups", JArr [JObj [("npi", JArr [JNum "111"])]])]])].

(** What follows the array in a document that holds a second "in_network"
    member. *)
Definition trailer : list Token :=
  TStr "in_network" :: tokens (JArr [itemA_json]) ++ [Delim "}"].

(** A document cut off inside the array, after its first item. *)
Definition truncated : list Token :=
  Delim "{" :: TStr "in_network" :: Delim "[" :: tokens itemA_json.

(** A document whose array holds, after its first item, an element that is
    no object: decoding it into an [Item] is refused. *)
Definition malformed : list Token :=
  tokens (JObj [("in_network", JArr [itemA_json; JNum "5"])]).

(** Calls of the sink: two for one code, the second after a call for
    another code that writes no row. *)
Definition calls : list (string * list record) :=
  [("27130", [["a"]]); ("27447", []); ("27130", [["b"]; ["c"]])].

(** Scenario A as a whole document: the members of the preamble, then the
    array with the item. *)
Definition documentA : list Token :=
  tokens (JObj (preamble ++ [("in_network", JArr [itemA_json])])).

(** An item of code 27130 with provider references: the rate group of
    scenario C, then the one of scenario A. *)
Definition itemC : Item :=
  {| BillingCodeType := "CPT4";
     BillingCode := "27130";
     NegotiationArrangement := Str "ffs";
     NegotiatedRates := [rateC; rateA] |}.

(** The item of scenario A with its type in lower case. *)
Definition itemA_lower : Item :=
  {| BillingCodeType := "cpt4";
     BillingCode := "27130";
     NegotiationArrangement := Str "ffs";
     NegotiatedRates := [rateA] |}.

(** Scenario N: an item that passes the filter and gives no row, its only
    provider group having a null NPI field. *)
Definition itemN : Item :=
  {| BillingCodeType := "CPT4";
     BillingCode := "27130";
     NegotiationArrangement := Str "ffs";
     NegotiatedRates :=
       [{| ProviderGroups := [{| TIN := Some einA; NPI := Nil |}];
           ProviderReferences := [];
           NegotiatedPrices := [priceA "10"] |}] |}.

End Scenario.

Section Program.

Variable env : Env.

(** The flags of the run: [-codes], parsed into the allow-set, and
    [-progress]. *)
Variable allowed : gset string.
Variable progressEvery : Z.

Variable rev : revision.

Definition TrimSpace' : string -> string :=
  TrimSpace (TrimFunc_IsSpace env) (TrimRightFunc_IsSpace env).

Definition ToUpper' : string -> string := ToUpper (Map_ToUpper env).

(** *** Helpers *)

Definition fmtFloat (f : spec_float) : string := Sprintf_10f f.

Definition anyToString (v : any) : string :=
  match v with
  | Nil => ""
  | Str t => t
  | Num t => t
  | F64 t => trimRightByte (trimRightByte (fmtFloat t) "0") "."
  | Bool t => if t then "true" else "false"
  | _ => json_Marshal env v
  end.

Definition nilIfNil (s : list string) : list string :=
  match s with
  | [] => []
  | _ => s
  end.

Definition normalizeNPIs (v : any) : list string :=
  match v with
  | Nil => []
  | Arr a => map anyToString a
  | Strs a => a
  | _ => [anyToString v]
  end.

(** *** The row sink

    Writing a record to an open table goes to the writer's buffer and
    returns no error (revision 1 checks the error of the header's write,
    into an empty buffer; revision R2 drops it). *)

(** [w.Write(r)] of a [csv.Writer]: the line of [r] goes to the buffer.
    When it does not fit, the buffer is written to the file on the way
    (the write to the file is taken to succeed; the program does not look
    at the errors of these calls): the lines written before are then in
    the file as a whole.  The line of [r] is not, since its line end is
    the last byte written and stays in the buffer until the next write or
    [Flush]. *)
Definition csv_Write (r : record) (f : csvFile) : csvFile :=
  if bufio_full env f r then
    {| pending := [r]; flushed := flushed f ++ pending f;
       closed := closed f |}
  else
    {| pending := pending f ++ [r]; flushed := flushed f;
       closed := closed f |}.

(** [getWriter(code)]; the [*writerPack] it returns is named by its key in
    [writers]. *)
Definition getWriter (code : string) : Go string :=
  fun w =>
    match writers w !! code with
    | Some _ => Ok code w
    | None =>
        if create_ok env (csvName code) then
          Ok code
            (set_writers (insert code (csv_Write header newFile)) w)
        else Panic ErrIO w
    end.

(** [wp.w.Write(row)] *)
Definition wp_Write (wp : string) (row : record) : Go unit :=
  modify (set_writers (alter (csv_Write row) wp)).

(** [unresW.Write(row)] *)
Definition unresW_Write (row : record) : Go unit :=
  modify (set_unres (fmap (csv_Write row))).

(** *** The flattening loops *)

(** The body of [for _, npi := range npis].  [wp0] is the handle taken
    before the provider-group loop in revision R2; revision 1 takes the
    handle here. *)
Definition emit_row (wp0 : string) (bc : string) (row : record)
    : Go unit :=
  (wp <- match rev with
         | Rev1 => getWriter bc
         | RevR2 => ret wp0
         end ;;
   wp_Write wp row ;;
   modify (set_outRows incr64) ;;
   rows <- gets outRows ;;
   if (0 <? progressEvery) && (Z.rem rows progressEvery =? 0) then
     kept <- gets keptItems ;;
     modify (set_stdout (fun o => o ++ [Progress kept rows]))
   else ret tt)%go.

(** The body of [for _, p := range rate.NegotiatedPrices]. *)
Definition process_price (wp0 bc bct na tinType tinVal : string)
    (npis : list string) (p : Price) : Go unit :=
  let scodes := Join (nilIfNil (ServiceCode p)) "|" in
  let mods := Join (nilIfNil (BillingCodeModifier p)) "|" in
  let ntype := NegotiatedType p in
  let bclass := BillingClass p in
  let rateStr := anyToString (NegotiatedRate p) in
  let exp := ExpirationDate p in
  for_range npis (fun npi =>
    emit_row wp0 bc
      [npi; tinType; tinVal;
       rateStr; exp; scodes;
       bc; bct; na;
       ntype; bclass; mods]).

(** The body of [for _, pg := range rate.ProviderGroups]. *)
Definition process_group (wp0 bc bct na : string) (prices : list Price)
    (pg : ProviderGroup) : Go unit :=
  let '(tinType, tinVal) :=
    match TIN pg with
    | Some t => (tin_Type t, tin_Value t)
    | None => ("", "")
    end in
  let npis := normalizeNPIs (NPI pg) in
  if (length npis =? 0)%nat then ret tt
  else for_range prices (process_price wp0 bc bct na tinType tinVal npis).

(** The body of [for _, rate := range it.NegotiatedRates]. *)
Definition process_rate (bc bct na : string) (rate : Rate) : Go unit :=
  ((if (0 <? length (ProviderReferences rate))%nat then
      modify (set_skippedRefRates incr64) ;;
      for_range (ProviderReferences rate) (fun _ =>
        unresW_Write [bc; "ref_id"] ;;
        modify (set_skippedRefIDs incr64))
    else ret tt) ;;
   if (length (ProviderGroups rate) =? 0)%nat
      || (length (NegotiatedPrices rate) =? 0)%nat
   then ret tt
   else
     wp0 <- match rev with
            | Rev1 => ret ""
            | RevR2 => getWriter bc
            end ;;
     for_range (ProviderGroups rate)
       (process_group wp0 bc bct na (NegotiatedPrices rate)))%go.

(** The body of the loop over the array's items, after [dec.Decode]. *)
Definition process_item (it : Item) : Go unit :=
  (modify (set_seenItems incr64) ;;
   let bct := ToUpper' (TrimSpace' (BillingCodeType it)) in
   if negb (HasPrefix bct "CPT") then ret tt
   else
     let bc := TrimSpace' (BillingCode it) in
     if String.eqb bc "" then ret tt
     else if negb (bool_decide (bc ∈ allowed)) then ret tt
     else
       modify (set_keptItems incr64) ;;
       let na := anyToString (NegotiationArrangement it) in
       for_range (NegotiatedRates it) (process_rate bc bct na))%go.

(** *** The decoder

    The decoder is modelled by the tokens it has not read yet.  [Token]
    returns delimiters that are properly nested and matched, or an error.

    Revision 1 skips the value of a root key with [dec.Skip()], a method the
    decoder of [encoding/json] does not have; revision R2 calls [skipValue]
    there, and [skipValue] is what both revisions run in this model.
    Revision 1 reads the array's closing delimiter with a bare [dec.Token()];
    [dec.More()] has just answered false, so the delimiter that [Token] can
    return there is the closing one, the one [expectDelim] of revision R2
    asks for. *)

(** [dec.Token()]: the next token, or [None] for its error at the end of
    the input. *)
Definition dec_Token : Go (option Token) :=
  fun w =>
    match dec w with
    | [] => Ok None w
    | t :: ts => Ok (Some t) (set_dec (fun _ => ts) w)
    end.

(** [dec.More()]: the next token is not a closing one; at the end of the
    input the decoder in use decides. *)
Definition dec_More : Go bool :=
  gets (fun w =>
    match dec w with
    | [] => More_at_end env
    | Delim c :: _ => negb (isClose c)
    | _ => true
    end).

(** The decoder's [readValue]: the tokens up to the end of the next value,
    and what follows them; [None] for a syntax error. *)
Fixpoint scan_value (depth : nat) (ts : list Token)
    : option (list Token * list Token) :=
  match ts with
  | [] => None
  | t :: ts' =>
      let continue (d : nat) :=
        match d with
        | O => Some ([t], ts')
        | S _ =>
            match scan_value d ts' with
            | Some (v, rest) => Some (t :: v, rest)
            | None => None
            end
        end in
      match t with
      | Delim c =>
          if isOpen c then continue (S depth)
          else match depth with
               | O => None
               | S d => continue d
               end
      | _ => continue depth
      end
  end.

Definition readValue (ts : list Token) : option (list Token * list Token) :=
  scan_value 0 ts.

(** [dec.Decode(&it)]: [None] for its error. *)
Definition dec_Decode : Go (option Item) :=
  fun w =>
    match readValue (dec w) with
    | None => Ok None w
    | Some (v, rest) => Ok (unmarshal_Item env v) (set_dec (fun _ => rest) w)
    end.

Definition expectDelim (want : ascii) : Go unit :=
  (tok <- dec_Token ;;
   match tok with
   | None => panic ErrToken
   | Some (Delim d) =>
       if Ascii.eqb d want then ret tt else panic (ExpectedDelim want)
   | Some _ => panic (ExpectedDelim want)
   end)%go.

Definition expectString : Go string :=
  (tok <- dec_Token ;;
   match tok with
   | None => panic ErrToken
   | Some (TStr s) => ret s
   | Some _ => panic ExpectedStringKey
   end)%go.

(** The [switch d2] of [skipValue]: [depth] after the token [tok]. *)
Definition depth_after (depth : Z) (tok : Token) : Z :=
  match tok with
  | Delim d2 =>
      if isOpen d2 then incr64 depth
      else if isClose d2 then decr64 depth
      else depth
  | _ => depth
  end.

(** The loop [for depth > 0] of [skipValue] over the input [ts]: the
    values of [depth] the loop test saw, in order, and the input left when
    the loop ends ([None] when [dec.Token] fails). *)
Fixpoint skip_loop (depth : Z) (ts : list Token)
    : list Z * option (list Token) :=
  match ts with
  | [] => ([depth], if 0 <? depth then None else Some [])
  | tok :: ts' =>
      if 0 <? depth then
        let '(seen, r) := skip_loop (depth_after depth tok) ts' in
        (depth :: seen, r)
      else ([depth], Some ts)
  end.

(** [skipValue(dec)], with the depths its loop test saw (none when the
    value is a primitive and the loop is not entered). *)
Definition skipValue_depths : Go (list Z) :=
  (tok <- dec_Token ;;
   match tok with
   | None => panic ErrToken
   | Some (Delim d) =>
       fun w =>
         match skip_loop 1 (dec w) with
         | (seen, Some rest) => Ok seen (set_dec (fun _ => rest) w)
         | (_, None) => Panic ErrToken (set_dec (fun _ => []) w)
         end
   | Some _ => ret []
   end)%go.

Definition skipValue : Go unit := (skipValue_depths ;; ret tt)%go.

(** *** [main] *)

(** The loop [for dec.More()] over the root object's keys; [found] is its
    result.  Every iteration reads a token, so [fuel] above the length of
    the input is never used up. *)
Fixpoint find_in_network (fuel : nat) : Go bool :=
  match fuel with
  | O => fun _ => OutOfFuel
  | S fuel' =>
      (more <- dec_More ;;
       if negb more then ret false
       else
         k <- expectString ;;
         if String.eqb k "in_network" then
           expectDelim "[" ;;
           ret true
         else
           skipValue ;;
           find_in_network fuel')%go
  end.

(** The loop [for dec.More()] over the items of the array. *)
Fixpoint process_items (fuel : nat) : Go unit :=
  match fuel with
  | O => fun _ => OutOfFuel
  | S fuel' =>
      (more <- dec_More ;;
       if negb more then ret tt
       else
         it <- dec_Decode ;;
         match it with
         | None => panic ErrDecode
         | Some it =>
             process_item it ;;
             process_items fuel'
         end)%go
  end.

Definition flush_close (f : csvFile) : csvFile := file_Close (csv_Flush f).

(** [for _, wp := range writers { wp.w.Flush(); _ = wp.f.Close() }] *)
Definition close_writers : world -> world := set_writers (fmap flush_close).

(** [unresW.Flush(); unresF.Close()], in the deferred function and again
    at the end of [main]. *)
Definition close_unres : world -> world := set_unres (fmap flush_close).

Definition print_summary : Go unit :=
  modify (fun w =>
    set_stdout (fun o =>
      o ++ [Summary (seenItems w) (keptItems w) (outRows w)
              (skippedRefRates w) (skippedRefIDs w)]) w).

(** [main] from the root object's opening delimiter on, after the
    deferred call was registered. *)
Definition read_document : Go unit :=
  (expectDelim "{" ;;
   n <- gets (fun w => length (dec w)) ;;
   found <- find_in_network (S n) ;;
   if negb found then panic NoInNetwork
   else
     n <- gets (fun w => length (dec w)) ;;
     process_items (S n) ;;
     expectDelim "]" ;;
     modify close_writers ;;
     modify close_unres ;;
     match rev with
     | Rev1 => print_summary
     | RevR2 => ret tt
     end)%go.

(** [main] from the creation of the outputs to the closing of the tables.
    The flags are checked before; the input stream is opened and wrapped
    between the creation of the outputs and the first token; revision R2
    goes on to upload the closed files. *)
Definition main : Go unit :=
  if negb (mkdir_ok env) then panic ErrIO
  else if negb (create_ok env unresName) then panic ErrIO
  else
    (modify (set_unres (fun _ => Some (csv_Write unresHeader newFile))) ;;
     defer close_unres read_document)%go.

(** The state [main] starts in, reading the tokens [ts]. *)
Definition start (ts : list Token) : world :=
  {| dec := ts; seenItems := 0; keptItems := 0; outRows := 0;
     skippedRefRates := 0; skippedRefIDs := 0; writers := ∅;
     unres := None; stdout := [] |}.

Definition run (ts : list Token) : result unit := main (start ts).

(** *** Reading the state *)

(** The records of the table of [bc], none when it was not opened. *)
Definition table (w : world) (bc : string) : list record :=
  match writers w !! bc with
  | Some f => records f
  | None => []
  end.

(** The state after a successful [getWriter(bc)]. *)
Definition opened (bc : string) (w : world) : world :=
  match writers w !! bc with
  | Some _ => w
  | None => set_writers (insert bc (csv_Write header newFile)) w
  end.

(** Between [w] and [w'] the records [rows] were written to the table of
    [bc] and no other table was touched: either nothing was written and the
    table is as it was, or the table holds what it held (its header, when it
    was not open) followed by [rows]. *)
Definition rows_written (bc : string) (w w' : world) (rows : list record)
    : Prop :=
  ((rows = [] /\ writers w' !! bc = writers w !! bc)
   \/ table w' bc = table (opened bc w) bc ++ rows)
  /\ forall c, c <> bc -> writers w' !! c = writers w !! c.

(** The handle the innermost loop writes through is there: revision 1
    can create the file; revision R2 holds the handle of [bc]. *)
Definition ready (wp0 bc : string) (w : world) : Prop :=
  match rev with
  | Rev1 => create_ok env (csvName bc) = true
  | RevR2 => wp0 = bc /\ is_Some (writers w !! bc)
  end.

(** The normalized NPI sequence's length. *)
Definition npi_count (pg : ProviderGroup) : nat :=
  length (normalizeNPIs (NPI pg)).

Definition sum_nat (l : list nat) : nat := fold_right Nat.add 0%nat l.

(** The rows of one provider group and of one rate group, in the order the
    loops emit them. *)
Definition price_row (bc bct na tinType tinVal : string) (p : Price)
    (npi : string) : record :=
  [npi; tinType; tinVal;
   anyToString (NegotiatedRate p); ExpirationDate p;
   Join (nilIfNil (ServiceCode p)) "|";
   bc; bct; na;
   NegotiatedType p; BillingClass p;
   Join (nilIfNil (BillingCodeModifier p)) "|"].

Definition group_rows (bc bct na : string) (prices : list Price)
    (pg : ProviderGroup) : list record :=
  let tinType := from_option tin_Type "" (TIN pg) in
  let tinVal := from_option tin_Value "" (TIN pg) in
  flat_map (fun p =>
    map (price_row bc bct na tinType tinVal p) (normalizeNPIs (NPI pg)))
    prices.

Definition rate_rows (bc bct na : string) (rate : Rate) : list record :=
  flat_map (group_rows bc bct na (NegotiatedPrices rate))
    (ProviderGroups rate).

(** The state after one row, and after a list of rows, went through
    [emit_row] without a panic. *)
Definition emitted1 (bc : string) (w : world) (row : record) : world :=
  let w1 :=
    set_outRows incr64
      (set_writers (alter (csv_Write row) bc) (opened bc w)) in
  if (0 <? progressEvery) && (Z.rem (outRows w1) progressEvery =? 0)
  then set_stdout (fun o => o ++ [Progress (keptItems w1) (outRows w1)]) w1
  else w1.

Definition emitted (bc : string) (rows : list record) (w : world) : world :=
  fold_left (emitted1 bc) rows w.

(** The filter of the items, in the words of the specification. *)
Definition passes_filter (it : Item) : bool :=
  HasPrefix (ToUpper' (TrimSpace' (BillingCodeType it))) "CPT"
  && negb (String.eqb (TrimSpace' (BillingCode it)) "")
  && bool_decide (TrimSpace' (BillingCode it) ∈ allowed).

(** A call of the sink as the flattening loops make it: take the handle
    of [code], then write [rows] through it (one row in revision 1, the
    rows of a rate group in revision R2). *)
Definition writeRows (call : string * list record) : Go unit :=
  (wp <- getWriter (fst call) ;;
   for_range (snd call) (wp_Write wp))%go.

(** How many of the records [rs] are the header. *)
Definition header_count (rs : list record) : nat :=
  length (filter (fun r => r = header) rs).

(** The rows handed to the sink for [code] by a list of calls. *)
Definition rows_for (code : string) (calls : list (string * list record))
    : list record :=
  flat_map (fun call =>
    if String.eqb (fst call) code then snd call else []) calls.

(** Applying [f] to the state a run ended in. *)
Definition on_world {A} (f : world -> world) (r : result A) : result A :=
  match r with
  | Ok a w => Ok a (f w)
  | Panic e w => Panic e (f w)
  | OutOfFuel => OutOfFuel
  end.

Definition primitive (v : json) : bool :=
  match v with
  | JArr _ | JObj _ => false
  | _ => true
  end.

(** The state after the provider references of a rate group were logged. *)
Definition logged1 (bc : string) (w : world) : world :=
  set_skippedRefIDs incr64 (set_unres (fmap (csv_Write [bc; "ref_id"])) w).

Definition refs_logged (bc : string) (refs : list string) (w : world)
    : world :=
  if (0 <? length refs)%nat then
    Nat.iter (length refs) (logged1 bc) (set_skippedRefRates incr64 w)
  else w.

(** The records of the unresolved-references table, when it is open. *)
Definition unres_records (w : world) : option (list record) :=
  records <$> unres w.

(** The run [r] from [w] ended, normally or in a panic, in a state with the
    unresolved-references table of [w] and its count of references. *)
Definition keeps_unres {A} (w : world) (r : result A) : Prop :=
  match r with
  | Ok _ w' | Panic _ w' =>
      unres w' = unres w /\ skippedRefIDs w' = skippedRefIDs w
  | OutOfFuel => False
  end.

(** A row with its TIN cells emptied. *)
Definition blank_tin (r : record) : record :=
  <[1%nat := ""]> (<[2%nat := ""]> r).

Definition max_nesting (l : list json) : Z :=
  fold_right (fun x m => Z.max (nesting x) m) 0 l.

(** The loop at depth [d] runs through the tokens [ts], seeing the depths
    [seen], and is back at depth [d] after them. *)
Definition passes (d : Z) (ts : list Token) (seen : list Z) : Prop :=
  length seen = length ts
  /\ Forall (fun x => 0 < x) seen
  /\ forall rest,
       skip_loop d (ts ++ rest)
       = (seen ++ fst (skip_loop d rest), snd (skip_loop d rest)).

Definition skippable (v : json) : Prop :=
  forall d, 0 < d -> d + nesting v <= maxInt64 ->
  exists seen, passes d (tokens v) seen.

(** A statement that neither reads nor moves the decoder: run on a state
    whose input was replaced, it does what it does otherwise, and leaves
    the replaced input. *)
Definition dec_free {A} (m : Go A) : Prop :=
  forall w d,
    m (set_dec (fun _ => d) w) = on_world (set_dec (fun _ => d)) (m w).

(** [ts] put in front of the value a scan returned. *)
Definition prepend (ts : list Token)
    (o : option (list Token * list Token))
    : option (list Token * list Token) :=
  match o with
  | Some (v, rest) => Some (ts ++ v, rest)
  | None => None
  end.

(** The loop over the items of the array on the values [items]: the items
    it has not decoded when it ends, and how it ends. *)
Fixpoint items_outcome (items : list json) (w : world)
    : list json * result unit :=
  match items with
  | [] => ([], Ok tt w)
  | v :: vs =>
      match unmarshal_Item env (tokens v) with
      | None => (vs, Panic ErrDecode w)
      | Some it =>
          match process_item it w with
          | Ok _ w' => items_outcome vs w'
          | Panic e w' => (vs, Panic e w')
          | OutOfFuel => (vs, OutOfFuel)
          end
      end
  end.

(** The root object up to the end of its "in_network" array: the members
    [pre] before it, then the array of [items]. *)
Definition root_prefix (pre : list (string * json)) (items : list json)
    : list Token :=
  Delim "{" :: members_tokens pre
    ++ TStr "in_network" :: Delim "[" :: elems_tokens items
    ++ [Delim "]"].

(** A statement whose runs end, normally or in a panic. *)
Definition total {A} (m : Go A) : Prop := forall w, m w <> OutOfFuel.

(** The end of [read_document] after the array's closing delimiter was
    read. *)
Definition finish (w : world) : world :=
  let w' := close_unres (close_writers w) in
  match rev with
  | Rev1 =>
      set_stdout (fun o =>
        o ++ [Summary (seenItems w') (keptItems w') (outRows w')
                (skippedRefRates w') (skippedRefIDs w')]) w'
  | RevR2 => w'
  end.

(** The state in which [main] starts to read the document. *)
Definition started : world :=
  set_unres (fun _ => Some (csv_Write unresHeader newFile)) (start []).

(** The run of [read_document] from [w] on a document that starts with
    [root_prefix pre items] and goes on with the tokens [tl]. *)
Definition document_outcome (items : list json) (tl : list Token)
    (w : world) : result unit :=
  match items_outcome items w with
  | (_, Ok _ w') => Ok tt (finish (set_dec (fun _ => tl) w'))
  | (rem, Panic e w') =>
      Panic e (set_dec (fun _ => elems_tokens rem ++ Delim "]" :: tl) w')
  | (_, OutOfFuel) => OutOfFuel
  end.




(** The text [s] is in exponential notation: it has an exponent mark. *)
Definition isExponentMark (c : ascii) : bool :=
  (Ascii.eqb c "e" || Ascii.eqb c "E")%char.

Definition has_exponent (s : string) : bool :=
  existsb_string isExponentMark s.

(** *** The flags of [main]

    [main] ends the process with status 2, before it creates anything, when
    [-input] or [-codes] is empty or when [-codes] holds no code. *)

(** The function [main] hands to [strings.FieldsFunc]: a comma, a space or
    a tab. *)
Definition isCodeSep (c : ascii) : bool :=
  (Ascii.eqb c "," || Ascii.eqb c " " || Ascii.eqb c "009")%char.

(** [strings.FieldsFunc(s, f)] for a function [f] that holds of ASCII
    runes only.  The library decodes [s] rune by rune; the bytes of a
    rune that is not ASCII, and a byte that is no valid encoding, are not
    ASCII, so the spans are cut at the bytes of which [f] holds.  [field]
    is the span being read ([None] when [start < 0]). *)
Fixpoint FieldsFunc_loop (f : ascii -> bool) (field : option string)
    (s : string) : list string :=
  match s with
  | EmptyString =>
      match field with
      | Some t => [t]
      | None => []
      end
  | String c s' =>
      if f c then
        match field with
        | Some t => t :: FieldsFunc_loop f None s'
        | None => FieldsFunc_loop f None s'
        end
      else
        FieldsFunc_loop f
          (Some (String.append (default EmptyString field)
                   (String c EmptyString))) s'
  end.

Definition FieldsFunc (s : string) (f : ascii -> bool) : list string :=
  FieldsFunc_loop f None s.

(** The allow-set built from the value of [-codes]. *)
Definition parse_codes (codeStr : string) : gset string :=
  fold_left (fun allowed tok =>
      let t := TrimSpace' tok in
      if String.eqb t "" then allowed else {[t]} ∪ allowed)
    (FieldsFunc codeStr isCodeSep) ∅.

(** The checks of [-input] and [-codes]: [None] when [main] ends the
    process with status 2, the allow-set of the run otherwise.  (Revision
    R2 also ends it with status 2, between the two checks, when a setting
    of the upload is missing.) *)
Definition check_flags (inPath codeStr : string) : option (gset string) :=
  if String.eqb inPath "" || String.eqb codeStr "" then None
  else
    let allowed := parse_codes codeStr in
    if (size allowed =? 0)%nat then None else Some allowed.

(** A byte of a code as it is written in [-codes]: ASCII, no white space,
    no comma. *)
Definition isCodeByte (c : ascii) : bool :=
  isASCIIbyte c && negb (asciiSpace c) && negb (isCodeSep c).

Definition isCode (s : string) : bool :=
  negb (String.eqb s "") && forallb_string isCodeByte s.

(** *** Properties of the state that a run keeps *)

(** A statement that keeps the property [P] of the state, when it returns
    and when it panics. *)
Definition maintains {A} (P : world -> Prop) (m : Go A) : Prop :=
  forall w, P w ->
    match m w with
    | Ok _ w' | Panic _ w' => P w'
    | OutOfFuel => True
    end.

(** A statement that does nothing but read from the decoder. *)
Definition reads_only {A} (m : Go A) : Prop :=
  forall w,
    match m w with
    | Ok _ w' | Panic _ w' => exists d, w' = set_dec (fun _ => d) w
    | OutOfFuel => True
    end.

(** The state a run ended in, by returning or in a panic. *)
Definition final_state (r : result unit) : option world :=
  match r with
  | Ok _ w | Panic _ w => Some w
  | OutOfFuel => None
  end.

(** A data row of the table of the code [c]: twelve cells, the code in the
    billing_code cell, a type that starts with CPT in the billing_code_type
    cell. *)
Definition row_of (c : string) (r : record) : Prop :=
  length r = 12%nat
  /\ r !! 6%nat = Some c
  /\ exists bct, r !! 7%nat = Some bct /\ HasPrefix bct "CPT" = true.

(** The tables are those of codes of the allow-set, and each holds the
    header followed by data rows of its code. *)
Definition tables_headed (m : gmap string csvFile) : Prop :=
  forall c f,
    m !! c = Some f ->
    c ∈ allowed /\ c <> ""
    /\ exists rs, records f = header :: rs /\ Forall (row_of c) rs.

(** Everything written to the file is in the file, and it is closed. *)
Definition flushed_and_closed (f : csvFile) : Prop :=
  closed f = true /\ pending f = [].

(** The unresolved-references table was created and is not closed. *)
Definition unres_open (w : world) : Prop :=
  exists u, unres w = Some u /\ closed u = false.

(** A record of the unresolved-references table: the code of a kept item
    and the placeholder where the reference's identifier would be. *)
Definition ref_record (r : record) : Prop :=
  exists c, c ∈ allowed /\ c <> "" /\ r = [c; "ref_id"].

(** The unresolved-references table is open and holds its header and the
    references logged so far, as many as were counted. *)
Definition unres_logged (w : world) : Prop :=
  exists u rs,
    unres w = Some u /\ closed u = false
    /\ records u = unresHeader :: rs /\ Forall ref_record rs
    /\ skippedRefIDs w = wrap64 (Z.of_nat (length rs)).

(** *** What a run writes, read off the items of the array *)

Definition item_code (it : Item) : string := TrimSpace' (BillingCode it).

Definition item_type (it : Item) : string :=
  ToUpper' (TrimSpace' (BillingCodeType it)).

(** The rows of an item, in the order of its rate groups: none when the
    filter drops it. *)
Definition item_rows (it : Item) : list record :=
  if passes_filter it then
    flat_map
      (rate_rows (item_code it) (item_type it)
         (anyToString (NegotiationArrangement it)))
      (NegotiatedRates it)
  else [].

(** The records an item adds to the unresolved-references table. *)
Definition item_refs (it : Item) : list record :=
  if passes_filter it then
    flat_map
      (fun rate =>
         repeat [item_code it; "ref_id"] (length (ProviderReferences rate)))
      (NegotiatedRates it)
  else [].

(** The rate groups of an item that hold provider references. *)
Definition item_ref_rates (it : Item) : list Rate :=
  if passes_filter it then
    List.filter (fun rate => (0 <? length (ProviderReferences rate))%nat)
      (NegotiatedRates it)
  else [].

(** The rows of the items of code [c], in the order of the items. *)
Definition rows_of_code (c : string) (its : list Item) : list record :=
  flat_map (fun it => if String.eqb (item_code it) c then item_rows it else [])
    its.

(** The state after a rate group, and after an item, when the files can be
    created. *)
Definition rate_done (bc bct na : string) (w : world) (rate : Rate) : world :=
  let w1 := refs_logged bc (ProviderReferences rate) w in
  if (length (ProviderGroups rate) =? 0)%nat
     || (length (NegotiatedPrices rate) =? 0)%nat
  then w1
  else
    emitted bc (rate_rows bc bct na rate)
      (match rev with
       | Rev1 => w1
       | RevR2 => opened bc w1
       end).

Definition item_done (w : world) (it : Item) : world :=
  if passes_filter it then
    fold_left
      (rate_done (item_code it) (item_type it)
         (anyToString (NegotiationArrangement it)))
      (NegotiatedRates it)
      (set_keptItems incr64 (set_seenItems incr64 w))
  else set_seenItems incr64 w.

(** The tables hold their header and the rows [R c], a table without rows
    being there or not. *)
Definition tabled (R : string -> list record) (w : world) : Prop :=
  forall c,
    (writers w !! c = None /\ R c = [])
    \/ exists f, writers w !! c = Some f /\ records f = header :: R c.

(** The state [w] is what processing the items [its] from the start
    leaves: the tables, the unresolved-references table and the counters. *)
Definition extracted (its : list Item) (w : world) : Prop :=
  tabled (fun c => rows_of_code c its) w
  /\ unres_records w = Some (unresHeader :: flat_map item_refs its)
  /\ seenItems w = wrap64 (Z.of_nat (length its))
  /\ keptItems w = wrap64 (Z.of_nat (length (List.filter passes_filter its)))
  /\ outRows w = wrap64 (Z.of_nat (length (flat_map item_rows its)))
  /\ skippedRefRates w
     = wrap64 (Z.of_nat (length (flat_map item_ref_rates its)))
  /\ skippedRefIDs w = wrap64 (Z.of_nat (length (flat_map item_refs its))).

(** The items [its] are what the elements [items] of the array decode to,
    and the table of every item the filter keeps can be created. *)
Definition decodable (items : list json) (its : list Item) : Prop :=
  Forall2 (fun v it =>
    unmarshal_Item env (tokens v) = Some it
    /\ (passes_filter it = true ->
        create_ok env (csvName (item_code it)) = true)) items its.

(** The members of a root object in front of its "in_network" array:
    other keys, and values the depth counter of [skipValue] can follow. *)
Definition skipped_members (pre : list (string * json)) : Prop :=
  Forall (fun kv => fst kv <> "in_network"
                    /\ nesting (snd kv) <= maxInt64) pre.

(** The state while the rate groups of a kept item of code [bc] are
    processed, after the items [its]: the item has given the rows [rows],
    the unresolved-reference records [refs] and [n] rate groups with
    references so far. *)
Definition extracting (its : list Item) (bc : string)
    (rows refs : list record) (n : nat) (w : world) : Prop :=
  tabled (fun c =>
    rows_of_code c its ++ (if String.eqb bc c then rows else [])) w
  /\ unres_records w = Some (unresHeader :: flat_map item_refs its ++ refs)
  /\ seenItems w = wrap64 (Z.of_nat (length its) + 1)
  /\ keptItems w
     = wrap64 (Z.of_nat (length (List.filter passes_filter its)) + 1)
  /\ outRows w
     = wrap64 (Z.of_nat (length (flat_map item_rows its))
               + Z.of_nat (length rows))
  /\ skippedRefRates w
     = wrap64 (Z.of_nat (length (flat_map item_ref_rates its)) + Z.of_nat n)
  /\ skippedRefIDs w
     = wrap64 (Z.of_nat (length (flat_map item_refs its))
               + Z.of_nat (length refs)).

(** The number of data rows in the tables: their records but the
    header. *)
Definition data_rows_total (m : gmap string csvFile) : nat :=
  map_fold (fun _ f n => (length (records f) - 1 + n)%nat) 0%nat m.

(** Every table holds a record, and [outRows] counts the data rows of the
    tables. *)
Definition rows_counted (w : world) : Prop :=
  (forall c f, writers w !! c = Some f -> records f <> [])
  /\ outRows w = wrap64 (Z.of_nat (data_rows_total (writers w))).

Definition isDigit (c : ascii) : bool :=
  ((48 <=? byte c) && (byte c <=? 57))%N.

(** The digits of the fraction of a number in fixed notation, without the
    zeros at their end. *)
Definition fraction_digits (n : Z) : string :=
  trimRightByte (pad10 (decimal (n mod 10 ^ 10))) "0".

(** The progress lines among what was printed. *)
Definition progress_lines (o : list event) : nat :=
  length (List.filter
            (fun e => match e with Progress _ _ => true | _ => false end) o).

(** The rows are counted, and while their number fits the counter one
    progress line was printed for every [progressEvery] rows. *)
Definition progress_counted (w : world) : Prop :=
  rows_counted w
  /\ (Z.of_nat (data_rows_total (writers w)) <= maxInt64 ->
      Z.of_nat (progress_lines (stdout w))
      = Z.of_nat (data_rows_total (writers w)) / progressEvery).

(** ** Properties *)

(** *** The writer's buffer

    Whether the buffer was written out on the way or not, a write adds its
    record to those handed to the writer, leaves the file open or closed
    as it was, and leaves the record in the buffer. *)

Lemma records_Write r f : records (csv_Write r f) = records f ++ [r].
Proof.
  unfold records, csv_Write. destruct (bufio_full env f r); simpl.
  - reflexivity.
  - now rewrite app_assoc.
Qed.

Lemma closed_Write r f : closed (csv_Write r f) = closed f.
Proof. unfold csv_Write. now destruct (bufio_full env f r). Qed.


Lemma records_newFile r : records (csv_Write r newFile) = [r].
Proof. now rewrite records_Write. Qed.

(** *** Machine integers *)

Lemma wrap64_small (z : Z) : - 2 ^ 63 <= z <= maxInt64 -> wrap64 z = z.
Proof.
  unfold wrap64, maxInt64. intros H.
  rewrite Z.mod_small; lia.
Qed.



(** *** Loops *)

Lemma for_range_app {A} (l1 l2 : list A) (body : A -> Go unit) (w : world) :
  for_range (l1 ++ l2) body w
  = (for_range l1 body ;; for_range l2 body)%go w.
Proof.
  revert w. induction l1 as [|x l1 IH]; intros w; simpl.
  - reflexivity.
  - unfold bind. destruct (body x w) as [[] w'| |]; try reflexivity.
    rewrite IH. reflexivity.
Qed.

Lemma for_range_ext {A} (l : list A) (b1 b2 : A -> Go unit) :
  (forall x w, b1 x w = b2 x w) ->
  forall w, for_range l b1 w = for_range l b2 w.
Proof.
  intros H. induction l as [|x l IH]; intros w; simpl.
  - reflexivity.
  - unfold bind. rewrite H. destruct (b2 x w); auto.
Qed.

Lemma for_range_map {A B} (f : A -> B) (l : list A) (body : B -> Go unit)
    (w : world) :
  for_range l (fun x => body (f x)) w = for_range (map f l) body w.
Proof.
  revert w. induction l as [|x l IH]; intros w; simpl.
  - reflexivity.
  - unfold bind. destruct (body (f x) w); auto.
Qed.

Lemma for_range_flat_map {A B} (g : A -> list B) (l : list A)
    (body : B -> Go unit) (w : world) :
  for_range l (fun x => for_range (g x) body) w
  = for_range (flat_map g l) body w.
Proof.
  revert w. induction l as [|x l IH]; intros w; simpl.
  - reflexivity.
  - rewrite for_range_app. unfold bind.
    destruct (for_range (g x) body w) as [[] w'| |]; auto.
Qed.

(** *** The flattening loops write the rows of [rate_rows] *)

Lemma process_price_rows wp0 bc bct na tinType tinVal npis p w :
  process_price wp0 bc bct na tinType tinVal npis p w
  = for_range (map (price_row bc bct na tinType tinVal p) npis)
      (emit_row wp0 bc) w.
Proof.
  unfold process_price. rewrite <- for_range_map. reflexivity.
Qed.

Lemma process_group_rows wp0 bc bct na prices pg w :
  process_group wp0 bc bct na prices pg w
  = for_range (group_rows bc bct na prices pg) (emit_row wp0 bc) w.
Proof.
  unfold process_group, group_rows.
  set (npis := normalizeNPIs (NPI pg)).
  rewrite <- for_range_flat_map.
  destruct (TIN pg) as [t|]; simpl;
    (destruct npis as [|n npis'] eqn:E; simpl;
     [ clear; revert w; induction prices as [|p ps IH]; intros w; simpl;
       [reflexivity | unfold bind; simpl; apply IH]
     | apply for_range_ext; intros; apply process_price_rows ]).
Qed.

Lemma opened_lookup bc w :
  is_Some (writers (opened bc w) !! bc).
Proof.
  unfold opened. destruct (writers w !! bc) eqn:E.
  - rewrite E. eauto.
  - simpl. rewrite lookup_insert_eq. eauto.
Qed.

Lemma opened_id bc w : is_Some (writers w !! bc) -> opened bc w = w.
Proof. unfold opened. intros [f ->]. reflexivity. Qed.

Lemma writers_emitted1 bc w row :
  writers (emitted1 bc w row)
  = alter (csv_Write row) bc (writers (opened bc w)).
Proof.
  unfold emitted1. simpl.
  destruct ((0 <? progressEvery) && _); reflexivity.
Qed.

Lemma emitted1_lookup bc w row : is_Some (writers (emitted1 bc w row) !! bc).
Proof.
  rewrite writers_emitted1, lookup_alter_eq.
  destruct (opened_lookup bc w) as [f ->]. simpl. eauto.
Qed.

Lemma emit_row_ok wp0 bc row w :
  ready wp0 bc w -> emit_row wp0 bc row w = Ok tt (emitted1 bc w row).
Proof.
  unfold ready, emit_row, emitted1. intros H.
  destruct rev.
  - unfold bind at 1. unfold getWriter, opened.
    destruct (writers w !! bc) eqn:E.
    + unfold bind, wp_Write, modify, gets; simpl.
      destruct ((0 <? progressEvery) && _); reflexivity.
    + rewrite H. unfold bind, wp_Write, modify, gets; simpl.
      destruct ((0 <? progressEvery) && _); reflexivity.
  - destruct H as [-> Hs]. rewrite (opened_id _ _ Hs).
    unfold bind, ret, wp_Write, modify, gets; simpl.
    destruct ((0 <? progressEvery) && _); reflexivity.
Qed.

Lemma ready_emitted1 wp0 bc row w :
  ready wp0 bc w -> ready wp0 bc (emitted1 bc w row).
Proof.
  unfold ready. destruct rev; [auto|].
  intros [-> _]. split; [reflexivity | apply emitted1_lookup].
Qed.

Lemma emit_rows_ok wp0 bc rows w :
  ready wp0 bc w ->
  for_range rows (emit_row wp0 bc) w = Ok tt (emitted bc rows w).
Proof.
  revert w. induction rows as [|row rows IH]; intros w H; simpl.
  - reflexivity.
  - unfold bind. rewrite (emit_row_ok _ _ _ _ H).
    apply IH, ready_emitted1, H.
Qed.

(** What [emitted] changes and what it leaves. *)

Lemma emitted_snoc bc rows row w :
  emitted bc (rows ++ [row]) w = emitted1 bc (emitted bc rows w) row.
Proof. unfold emitted. rewrite fold_left_app. reflexivity. Qed.

Lemma emitted1_frame bc w row :
  dec (emitted1 bc w row) = dec w
  /\ seenItems (emitted1 bc w row) = seenItems w
  /\ keptItems (emitted1 bc w row) = keptItems w
  /\ skippedRefRates (emitted1 bc w row) = skippedRefRates w
  /\ skippedRefIDs (emitted1 bc w row) = skippedRefIDs w
  /\ unres (emitted1 bc w row) = unres w
  /\ outRows (emitted1 bc w row) = incr64 (outRows w).
Proof.
  unfold emitted1, opened.
  destruct ((0 <? progressEvery) && _);
    destruct (writers w !! bc); simpl; repeat split; reflexivity.
Qed.

Lemma emitted_frame bc rows w :
  dec (emitted bc rows w) = dec w
  /\ seenItems (emitted bc rows w) = seenItems w
  /\ keptItems (emitted bc rows w) = keptItems w
  /\ skippedRefRates (emitted bc rows w) = skippedRefRates w
  /\ skippedRefIDs (emitted bc rows w) = skippedRefIDs w
  /\ unres (emitted bc rows w) = unres w.
Proof.
  revert w. induction rows as [|row rows IH]; intros w; simpl.
  - repeat split; reflexivity.
  - destruct (IH (emitted1 bc w row)) as (H1 & H2 & H3 & H4 & H5 & H6).
    destruct (emitted1_frame bc w row) as (G1 & G2 & G3 & G4 & G5 & G6 & _).
    unfold emitted in *. simpl.
    rewrite H1, H2, H3, H4, H5, H6. repeat split; assumption.
Qed.

Lemma outRows_emitted bc rows w :
  outRows (emitted bc rows w) = Nat.iter (length rows) incr64 (outRows w).
Proof.
  induction rows as [|row rows IH] using rev_ind.
  - reflexivity.
  - rewrite emitted_snoc.
    destruct (emitted1_frame bc (emitted bc rows w) row)
      as (_ & _ & _ & _ & _ & _ & ->).
    rewrite IH, length_app, Nat.add_1_r. reflexivity.
Qed.

Lemma writers_emitted_other bc c rows w :
  c <> bc -> writers (emitted bc rows w) !! c = writers w !! c.
Proof.
  intros Hc. unfold emitted.
  revert w. induction rows as [|row rows IH]; intros w; simpl.
  - reflexivity.
  - rewrite IH, writers_emitted1.
    rewrite lookup_alter_ne by congruence.
    unfold opened. destruct (writers w !! bc); simpl; [reflexivity|].
    apply lookup_insert_ne. congruence.
Qed.

Lemma table_emitted1 bc w row :
  table (emitted1 bc w row) bc = table (opened bc w) bc ++ [row].
Proof.
  unfold table. rewrite writers_emitted1, lookup_alter_eq.
  destruct (opened_lookup bc w) as [f ->]. simpl.
  apply records_Write.
Qed.

Lemma emitted_lookup bc rows w :
  rows <> [] -> is_Some (writers (emitted bc rows w) !! bc).
Proof.
  destruct rows as [|row rows _] using rev_ind; intros Hne.
  - congruence.
  - rewrite emitted_snoc. apply emitted1_lookup.
Qed.

Lemma table_emitted bc rows w :
  rows <> [] ->
  table (emitted bc rows w) bc = table (opened bc w) bc ++ rows.
Proof.
  induction rows as [|row rows IH] using rev_ind; intros Hne.
  - congruence.
  - rewrite emitted_snoc, table_emitted1.
    destruct rows as [|r0 rows'].
    + reflexivity.
    + rewrite opened_id by (apply emitted_lookup; discriminate).
      rewrite IH by discriminate. now rewrite <- app_assoc.
Qed.

Lemma rows_written_emitted bc rows w :
  rows_written bc w (emitted bc rows w) rows.
Proof.
  split.
  - destruct rows as [|r rows].
    + left. split; reflexivity.
    + right. apply table_emitted. discriminate.
  - intros c Hc. now apply writers_emitted_other.
Qed.

(** *** Provider references *)

Lemma refs_loop bc (refs : list string) w :
  for_range refs (fun _ =>
    unresW_Write [bc; "ref_id"] ;;
    modify (set_skippedRefIDs incr64))%go w
  = Ok tt (Nat.iter (length refs) (logged1 bc) w).
Proof.
  revert w. induction refs as [|r refs IH]; intros w; simpl.
  - reflexivity.
  - unfold bind at 1. unfold unresW_Write, modify, bind. simpl.
    rewrite IH. f_equal.
    clear. induction (length refs) as [|n IHn]; simpl.
    + reflexivity.
    + rewrite IHn. reflexivity.
Qed.

Lemma process_rate_eq bc bct na rate w :
  process_rate bc bct na rate w
  = let w1 := refs_logged bc (ProviderReferences rate) w in
    if (length (ProviderGroups rate) =? 0)%nat
       || (length (NegotiatedPrices rate) =? 0)%nat
    then Ok tt w1
    else
      (wp0 <- match rev with
              | Rev1 => ret ""
              | RevR2 => getWriter bc
              end ;;
       for_range (rate_rows bc bct na rate) (emit_row wp0 bc))%go w1.
Proof.
  unfold process_rate, refs_logged, rate_rows.
  unfold bind at 1.
  destruct (0 <? length (ProviderReferences rate))%nat.
  - unfold bind at 1. unfold modify at 1. rewrite refs_loop.
    cbv zeta.
    destruct ((length (ProviderGroups rate) =? 0)%nat
              || (length (NegotiatedPrices rate) =? 0)%nat);
      [reflexivity|].
    unfold bind. destruct rev; simpl.
    + rewrite <- for_range_flat_map. apply for_range_ext.
      intros; apply process_group_rows.
    + destruct (getWriter bc _); try reflexivity.
      rewrite <- for_range_flat_map. apply for_range_ext.
      intros; apply process_group_rows.
  - unfold ret at 1. cbv zeta.
    destruct ((length (ProviderGroups rate) =? 0)%nat
              || (length (NegotiatedPrices rate) =? 0)%nat);
      [reflexivity|].
    unfold bind. destruct rev; simpl.
    + rewrite <- for_range_flat_map. apply for_range_ext.
      intros; apply process_group_rows.
    + destruct (getWriter bc _); try reflexivity.
      rewrite <- for_range_flat_map. apply for_range_ext.
      intros; apply process_group_rows.
Qed.

Lemma logged1_frame bc w :
  writers (logged1 bc w) = writers w /\ outRows (logged1 bc w) = outRows w.
Proof. split; reflexivity. Qed.

Lemma iter_logged1_frame bc n w :
  writers (Nat.iter n (logged1 bc) w) = writers w
  /\ outRows (Nat.iter n (logged1 bc) w) = outRows w.
Proof.
  induction n as [|n [IH1 IH2]]; simpl; [split; reflexivity|].
  split; assumption.
Qed.

Lemma refs_logged_frame bc refs w :
  writers (refs_logged bc refs w) = writers w
  /\ outRows (refs_logged bc refs w) = outRows w.
Proof.
  unfold refs_logged. destruct (0 <? length refs)%nat.
  - destruct (iter_logged1_frame bc (length refs)
                (set_skippedRefRates incr64 w)) as [-> ->].
    split; reflexivity.
  - split; reflexivity.
Qed.

Lemma iter_logged1_unres bc n w :
  unres_records (Nat.iter n (logged1 bc) w)
  = (fun old => old ++ repeat [bc; "ref_id"] n) <$> unres_records w.
Proof.
  unfold unres_records. induction n as [|n IH]; simpl.
  - destruct (unres w); simpl; [|reflexivity].
    now rewrite app_nil_r.
  - destruct (unres (Nat.iter n (logged1 bc) w)) as [u|] eqn:E;
      destruct (unres w) as [u0|]; simpl in *; try congruence.
    injection IH as IH. f_equal.
    rewrite records_Write, IH, <- app_assoc. f_equal.
    symmetry. apply repeat_cons.
Qed.

Lemma refs_logged_unres bc refs w :
  unres_records (refs_logged bc refs w)
  = (fun old => old ++ repeat [bc; "ref_id"] (length refs))
      <$> unres_records w.
Proof.
  unfold refs_logged. destruct (0 <? length refs)%nat eqn:E.
  - rewrite iter_logged1_unres. reflexivity.
  - apply Nat.ltb_ge in E. destruct refs; simpl in E; [|lia].
    simpl. unfold unres_records. destruct (unres w); simpl; [|reflexivity].
    now rewrite app_nil_r.
Qed.

(** *** What a panic in the row loops leaves untouched *)

Lemma emit_row_unres wp0 bc row w :
  keeps_unres w (emit_row wp0 bc row w).
Proof.
  unfold emit_row, bind, getWriter, ret, wp_Write, modify, gets.
  destruct rev; simpl.
  - destruct (writers w !! bc); simpl.
    + destruct ((0 <? progressEvery) && _); split; reflexivity.
    + destruct (create_ok env (csvName bc)); simpl; [|split; reflexivity].
      destruct ((0 <? progressEvery) && _); split; reflexivity.
  - destruct ((0 <? progressEvery) && _); split; reflexivity.
Qed.

Lemma for_range_unres {A} (l : list A) (body : A -> Go unit) :
  (forall x w, keeps_unres w (body x w)) ->
  forall w, keeps_unres w (for_range l body w).
Proof.
  intros H. induction l as [|x l IH]; intros w; simpl.
  - split; reflexivity.
  - unfold bind. specialize (H x w).
    destruct (body x w) as [[] w'| e w'|]; simpl in *; try assumption.
    specialize (IH w'). destruct H as [H1 H2].
    destruct (for_range l body w'); simpl in *; [| |assumption];
      destruct IH as [IH1 IH2]; split; congruence.
Qed.

(** *** Counting the rows of a rate group *)

Lemma length_group_rows bc bct na prices pg :
  length (group_rows bc bct na prices pg)
  = (length prices * npi_count pg)%nat.
Proof.
  unfold group_rows, npi_count.
  induction prices as [|p ps IH]; simpl.
  - reflexivity.
  - rewrite length_app, length_map, IH. reflexivity.
Qed.

Lemma length_rate_rows bc bct na rate :
  length (rate_rows bc bct na rate)
  = (length (NegotiatedPrices rate)
     * sum_nat (map npi_count (ProviderGroups rate)))%nat.
Proof.
  unfold rate_rows.
  induction (ProviderGroups rate) as [|pg pgs IH]; simpl.
  - lia.
  - rewrite length_app, length_group_rows, IH. lia.
Qed.

Lemma sum_nat_positive (l : list nat) :
  sum_nat (filter (fun n => (1 <= n)%nat) l) = sum_nat l.
Proof.
  induction l as [|n l IH]; simpl.
  - reflexivity.
  - rewrite filter_cons. destruct (decide (1 <= n)%nat); simpl.
    + now rewrite IH.
    + rewrite IH. lia.
Qed.

Lemma getWriter_ok bc w :
  create_ok env (csvName bc) = true -> getWriter bc w = Ok bc (opened bc w).
Proof.
  intros H. unfold getWriter, opened.
  destruct (writers w !! bc); [reflexivity|]. now rewrite H.
Qed.

Lemma opened_opened bc w : opened bc (opened bc w) = opened bc w.
Proof. apply opened_id, opened_lookup. Qed.

Lemma table_opened_writers bc w1 w :
  writers w1 = writers w -> table (opened bc w1) bc = table (opened bc w) bc.
Proof.
  intros H. unfold table, opened. rewrite H.
  destruct (writers w !! bc) eqn:E.
  - now rewrite H.
  - simpl. now rewrite !lookup_insert_eq.
Qed.

Lemma opened_other bc c w :
  c <> bc -> writers (opened bc w) !! c = writers w !! c.
Proof.
  intros Hc. unfold opened. destruct (writers w !! bc); [reflexivity|].
  simpl. apply lookup_insert_ne. congruence.
Qed.

Lemma rows_written_writers bc w1 w w' rows :
  writers w1 = writers w ->
  rows_written bc w1 w' rows -> rows_written bc w w' rows.
Proof.
  intros H [Hd Ho]. split.
  - destruct Hd as [[-> Hw]|Ht].
    + left. split; [reflexivity | congruence].
    + right. now rewrite <- (table_opened_writers bc w1 w H).
  - intros c Hc. rewrite (Ho c Hc). now rewrite H.
Qed.

(** The rows of a rate group with provider groups and prices, written by
    [process_rate]. *)
Lemma process_rate_rows bc bct na rate w :
  create_ok env (csvName bc) = true ->
  ProviderGroups rate <> [] -> NegotiatedPrices rate <> [] ->
  exists w',
    process_rate bc bct na rate w = Ok tt w'
    /\ rows_written bc w w' (rate_rows bc bct na rate)
    /\ outRows w'
       = Nat.iter (length (rate_rows bc bct na rate)) incr64 (outRows w).
Proof.
  intros Hc Hg Hp. rewrite process_rate_eq. cbv zeta.
  destruct (ProviderGroups rate) as [|pg pgs] eqn:Eg; [congruence|].
  destruct (NegotiatedPrices rate) as [|p ps] eqn:Ep; [congruence|].
  simpl orb. cbv iota.
  set (rows := rate_rows bc bct na rate).
  set (w1 := refs_logged bc (ProviderReferences rate) w).
  destruct (refs_logged_frame bc (ProviderReferences rate) w) as [Hw Ho].
  fold w1 in Hw, Ho.
  unfold bind. destruct rev eqn:Er.
  - unfold ret. exists (emitted bc rows w1). split; [|split].
    + apply emit_rows_ok. unfold ready. now rewrite Er.
    + apply (rows_written_writers bc w1 w _ _ Hw), rows_written_emitted.
    + now rewrite outRows_emitted, Ho.
  - rewrite (getWriter_ok _ _ Hc).
    exists (emitted bc rows (opened bc w1)). split; [|split].
    + apply emit_rows_ok. unfold ready. rewrite Er.
      split; [reflexivity | apply opened_lookup].
    + split.
      * right. destruct rows as [|r rows'] eqn:Erows.
        -- simpl. rewrite app_nil_r. now apply table_opened_writers.
        -- rewrite table_emitted by discriminate.
           rewrite opened_opened. f_equal. now apply table_opened_writers.
      * intros c Hne. rewrite writers_emitted_other by assumption.
        rewrite opened_other by assumption. now rewrite Hw.
    + rewrite outRows_emitted. f_equal. rewrite <- Ho.
      unfold opened. destruct (writers w1 !! bc); reflexivity.
Qed.

(** C1.  A rate group with at least one provider group and at least one
    price, in a kept item, emits M x (n1 + ... + nk) rows, where M is the
    number of its prices and the ni are the lengths of the normalized NPI
    sequences of its provider groups that have a normalized NPI; a
    provider group with none contributes no row.  The rows are appended to
    the table of the item's code and counted in [outRows]. *)
Theorem cross_product_multiplicity bc bct na rate w :
  create_ok env (csvName bc) = true ->
  ProviderGroups rate <> [] -> NegotiatedPrices rate <> [] ->
  exists rows w',
    process_rate bc bct na rate w = Ok tt w'
    /\ rows_written bc w w' rows
    /\ outRows w' = Nat.iter (length rows) incr64 (outRows w)
    /\ rows = flat_map (group_rows bc bct na (NegotiatedPrices rate))
                (ProviderGroups rate)
    /\ length rows
       = (length (NegotiatedPrices rate)
          * sum_nat (filter (fun n => (1 <= n)%nat)
                       (map npi_count (ProviderGroups rate))))%nat
    /\ (forall pg, npi_count pg = 0%nat ->
          group_rows bc bct na (NegotiatedPrices rate) pg = []).
Proof.
  intros Hc Hg Hp.
  destruct (process_rate_rows bc bct na rate w Hc Hg Hp)
    as (w' & Hrun & Hrows & Hout).
  exists (rate_rows bc bct na rate), w'.
  split; [exact Hrun|]. split; [exact Hrows|]. split; [exact Hout|].
  split; [reflexivity|]. split.
  - rewrite sum_nat_positive. apply length_rate_rows.
  - intros pg Hz. apply length_zero_iff_nil.
    rewrite length_group_rows, Hz. lia.
Qed.

(** *** The filter *)

Lemma process_item_kept it w :
  passes_filter it = true ->
  process_item it w
  = (modify (set_seenItems incr64) ;;
     modify (set_keptItems incr64) ;;
     for_range (NegotiatedRates it)
       (process_rate (TrimSpace' (BillingCode it))
          (ToUpper' (TrimSpace' (BillingCodeType it)))
          (anyToString (NegotiationArrangement it))))%go w.
Proof.
  unfold passes_filter, process_item. intros H.
  apply andb_prop in H as [H H3]. apply andb_prop in H as [H1 H2].
  unfold bind at 1. unfold modify at 1. cbv zeta.
  rewrite H1. simpl negb. cbv iota.
  destruct (String.eqb (TrimSpace' (BillingCode it)) ""); [discriminate|].
  rewrite H3. reflexivity.
Qed.

(** C2.  An item that does not pass the filter (its billing-code type,
    trimmed and in upper case, starts with CPT, and its trimmed billing
    code is not empty and is in the allow-set) only increments the counter
    of the items seen: no row, no unresolved-reference record, no other
    counter.  So an item produces rows only if it passes the filter. *)
Theorem filter_rejects it w :
  passes_filter it = false ->
  process_item it w = Ok tt (set_seenItems incr64 w).
Proof.
  unfold passes_filter, process_item. intros H.
  unfold bind, modify, ret.
  destruct (HasPrefix _ "CPT"); simpl in *; [|reflexivity].
  destruct (String.eqb (TrimSpace' (BillingCode it)) ""); simpl in *;
    [reflexivity|].
  rewrite H. reflexivity.
Qed.

(** *** Unresolved references *)

Lemma process_rate_unres bc bct na rate w :
  keeps_unres (refs_logged bc (ProviderReferences rate) w)
    (process_rate bc bct na rate w).
Proof.
  rewrite process_rate_eq. cbv zeta.
  set (w1 := refs_logged bc (ProviderReferences rate) w).
  destruct ((length (ProviderGroups rate) =? 0)%nat || _);
    [split; reflexivity|].
  unfold bind.
  assert (Hloop : forall wp0 w2,
    keeps_unres w2 (for_range (rate_rows bc bct na rate)
                      (emit_row wp0 bc) w2)).
  { intros wp0. apply for_range_unres. intros; apply emit_row_unres. }
  destruct rev.
  - unfold ret. apply Hloop.
  - unfold getWriter. destruct (writers w1 !! bc).
    + apply Hloop.
    + destruct (create_ok env (csvName bc)); [|split; reflexivity].
      apply (Hloop bc
               (set_writers (insert bc (csv_Write header newFile)) w1)).
Qed.

Lemma refs_logged_count bc refs w :
  skippedRefIDs (refs_logged bc refs w)
  = Nat.iter (length refs) incr64 (skippedRefIDs w).
Proof.
  unfold refs_logged. destruct (0 <? length refs)%nat eqn:E.
  - clear E. generalize (length refs) as n.
    induction n as [|n IH]; [reflexivity|].
    rewrite !Nat.iter_succ, <- IH. reflexivity.
  - apply Nat.ltb_ge in E. destruct refs; simpl in E; [reflexivity | lia].
Qed.

(** C3.  Processing a rate group of a kept item appends to the
    unresolved-references table one record per provider reference of the
    group, exactly [length (ProviderReferences rate)] of them, and counts as
    many in [skippedRefIDs], whatever else the group holds: with or without
    provider groups and prices, and also when writing its rows panics. *)
Theorem unresolved_records_count bc bct na rate w :
  exists w',
    (process_rate bc bct na rate w = Ok tt w'
     \/ exists e, process_rate bc bct na rate w = Panic e w')
    /\ unres_records w'
       = (fun old =>
            old ++ repeat [bc; "ref_id"] (length (ProviderReferences rate)))
           <$> unres_records w
    /\ skippedRefIDs w'
       = Nat.iter (length (ProviderReferences rate)) incr64 (skippedRefIDs w).
Proof.
  pose proof (process_rate_unres bc bct na rate w) as H.
  destruct (process_rate bc bct na rate w) as [[] w'|e w'|] eqn:E;
    simpl in H; [| |contradiction]; destruct H as [Hu Hc]; exists w';
    (split; [eauto|]);
    (split; [unfold unres_records at 1; rewrite Hu; apply refs_logged_unres
            | rewrite Hc; apply refs_logged_count]).
Qed.

(** *** Provider groups *)

Lemma process_group_emitted wp0 bc bct na prices pg w :
  ready wp0 bc w ->
  process_group wp0 bc bct na prices pg w
  = Ok tt (emitted bc (group_rows bc bct na prices pg) w).
Proof.
  intros Hr. rewrite process_group_rows. now apply emit_rows_ok.
Qed.

Lemma group_rows_nonempty bc bct na prices pg :
  prices <> [] -> normalizeNPIs (NPI pg) <> [] ->
  group_rows bc bct na prices pg <> [].
Proof.
  intros Hp Hn E. apply (f_equal (@length record)) in E.
  rewrite length_group_rows in E. unfold npi_count in E.
  destruct prices; [congruence|].
  destruct (normalizeNPIs (NPI pg)); [congruence|].
  simpl in E. lia.
Qed.

Lemma group_rows_npi_cells bc bct na prices pg :
  map (fun r : record => r !! 0%nat) (group_rows bc bct na prices pg)
  = flat_map (fun _ => map Some (normalizeNPIs (NPI pg))) prices.
Proof.
  unfold group_rows.
  induction prices as [|p ps IH]; simpl; [reflexivity|].
  rewrite map_app, IH. f_equal.
  rewrite map_map. reflexivity.
Qed.

(** C8.  [normalizeNPIs] sends every array through [anyToString] element
    by element: the normalized sequence has the array's length, holds at
    each index the text of the array's element there, and so the empty
    string at the index of a null, which counts in the length like any
    other element.  The group writes one row per price and element of the
    array, in this order, with the element's text in the NPI cell.  So a
    provider group whose NPI array holds only nulls (and at least one) has
    a non-empty normalized sequence, and with at least one price it emits
    rows, all with an empty NPI cell. *)
Theorem null_npis_emit_rows wp0 bc bct na prices t l w :
  ready wp0 bc w ->
  normalizeNPIs (Arr l) = map anyToString l
  /\ anyToString Nil = ""
  /\ length (normalizeNPIs (Arr l)) = length l
  /\ (forall i e, l !! i = Some e ->
        normalizeNPIs (Arr l) !! i = Some (anyToString e))
  /\ (forall i, l !! i = Some Nil -> normalizeNPIs (Arr l) !! i = Some "")
  /\ exists rows w',
       process_group wp0 bc bct na prices {| TIN := t; NPI := Arr l |} w
       = Ok tt w'
       /\ rows
          = flat_map (fun p =>
              map (price_row bc bct na (from_option tin_Type "" t)
                     (from_option tin_Value "" t) p)
                (map anyToString l)) prices
       /\ rows_written bc w w' rows
       /\ length rows = (length prices * length l)%nat
       /\ outRows w' = Nat.iter (length rows) incr64 (outRows w)
       /\ map (fun r : record => r !! 0%nat) rows
          = flat_map (fun _ => map (fun e => Some (anyToString e)) l) prices
       /\ (l <> [] -> prices <> [] ->
           rows <> [] /\ table w' bc = table (opened bc w) bc ++ rows)
       /\ (Forall (fun e => e = Nil) l ->
           Forall (fun r => r !! 0%nat = Some "") rows).
Proof.
  intros Hr.
  split; [reflexivity|]. split; [reflexivity|].
  split; [apply length_map|].
  split; [intros i e He; cbn [normalizeNPIs];
          now rewrite list_lookup_fmap, He|].
  split; [intros i He; cbn [normalizeNPIs];
          now rewrite list_lookup_fmap, He|].
  set (pg := {| TIN := t; NPI := Arr l |}).
  exists (group_rows bc bct na prices pg),
    (emitted bc (group_rows bc bct na prices pg) w).
  assert (Hcells :
    map (fun r : record => r !! 0%nat) (group_rows bc bct na prices pg)
    = flat_map (fun _ => map (fun e => Some (anyToString e)) l) prices).
  { rewrite group_rows_npi_cells. cbn [pg NPI normalizeNPIs].
    induction prices as [|p ps IH]; simpl; [reflexivity|].
    rewrite IH. f_equal. now rewrite map_map. }
  split; [now apply process_group_emitted|].
  split; [reflexivity|].
  split; [apply rows_written_emitted|].
  split.
  { rewrite length_group_rows. unfold npi_count. cbn [pg NPI normalizeNPIs].
    now rewrite length_map. }
  split; [apply outRows_emitted|].
  split; [exact Hcells|].
  split.
  - intros Hl Hp.
    assert (Hne : group_rows bc bct na prices pg <> []).
    { apply group_rows_nonempty; [exact Hp|].
      cbn [pg NPI normalizeNPIs]. destruct l; [congruence | discriminate]. }
    split; [exact Hne | now apply table_emitted].
  - intros Hnil. apply List.Forall_forall. intros r Hin.
    assert (Hc : In (r !! 0%nat)
                   (map (fun r : record => r !! 0%nat)
                      (group_rows bc bct na prices pg)))
      by (apply in_map_iff; eauto).
    rewrite Hcells in Hc. apply in_flat_map in Hc as (p & _ & Hc).
    apply in_map_iff in Hc as (e & <- & He).
    rewrite List.Forall_forall in Hnil. now rewrite (Hnil e He).
Qed.

Lemma group_rows_blank_tin bc bct na prices t npi :
  group_rows bc bct na prices {| TIN := None; NPI := npi |}
  = map blank_tin
      (group_rows bc bct na prices {| TIN := Some t; NPI := npi |}).
Proof.
  unfold group_rows. simpl.
  induction prices as [|p ps IH]; simpl.
  - reflexivity.
  - rewrite map_app, <- IH. f_equal.
    rewrite map_map. reflexivity.
Qed.

Lemma blank_tin_other (r : record) (i : nat) :
  i <> 1%nat -> i <> 2%nat -> blank_tin r !! i = r !! i.
Proof.
  intros H1 H2. unfold blank_tin.
  etrans; [apply list_lookup_insert_ne; congruence|].
  apply list_lookup_insert_ne; congruence.
Qed.

(** C10.  A provider group without TIN writes one row per price and
    normalized NPI, as the same group with a TIN does; these rows are in
    the table after the run of the group, after what the table held.  Their
    [tin_type] and [tin_value] cells are empty, and their other cells are
    those of the rows the group writes with a TIN, row by row. *)
Theorem absent_tin_blank_cells wp0 bc bct na prices t npi w :
  ready wp0 bc w ->
  exists rowsN rowsT wN wT,
    process_group wp0 bc bct na prices {| TIN := None; NPI := npi |} w
    = Ok tt wN
    /\ rows_written bc w wN rowsN
    /\ process_group wp0 bc bct na prices {| TIN := Some t; NPI := npi |} w
       = Ok tt wT
    /\ rows_written bc w wT rowsT
    /\ Forall (fun r => r !! 1%nat = Some "" /\ r !! 2%nat = Some "") rowsN
    /\ rowsN = map blank_tin rowsT
    /\ Forall (fun r => r !! 1%nat = Some (tin_Type t)
                        /\ r !! 2%nat = Some (tin_Value t)) rowsT
    /\ rowsN
       = flat_map (fun p =>
           map (price_row bc bct na "" "" p) (normalizeNPIs npi)) prices
    /\ rowsT
       = flat_map (fun p =>
           map (price_row bc bct na (tin_Type t) (tin_Value t) p)
             (normalizeNPIs npi)) prices
    /\ length rowsN = (length prices * length (normalizeNPIs npi))%nat
    /\ length rowsT = length rowsN
    /\ outRows wN = Nat.iter (length rowsN) incr64 (outRows w)
    /\ (rowsN = [] -> wN = w)
    /\ (prices <> [] -> normalizeNPIs npi <> [] ->
        rowsN <> []
        /\ table wN bc = table (opened bc w) bc ++ rowsN
        /\ table wT bc = table (opened bc w) bc ++ rowsT)
    /\ Forall2 (fun rN rT : record =>
                  length rN = length rT
                  /\ forall i, i <> 1%nat -> i <> 2%nat ->
                               rN !! i = rT !! i) rowsN rowsT.
Proof.
  intros Hr.
  set (pgN := {| TIN := None; NPI := npi |}).
  set (pgT := {| TIN := Some t; NPI := npi |}).
  exists (group_rows bc bct na prices pgN), (group_rows bc bct na prices pgT),
    (emitted bc (group_rows bc bct na prices pgN) w),
    (emitted bc (group_rows bc bct na prices pgT) w).
  assert (Hmap : group_rows bc bct na prices pgN
                 = map blank_tin (group_rows bc bct na prices pgT))
    by apply group_rows_blank_tin.
  split; [now apply process_group_emitted|].
  split; [apply rows_written_emitted|].
  split; [now apply process_group_emitted|].
  split; [apply rows_written_emitted|].
  split.
  { apply List.Forall_forall. intros r Hin.
    unfold group_rows in Hin. apply in_flat_map in Hin as (p & _ & Hin).
    apply in_map_iff in Hin as (n & <- & _). split; reflexivity. }
  split; [exact Hmap|].
  split.
  { apply List.Forall_forall. intros r Hin.
    unfold group_rows in Hin. apply in_flat_map in Hin as (p & _ & Hin).
    apply in_map_iff in Hin as (n & <- & _). split; reflexivity. }
  split; [reflexivity|]. split; [reflexivity|].
  split; [apply (length_group_rows bc bct na prices pgN)|].
  split; [now rewrite Hmap, length_map|].
  split; [apply outRows_emitted|].
  split; [intros ->; reflexivity|].
  split.
  - intros Hp Hn.
    assert (HneN : group_rows bc bct na prices pgN <> [])
      by (apply group_rows_nonempty; assumption).
    assert (HneT : group_rows bc bct na prices pgT <> [])
      by (apply group_rows_nonempty; assumption).
    split; [exact HneN|]. split; now apply table_emitted.
  - rewrite Hmap. clear Hmap.
    induction (group_rows bc bct na prices pgT) as [|r rs IH]; simpl;
      constructor; [|exact IH].
    split.
    + unfold blank_tin.
      etrans; [apply length_insert|]. apply length_insert.
    + intros i H1 H2. now apply blank_tin_other.
Qed.

(** *** The sink *)

Lemma wp_Write_rows wp rows w :
  for_range rows (wp_Write wp) w
  = Ok tt (set_writers
             (alter (fun f => fold_left (fun f r => csv_Write r f) rows f)
                wp) w).
Proof.
  revert w. induction rows as [|r rows IH]; intros w; simpl.
  - f_equal. destruct w; unfold set_writers; simpl. f_equal.
    symmetry. apply alter_id. reflexivity.
  - unfold bind, wp_Write at 1, modify. rewrite IH.
    f_equal. unfold set_writers; simpl. f_equal.
    apply map_eq. intros k.
    destruct (decide (wp = k)) as [<-|Hne].
    + rewrite !lookup_alter_eq. destruct (writers w !! wp); reflexivity.
    + now rewrite !lookup_alter_ne.
Qed.

Lemma records_fold_Write rows f :
  records (fold_left (fun f r => csv_Write r f) rows f) = records f ++ rows.
Proof.
  revert f. induction rows as [|r rows IH]; intros f; simpl.
  - now rewrite app_nil_r.
  - rewrite IH, records_Write. now rewrite <- app_assoc.
Qed.

Lemma writeRows_ok call w :
  create_ok env (csvName (fst call)) = true ->
  exists w',
    writeRows call w = Ok tt w'
    /\ table w' (fst call) = table (opened (fst call) w) (fst call) ++ snd call
    /\ is_Some (writers w' !! fst call)
    /\ forall c, c <> fst call -> writers w' !! c = writers w !! c.
Proof.
  intros Hc. unfold writeRows, bind.
  rewrite (getWriter_ok _ _ Hc), wp_Write_rows.
  eexists. split; [reflexivity|].
  destruct (opened_lookup (fst call) w) as [f Hf].
  split; [|split].
  - unfold table. simpl. rewrite lookup_alter_eq, Hf. simpl.
    apply records_fold_Write.
  - simpl. rewrite lookup_alter_eq, Hf. simpl. eauto.
  - intros c Hne. simpl. rewrite lookup_alter_ne by congruence.
    unfold opened. destruct (writers w !! fst call); [reflexivity|].
    simpl. apply lookup_insert_ne. congruence.
Qed.

Lemma sink_calls calls :
  Forall (fun call => create_ok env (csvName (fst call)) = true) calls ->
  forall w, exists w',
    for_range calls writeRows w = Ok tt w'
    /\ forall code,
         (In code (map fst calls) ->
            is_Some (writers w' !! code)
            /\ table w' code
               = table (opened code w) code ++ rows_for code calls)
         /\ (~ In code (map fst calls) ->
               writers w' !! code = writers w !! code).
Proof.
  induction 1 as [|call calls Hc _ IH]; intros w.
  - exists w. split; [reflexivity|]. intros code. split.
    + intros [].
    + reflexivity.
  - destruct (writeRows_ok call w Hc) as (w1 & Hrun & Ht & Hs & Ho).
    destruct (IH w1) as (w' & Hrest & Hcodes).
    exists w'. split.
    { simpl. unfold bind. now rewrite Hrun. }
    intros code. destruct (Hcodes code) as [Hin Hout].
    unfold rows_for. simpl flat_map. fold (rows_for code calls).
    destruct (String.eqb_spec (fst call) code) as [E|E].
    + subst code. split; [|intros Hn; exfalso; apply Hn; now left].
      intros _.
      destruct (in_dec string_dec (fst call) (map fst calls)) as [Hi|Hi].
      * destruct (Hin Hi) as [Hs' Ht']. split; [assumption|].
        rewrite Ht', (opened_id _ _ Hs), Ht. now rewrite app_assoc.
      * specialize (Hout Hi). split; [now rewrite Hout|].
        unfold table at 1. rewrite Hout. fold (table w1 (fst call)).
        rewrite Ht. f_equal.
        assert (Hnone : rows_for (fst call) calls = []).
        { clear -Hi. unfold rows_for.
          induction calls as [|c cs IHc]; simpl; [reflexivity|].
          destruct (String.eqb_spec (fst c) (fst call)) as [E|E].
          - exfalso. apply Hi. now left.
          - simpl. apply IHc. intros Hin. apply Hi. now right. }
        rewrite Hnone. now rewrite app_nil_r.
    + simpl app. split.
      * intros [Hh|Hi]; [congruence|].
        destruct (Hin Hi) as [Hs' Ht']. split; [assumption|].
        rewrite Ht'. f_equal. unfold table, opened.
        rewrite (Ho code) by congruence.
        destruct (writers w !! code) eqn:Ew.
        -- rewrite (Ho code) by congruence. now rewrite Ew.
        -- simpl. now rewrite !lookup_insert_eq.
      * intros Hn. rewrite Hout.
        -- apply Ho. congruence.
        -- intros Hi. apply Hn. now right.
Qed.

Lemma header_count_once rs :
  ~ In header rs -> header_count (header :: rs) = 1%nat.
Proof.
  intros Hn. unfold header_count. rewrite filter_cons_True by reflexivity.
  simpl. f_equal. induction rs as [|r rs IH]; [reflexivity|].
  rewrite filter_cons_False.
  - apply IH. intros Hin. apply Hn. now right.
  - intros E. apply Hn. now left.
Qed.

(** The rows of a kept item are never the header: their eighth cell starts
    with CPT. *)
Lemma rate_rows_not_header bc bct na rate :
  HasPrefix bct "CPT" = true -> ~ In header (rate_rows bc bct na rate).
Proof.
  intros Hp Hin. unfold rate_rows in Hin.
  apply in_flat_map in Hin as (pg & _ & Hin). unfold group_rows in Hin.
  apply in_flat_map in Hin as (p & _ & Hin).
  apply in_map_iff in Hin as (npi & E & _).
  unfold price_row, header in E. injection E as _ _ _ _ _ _ _ E _ _ _ _.
  subst bct. discriminate Hp.
Qed.

(** C6.  Whatever calls the sink receives, each taking the handle of a
    code with [getWriter] and writing zero or more rows through it, the
    table of every code that was asked for holds the header once, as its
    first record, followed by exactly the rows written for the code, in
    the order they were written; no header is written again for a code
    whose handle is in [writers], and no table exists for the other
    codes.  When none of the rows written is the header's own text (the
    rows of a kept item never are, [rate_rows_not_header]), the header
    is in the table exactly once. *)
Theorem header_exactly_once calls w :
  writers w = ∅ ->
  Forall (fun call => create_ok env (csvName (fst call)) = true) calls ->
  exists w',
    for_range calls writeRows w = Ok tt w'
    /\ forall code,
         (In code (map fst calls) ->
            is_Some (writers w' !! code)
            /\ table w' code = header :: rows_for code calls
            /\ (~ In header (rows_for code calls) ->
                  header_count (table w' code) = 1%nat))
         /\ (~ In code (map fst calls) -> writers w' !! code = None).
Proof.
  intros Hw Hc. destruct (sink_calls calls Hc w) as (w' & Hrun & Hcodes).
  exists w'. split; [assumption|]. intros code.
  destruct (Hcodes code) as [Hin Hout]. split.
  - intros Hi. destruct (Hin Hi) as [Hs Ht]. split; [assumption|].
    assert (E : table w' code = header :: rows_for code calls).
    { rewrite Ht. unfold table, opened. rewrite Hw, lookup_empty. simpl.
      rewrite lookup_insert_eq, records_newFile. reflexivity. }
    split; [exact E|].
    intros Hn. rewrite E. now apply header_count_once.
  - intros Hn. rewrite (Hout Hn), Hw. apply lookup_empty.
Qed.

(** *** The token skipper *)

Lemma json_ind' (P : json -> Prop) :
  P JNull -> (forall b, P (JBool b)) -> (forall n, P (JNum n)) ->
  (forall s, P (JStr s)) ->
  (forall l, Forall P l -> P (JArr l)) ->
  (forall l, Forall (fun kv => P (snd kv)) l -> P (JObj l)) ->
  forall v, P v.
Proof.
  intros Hnull Hbool Hnum Hstr Harr Hobj.
  fix IH 1. intros [| b | n | s | l | l].
  - exact Hnull.
  - apply Hbool.
  - apply Hnum.
  - apply Hstr.
  - apply Harr. induction l as [|x l IHl]; constructor; [apply IH | exact IHl].
  - apply Hobj. induction l as [|[k x] l IHl]; constructor;
      [apply IH | exact IHl].
Qed.

Lemma tokens_JArr l :
  tokens (JArr l) = Delim "[" :: elems_tokens l ++ [Delim "]"].
Proof.
  simpl. do 2 f_equal. unfold elems_tokens.
  induction l as [|x l IH]; simpl; [reflexivity | now rewrite IH].
Qed.

Lemma tokens_JObj l :
  tokens (JObj l) = Delim "{" :: members_tokens l ++ [Delim "}"].
Proof.
  simpl. do 2 f_equal. unfold members_tokens.
  induction l as [|[k x] l IH]; simpl; [reflexivity | now rewrite IH].
Qed.

Lemma nesting_JArr l : nesting (JArr l) = 1 + max_nesting l.
Proof.
  unfold max_nesting. induction l as [|x l IH]; [reflexivity|].
  cbn [nesting fold_right] in *. lia.
Qed.

Lemma nesting_JObj l : nesting (JObj l) = 1 + max_nesting (map snd l).
Proof.
  unfold max_nesting. induction l as [|[k x] l IH]; [reflexivity|].
  cbn [nesting fold_right map snd] in *. lia.
Qed.


Lemma skip_loop_step d tok ts :
  0 < d ->
  skip_loop d (tok :: ts)
  = (d :: fst (skip_loop (depth_after d tok) ts),
     snd (skip_loop (depth_after d tok) ts)).
Proof.
  intros H. simpl. apply Z.ltb_lt in H. rewrite H.
  destruct (skip_loop (depth_after d tok) ts). reflexivity.
Qed.

Lemma skip_loop_done ts : skip_loop 0 ts = ([0], Some ts).
Proof. destruct ts; reflexivity. Qed.

Lemma passes_nil d : passes d [] [].
Proof.
  split; [reflexivity|]. split; [constructor|].
  intros rest. simpl. now destruct (skip_loop d rest).
Qed.

Lemma passes_app d ts1 ts2 s1 s2 :
  passes d ts1 s1 -> passes d ts2 s2 -> passes d (ts1 ++ ts2) (s1 ++ s2).
Proof.
  intros (L1 & F1 & H1) (L2 & F2 & H2). split; [|split].
  - rewrite !length_app. lia.
  - apply Forall_app. split; assumption.
  - intros rest. rewrite <- app_assoc, H1, H2. simpl.
    now rewrite <- app_assoc.
Qed.

Lemma passes_one d tok :
  0 < d -> depth_after d tok = d -> passes d [tok] [d].
Proof.
  intros Hd Ht. split; [reflexivity|]. split; [repeat constructor; lia|].
  intros rest. change ([tok] ++ rest) with (tok :: rest).
  rewrite skip_loop_step by assumption.
  now rewrite Ht.
Qed.

Lemma passes_nested d c1 c2 ts seen :
  0 < d -> d + 1 <= maxInt64 ->
  isOpen c1 = true -> isOpen c2 = false -> isClose c2 = true ->
  passes (d + 1) ts seen ->
  passes d (Delim c1 :: ts ++ [Delim c2]) (d :: seen ++ [d + 1]).
Proof.
  intros Hd Hmax Ho1 Ho2 Hc2 (L & F & H). split; [|split].
  - simpl. rewrite !length_app. simpl. lia.
  - constructor; [lia|]. apply Forall_app. split; [assumption|].
    repeat constructor. lia.
  - intros rest.
    change ((Delim c1 :: ts ++ [Delim c2]) ++ rest)
      with (Delim c1 :: ((ts ++ [Delim c2]) ++ rest)).
    rewrite skip_loop_step by assumption.
    assert (Hup : depth_after d (Delim c1) = d + 1).
    { unfold depth_after. rewrite Ho1. unfold incr64.
      apply wrap64_small. unfold maxInt64 in *. lia. }
    assert (Hdown : depth_after (d + 1) (Delim c2) = d).
    { unfold depth_after. rewrite Ho2, Hc2. unfold decr64.
      replace (d + 1 - 1) with d by lia.
      apply wrap64_small. unfold maxInt64 in *. lia. }
    rewrite Hup, <- app_assoc, H.
    change ([Delim c2] ++ rest) with (Delim c2 :: rest).
    rewrite skip_loop_step by lia. rewrite Hdown. cbn [fst snd app].
    rewrite <- app_assoc. reflexivity.
Qed.

Lemma max_nesting_nonneg l : 0 <= max_nesting l.
Proof. unfold max_nesting. induction l; simpl; lia. Qed.

Lemma passes_elems l :
  Forall skippable l ->
  forall d, 0 < d -> d + max_nesting l <= maxInt64 ->
  exists seen, passes d (elems_tokens l) seen.
Proof.
  unfold elems_tokens, max_nesting.
  induction 1 as [|x l Hx _ IH]; intros d Hd Hn; simpl in *.
  - exists []. apply passes_nil.
  - pose proof (max_nesting_nonneg l) as Hl. unfold max_nesting in Hl.
    destruct (Hx d) as [s1 H1]; [lia | lia |].
    destruct (IH d) as [s2 H2]; [lia | lia |].
    exists (s1 ++ s2). now apply passes_app.
Qed.

Lemma passes_members l :
  Forall (fun kv => skippable (snd kv)) l ->
  forall d, 0 < d -> d + max_nesting (map snd l) <= maxInt64 ->
  exists seen, passes d (members_tokens l) seen.
Proof.
  unfold members_tokens, max_nesting.
  induction 1 as [|[k x] l Hx _ IH]; intros d Hd Hn; simpl in *.
  - exists []. apply passes_nil.
  - pose proof (max_nesting_nonneg (map snd l)) as Hl.
    unfold max_nesting in Hl.
    destruct (Hx d) as [s1 H1]; [lia | lia |].
    destruct (IH d) as [s2 H2]; [lia | lia |].
    exists ([d] ++ (s1 ++ s2)).
    change (TStr k :: tokens x ++ concat
              (map (fun kv => TStr (fst kv) :: tokens (snd kv)) l))
      with ([TStr k] ++ (tokens x ++ concat
              (map (fun kv => TStr (fst kv) :: tokens (snd kv)) l))).
    apply passes_app; [|now apply passes_app].
    apply passes_one; [lia | reflexivity].
Qed.

Lemma passes_value v : skippable v.
Proof.
  induction v as [| b | n | s | l IH | l IH] using json_ind'; intros d Hd Hn;
    try (exists [d]; apply passes_one; [assumption | reflexivity]).
  - rewrite nesting_JArr in Hn. rewrite tokens_JArr.
    pose proof (max_nesting_nonneg l).
    destruct (passes_elems l IH (d + 1)) as [seen He]; [lia | lia |].
    exists (d :: seen ++ [d + 1]).
    apply passes_nested; try reflexivity; try assumption. lia.
  - rewrite nesting_JObj in Hn. rewrite tokens_JObj.
    pose proof (max_nesting_nonneg (map snd l)).
    destruct (passes_members l IH (d + 1)) as [seen He]; [lia | lia |].
    exists (d :: seen ++ [d + 1]).
    apply passes_nested; try reflexivity; try assumption. lia.
Qed.

(** The loop of [skipValue], entered at depth 1 after an opening
    delimiter, on tokens it passes followed by the closing one. *)
Lemma skip_loop_closes ts c2 seen rest :
  isOpen c2 = false -> isClose c2 = true ->
  passes 1 ts seen ->
  skip_loop 1 (ts ++ Delim c2 :: rest) = (seen ++ [1; 0], Some rest).
Proof.
  intros Ho2 Hc2 (L & F & H).
  rewrite H, skip_loop_step by lia.
  assert (Hdown : depth_after 1 (Delim c2) = 0).
  { unfold depth_after. now rewrite Ho2, Hc2. }
  rewrite Hdown, skip_loop_done. reflexivity.
Qed.

(** What [skipValue] does on the tokens of a value followed by [rest]. *)
Lemma skipValue_depths_value v rest w :
  dec w = tokens v ++ rest -> nesting v <= maxInt64 ->
  exists seen,
    skipValue_depths w = Ok seen (set_dec (fun _ => rest) w)
    /\ if primitive v then seen = []
       else exists pos,
              seen = pos ++ [0]
              /\ Forall (fun d => 0 < d) pos
              /\ length seen = length (tokens v).
Proof.
  intros Hdec Hn. unfold skipValue_depths, bind, dec_Token.
  assert (Hall : forall l, Forall skippable l).
  { intros l. apply List.Forall_forall. intros; apply passes_value. }
  assert (Hall' : forall l : list (string * json),
            Forall (fun kv => skippable (snd kv)) l).
  { intros l. apply List.Forall_forall. intros; apply passes_value. }
  destruct v as [| b | n | s | l | l];
    try (rewrite Hdec; simpl; exists []; split; reflexivity).
  - rewrite tokens_JArr in Hdec. simpl in Hdec. rewrite <- app_assoc in Hdec.
    rewrite nesting_JArr in Hn.
    destruct (passes_elems l (Hall l) 1) as [seen Hp]; [lia | lia |].
    exists (seen ++ [1; 0]). rewrite Hdec. cbv beta iota.
    change (dec (set_dec _ w)) with (elems_tokens l ++ Delim "]"%char :: rest).
    rewrite (skip_loop_closes _ "]"%char seen rest eq_refl eq_refl Hp).
    split; [reflexivity|]. simpl primitive. cbv iota.
    exists (seen ++ [1]). destruct Hp as (L & F & _).
    split; [now rewrite <- app_assoc|]. split.
    + apply Forall_app. split; [assumption | repeat constructor; lia].
    + rewrite tokens_JArr. simpl. rewrite !length_app. simpl. lia.
  - rewrite tokens_JObj in Hdec. simpl in Hdec. rewrite <- app_assoc in Hdec.
    rewrite nesting_JObj in Hn.
    destruct (passes_members l (Hall' l) 1) as [seen Hp]; [lia | lia |].
    exists (seen ++ [1; 0]). rewrite Hdec. cbv beta iota.
    change (dec (set_dec _ w))
      with (members_tokens l ++ Delim "}"%char :: rest).
    rewrite (skip_loop_closes _ "}"%char seen rest eq_refl eq_refl Hp).
    split; [reflexivity|]. simpl primitive. cbv iota.
    exists (seen ++ [1]). destruct Hp as (L & F & _).
    split; [now rewrite <- app_assoc|]. split.
    + apply Forall_app. split; [assumption | repeat constructor; lia].
    + rewrite tokens_JObj. simpl. rewrite !length_app. simpl. lia.
Qed.

Lemma skipValue_value v rest w :
  dec w = tokens v ++ rest -> nesting v <= maxInt64 ->
  skipValue w = Ok tt (set_dec (fun _ => rest) w).
Proof.
  intros Hdec Hn.
  destruct (skipValue_depths_value v rest w Hdec Hn) as (seen & Hrun & _).
  unfold skipValue, bind. now rewrite Hrun.
Qed.

(** C4.  On the tokens of a syntactically valid JSON value followed by
    [rest], [skipValue] reads the tokens of the value and no other: it
    leaves the decoder at [rest], the next sibling.  For a primitive it
    reads one token and does not enter its loop; for an object or an array
    the depths its loop test sees are positive until the last one, which
    is zero, and there is one per token of the value.  (The depth is an
    [int]: values nested deeper than the largest [int] are left out.) *)
Theorem skipValue_consumes_value v rest w :
  dec w = tokens v ++ rest -> nesting v <= maxInt64 ->
  skipValue w = Ok tt (set_dec (fun _ => rest) w)
  /\ exists seen,
       skipValue_depths w = Ok seen (set_dec (fun _ => rest) w)
       /\ if primitive v then seen = [] /\ length (tokens v) = 1%nat
          else exists pos,
                 seen = pos ++ [0]
                 /\ Forall (fun d => 0 < d) pos
                 /\ length seen = length (tokens v).
Proof.
  intros Hdec Hn.
  destruct (skipValue_depths_value v rest w Hdec Hn) as (seen & Hrun & Hseen).
  split.
  - exact (skipValue_value v rest w Hdec Hn).
  - exists seen. split; [assumption|].
    destruct v; simpl in *; try (split; [assumption | reflexivity]);
      assumption.
Qed.

(** *** Statements that leave the decoder alone *)

Lemma dec_free_ret {A} (a : A) : dec_free (ret a).
Proof. intros w d. reflexivity. Qed.


Lemma dec_free_bind {A B} (m : Go A) (k : A -> Go B) :
  dec_free m -> (forall a, dec_free (k a)) -> dec_free (bind m k).
Proof.
  intros Hm Hk w d. unfold bind. rewrite Hm.
  destruct (m w) as [a w'|e w'|]; simpl; [apply Hk | reflexivity..].
Qed.

Lemma dec_free_for_range {A} (l : list A) (body : A -> Go unit) :
  (forall x, dec_free (body x)) -> dec_free (for_range l body).
Proof.
  intros H. induction l as [|x l IH]; simpl.
  - apply dec_free_ret.
  - apply dec_free_bind; [apply H | intros _; exact IH].
Qed.

Lemma dec_free_modify (f : world -> world) :
  (forall w d, f (set_dec (fun _ => d) w) = set_dec (fun _ => d) (f w)) ->
  dec_free (modify f).
Proof. intros H w d. unfold modify. simpl. now rewrite H. Qed.

Lemma dec_free_gets {A} (f : world -> A) :
  (forall w d, f (set_dec (fun _ => d) w) = f w) -> dec_free (gets f).
Proof. intros H w d. unfold gets. simpl. now rewrite H. Qed.

Lemma dec_free_getWriter code : dec_free (getWriter code).
Proof.
  intros w d. unfold getWriter. simpl.
  destruct (writers w !! code); [reflexivity|].
  destruct (create_ok env (csvName code)); reflexivity.
Qed.

Lemma dec_free_emit_row wp0 bc row : dec_free (emit_row wp0 bc row).
Proof.
  unfold emit_row.
  apply dec_free_bind.
  { destruct rev; [apply dec_free_getWriter | apply dec_free_ret]. }
  intros wp. apply dec_free_bind; [now apply dec_free_modify|].
  intros _. apply dec_free_bind; [now apply dec_free_modify|].
  intros _. apply dec_free_bind; [now apply dec_free_gets|].
  intros rows. destruct ((0 <? progressEvery) && _).
  - apply dec_free_bind; [now apply dec_free_gets|].
    intros kept. now apply dec_free_modify.
  - apply dec_free_ret.
Qed.

Lemma dec_free_process_rate bc bct na rate :
  dec_free (process_rate bc bct na rate).
Proof.
  unfold process_rate. apply dec_free_bind.
  { destruct (0 <? length (ProviderReferences rate))%nat;
      [|apply dec_free_ret].
    apply dec_free_bind; [now apply dec_free_modify|].
    intros _. apply dec_free_for_range. intros _.
    apply dec_free_bind; [now apply dec_free_modify|].
    intros _. now apply dec_free_modify. }
  intros _. destruct (_ || _); [apply dec_free_ret|].
  apply dec_free_bind.
  { destruct rev; [apply dec_free_ret | apply dec_free_getWriter]. }
  intros wp0. apply dec_free_for_range. intros pg.
  unfold process_group. destruct (TIN pg);
    (destruct (length _ =? 0)%nat; [apply dec_free_ret|];
     apply dec_free_for_range; intros p; unfold process_price;
     apply dec_free_for_range; intros npi; apply dec_free_emit_row).
Qed.

Lemma dec_free_process_item it : dec_free (process_item it).
Proof.
  unfold process_item.
  apply dec_free_bind; [now apply dec_free_modify|].
  intros _. cbv zeta.
  destruct (negb (HasPrefix _ "CPT")); [apply dec_free_ret|].
  destruct (String.eqb _ ""); [apply dec_free_ret|].
  destruct (negb (bool_decide _)); [apply dec_free_ret|].
  apply dec_free_bind; [now apply dec_free_modify|].
  intros _. apply dec_free_for_range. intros rate.
  apply dec_free_process_rate.
Qed.

(** *** The decoder on the tokens of values *)

Lemma scan_value_value v :
  forall depth tl,
    scan_value depth (tokens v ++ tl)
    = match depth with
      | O => Some (tokens v, tl)
      | S _ => prepend (tokens v) (scan_value depth tl)
      end.
Proof.
  assert (Hprim : forall t depth tl,
    match t with Delim _ => False | _ => True end ->
    scan_value depth ([t] ++ tl)
    = match depth with
      | O => Some ([t], tl)
      | S _ => prepend [t] (scan_value depth tl)
      end).
  { intros t depth tl Ht. destruct t; try contradiction;
      destruct depth; simpl; try reflexivity;
      destruct (scan_value (S depth) tl) as [[x r]|]; reflexivity. }
  assert (Hseq : forall (tss : list (list Token)),
    Forall (fun ts => forall depth tl,
              scan_value (S depth) (ts ++ tl)
              = prepend ts (scan_value (S depth) tl)) tss ->
    forall depth tl,
      scan_value (S depth) (concat tss ++ tl)
      = prepend (concat tss) (scan_value (S depth) tl)).
  { induction 1 as [|ts tss Hts _ IH]; intros depth tl; simpl concat.
    - simpl. destruct (scan_value (S depth) tl) as [[x r]|]; reflexivity.
    - rewrite <- app_assoc, Hts, IH.
      destruct (scan_value (S depth) tl) as [[x r]|]; simpl;
        [now rewrite app_assoc | reflexivity]. }
  assert (Hnest : forall c1 c2 ts,
    isOpen c1 = true -> isOpen c2 = false ->
    (forall depth tl,
       scan_value (S depth) (ts ++ tl)
       = prepend ts (scan_value (S depth) tl)) ->
    forall depth tl,
      scan_value depth ((Delim c1 :: ts ++ [Delim c2]) ++ tl)
      = match depth with
        | O => Some (Delim c1 :: ts ++ [Delim c2], tl)
        | S _ => prepend (Delim c1 :: ts ++ [Delim c2])
                   (scan_value depth tl)
        end).
  { intros c1 c2 ts Ho1 Ho2 Hts depth tl.
    change ((Delim c1 :: ts ++ [Delim c2]) ++ tl)
      with (Delim c1 :: ((ts ++ [Delim c2]) ++ tl)).
    rewrite <- app_assoc.
    cbn [scan_value]. rewrite Ho1, Hts.
    change ([Delim c2] ++ tl) with (Delim c2 :: tl).
    cbn [scan_value]. rewrite Ho2.
    destruct depth as [|depth]; cbn [prepend]; [reflexivity|].
    destruct (scan_value (S depth) tl) as [[x r]|]; cbn [prepend];
      [|reflexivity].
    do 2 f_equal. simpl. now rewrite <- app_assoc. }
  induction v as [| b | n | s | l IH | l IH] using json_ind';
    try (intros depth tl; cbn [tokens]; apply Hprim; exact I).
  - intros depth tl. rewrite tokens_JArr.
    apply Hnest; try reflexivity.
    unfold elems_tokens. apply Hseq.
    apply List.Forall_forall. intros ts Hin.
    apply in_map_iff in Hin as (x & <- & Hx).
    rewrite List.Forall_forall in IH. intros depth' tl'.
    apply (IH x Hx (S depth') tl').
  - intros depth tl. rewrite tokens_JObj.
    apply Hnest; try reflexivity.
    unfold members_tokens. apply Hseq.
    apply List.Forall_forall. intros ts Hin.
    apply in_map_iff in Hin as ([k x] & <- & Hx).
    rewrite List.Forall_forall in IH. intros depth' tl'. simpl fst. simpl snd.
    change (TStr k :: tokens x) with ([TStr k] ++ tokens x).
    rewrite <- app_assoc, (Hprim (TStr k) (S depth') _ I).
    pose proof (IH (k, x) Hx (S depth') tl') as Hx'. cbn [snd] in Hx'.
    rewrite Hx'.
    destruct (scan_value (S depth') tl') as [[y r]|]; reflexivity.
Qed.

Lemma readValue_value v tl : readValue (tokens v ++ tl) = Some (tokens v, tl).
Proof. unfold readValue. apply scan_value_value. Qed.

Lemma More_value v tl w :
  dec_More (set_dec (fun _ => tokens v ++ tl) w)
  = Ok true (set_dec (fun _ => tokens v ++ tl) w).
Proof.
  unfold dec_More, gets. f_equal.
  destruct v; try reflexivity.
Qed.

(** *** The loops of [main] *)

Lemma total_ret {A} (a : A) : total (ret a).
Proof. intros w. discriminate. Qed.

Lemma total_bind {A B} (m : Go A) (k : A -> Go B) :
  total m -> (forall a, total (k a)) -> total (bind m k).
Proof.
  intros Hm Hk w. unfold bind. specialize (Hm w).
  destruct (m w) as [a w'|e w'|]; [apply Hk | discriminate | congruence].
Qed.

Lemma total_for_range {A} (l : list A) (body : A -> Go unit) :
  (forall x, total (body x)) -> total (for_range l body).
Proof.
  intros H. induction l as [|x l IH]; simpl.
  - apply total_ret.
  - apply total_bind; [apply H | intros _; exact IH].
Qed.

Lemma total_modify f : total (modify f).
Proof. intros w. discriminate. Qed.

Lemma total_gets {A} (f : world -> A) : total (gets f).
Proof. intros w. discriminate. Qed.

Lemma total_getWriter code : total (getWriter code).
Proof.
  intros w. unfold getWriter. destruct (writers w !! code); [discriminate|].
  destruct (create_ok env (csvName code)); discriminate.
Qed.

Lemma total_process_rate bc bct na rate : total (process_rate bc bct na rate).
Proof.
  unfold process_rate. apply total_bind.
  { destruct (0 <? length (ProviderReferences rate))%nat;
      [|apply total_ret].
    apply total_bind; [apply total_modify|].
    intros _. apply total_for_range. intros _.
    apply total_bind; [apply total_modify|].
    intros _. apply total_modify. }
  intros _. destruct (_ || _); [apply total_ret|].
  apply total_bind.
  { destruct rev; [apply total_ret | apply total_getWriter]. }
  intros wp0. apply total_for_range. intros pg.
  unfold process_group. destruct (TIN pg);
    (destruct (length _ =? 0)%nat; [apply total_ret|];
     apply total_for_range; intros p; unfold process_price;
     apply total_for_range; intros npi; unfold emit_row;
     apply total_bind;
     [ destruct rev; [apply total_getWriter | apply total_ret] |];
     intros wp; apply total_bind; [apply total_modify|];
     intros _; apply total_bind; [apply total_modify|];
     intros _; apply total_bind; [apply total_gets|];
     intros rows; destruct ((0 <? progressEvery) && _);
     [ apply total_bind; [apply total_gets|]; intros; apply total_modify
     | apply total_ret ]).
Qed.

Lemma total_process_item it : total (process_item it).
Proof.
  unfold process_item.
  apply total_bind; [apply total_modify|].
  intros _. cbv zeta.
  destruct (negb (HasPrefix _ "CPT")); [apply total_ret|].
  destruct (String.eqb _ ""); [apply total_ret|].
  destruct (negb (bool_decide _)); [apply total_ret|].
  apply total_bind; [apply total_modify|].
  intros _. apply total_for_range. intros rate.
  apply total_process_rate.
Qed.


Lemma items_outcome_Ok items w w' rem :
  items_outcome items w = (rem, Ok tt w') -> rem = [].
Proof.
  revert w. induction items as [|v vs IH]; intros w; simpl.
  - congruence.
  - destruct (unmarshal_Item env (tokens v)) as [it|]; [|congruence].
    destruct (process_item it w) as [[] w1|e w1|]; [apply IH|congruence..].
Qed.

Lemma elems_tokens_cons v vs tl :
  elems_tokens (v :: vs) ++ tl = tokens v ++ (elems_tokens vs ++ tl).
Proof. unfold elems_tokens. simpl. now rewrite <- app_assoc. Qed.

Lemma members_tokens_cons k v l tl :
  members_tokens ((k, v) :: l) ++ tl
  = TStr k :: tokens v ++ (members_tokens l ++ tl).
Proof. unfold members_tokens. simpl. now rewrite <- app_assoc. Qed.

Lemma process_items_outcome items :
  forall fuel tl w,
    (length items < fuel)%nat ->
    process_items fuel
      (set_dec (fun _ => elems_tokens items ++ Delim "]" :: tl) w)
    = on_world
        (set_dec (fun _ =>
           elems_tokens (fst (items_outcome items w)) ++ Delim "]" :: tl))
        (snd (items_outcome items w)).
Proof.
  induction items as [|v vs IH]; intros fuel tl w Hf;
    (destruct fuel as [|fuel]; [simpl in Hf; lia|]).
  - reflexivity.
  - simpl in Hf. rewrite elems_tokens_cons.
    cbn [process_items]. unfold bind at 1. rewrite More_value.
    cbn [negb]. unfold bind at 1. unfold dec_Decode.
    change (dec (set_dec _ w))
      with (tokens v ++ (elems_tokens vs ++ Delim "]" :: tl)).
    rewrite readValue_value. cbn [items_outcome].
    destruct (unmarshal_Item env (tokens v)) as [it|]; [|reflexivity].
    unfold bind.
    change (set_dec (fun _ => elems_tokens vs ++ Delim "]" :: tl)
              (set_dec (fun _ => tokens v ++ elems_tokens vs
                                   ++ Delim "]" :: tl) w))
      with (set_dec (fun _ => elems_tokens vs ++ Delim "]" :: tl) w).
    rewrite dec_free_process_item.
    destruct (process_item it w) as [[] w'|e w'|]; simpl on_world;
      [|reflexivity..].
    apply IH. lia.
Qed.

Lemma find_in_network_skips pre :
  Forall (fun kv => fst kv <> "in_network"
                    /\ nesting (snd kv) <= maxInt64) pre ->
  forall fuel tl w,
    (length pre < fuel)%nat ->
    find_in_network fuel
      (set_dec (fun _ =>
         members_tokens pre ++ TStr "in_network" :: Delim "[" :: tl) w)
    = Ok true (set_dec (fun _ => tl) w).
Proof.
  induction 1 as [|[k v] pre [Hk Hv] _ IH]; intros fuel tl w Hf;
    (destruct fuel as [|fuel]; [simpl in Hf; lia|]).
  - reflexivity.
  - simpl in Hf. rewrite members_tokens_cons.
    cbn [find_in_network]. unfold bind at 1.
    unfold dec_More at 1, gets at 1. cbn [dec set_dec negb].
    unfold bind at 1. unfold expectString at 1, bind at 1, dec_Token at 1.
    cbn [dec set_dec]. unfold ret at 1.
    simpl in Hk. apply String.eqb_neq in Hk. rewrite Hk.
    unfold bind at 1.
    pose proof (skipValue_value v
                  (members_tokens pre
                     ++ TStr "in_network" :: Delim "[" :: tl)
                  (set_dec (fun _ => tokens v ++ members_tokens pre
                     ++ TStr "in_network" :: Delim "[" :: tl) w)
                  eq_refl Hv) as Hskip.
    match goal with
    | |- context [skipValue ?w1] =>
        change (skipValue w1) with
          (skipValue (set_dec (fun _ => tokens v ++ members_tokens pre
                        ++ TStr "in_network" :: Delim "[" :: tl) w))
    end.
    rewrite Hskip.
    apply (IH fuel tl w). lia.
Qed.

Lemma length_members_tokens pre :
  (length pre <= length (members_tokens pre))%nat.
Proof.
  unfold members_tokens. induction pre as [|[k v] pre IH]; simpl.
  - lia.
  - rewrite length_app. lia.
Qed.

Lemma length_elems_tokens items :
  (length items <= length (elems_tokens items))%nat.
Proof.
  unfold elems_tokens. induction items as [|v vs IH]; simpl.
  - lia.
  - rewrite length_app.
    assert (1 <= length (tokens v))%nat; [|lia].
    destruct v; simpl; lia.
Qed.

Lemma root_prefix_app pre items tl :
  root_prefix pre items ++ tl
  = Delim "{" :: members_tokens pre
      ++ TStr "in_network" :: Delim "[" :: elems_tokens items
      ++ Delim "]" :: tl.
Proof.
  unfold root_prefix. simpl. f_equal.
  rewrite <- app_assoc. simpl. do 3 f_equal.
  now rewrite <- app_assoc.
Qed.

Lemma read_document_outcome pre items tl w :
  Forall (fun kv => fst kv <> "in_network"
                    /\ nesting (snd kv) <= maxInt64) pre ->
  read_document (set_dec (fun _ => root_prefix pre items ++ tl) w)
  = document_outcome items tl w.
Proof.
  intros Hpre. rewrite root_prefix_app.
  unfold read_document.
  unfold bind at 1. unfold expectDelim at 1, bind at 1, dec_Token at 1.
  cbn [dec set_dec Ascii.eqb Bool.eqb]. unfold ret at 1.
  unfold bind at 1. unfold gets at 1. cbn [dec set_dec].
  unfold bind at 1.
  match goal with
  | |- context [set_dec (fun _ => ?X) (set_dec ?f w)] =>
      change (set_dec (fun _ => X) (set_dec f w))
        with (set_dec (fun _ => X) w)
  end.
  rewrite (find_in_network_skips pre Hpre).
  2:{ rewrite length_app. pose proof (length_members_tokens pre). lia. }
  cbn [negb]. unfold bind at 1. unfold gets at 1. cbn [dec set_dec].
  unfold bind at 1.
  rewrite process_items_outcome.
  2:{ rewrite length_app. pose proof (length_elems_tokens items). lia. }
  unfold document_outcome.
  destruct (items_outcome items w) as [rem [[] w'|e w'|]] eqn:E;
    cbn [fst snd on_world]; try reflexivity.
  apply items_outcome_Ok in E. subst rem.
  unfold finish. destruct rev; reflexivity.
Qed.

(** *** Every run ends *)

Lemma skip_loop_length d ts seen rest :
  skip_loop d ts = (seen, Some rest) -> (length rest <= length ts)%nat.
Proof.
  revert d seen. induction ts as [|t ts IH]; intros d seen; simpl.
  - destruct (0 <? d); intros [= _ <-]; auto.
  - destruct (0 <? d).
    + destruct (skip_loop (depth_after d t) ts) as [s r] eqn:E.
      intros [= _ ->]. apply IH in E. lia.
    + intros [= _ <-]. auto.
Qed.

Lemma skipValue_reads w w' :
  skipValue w = Ok tt w' -> (length (dec w') < length (dec w))%nat.
Proof.
  unfold skipValue, skipValue_depths, bind, dec_Token, panic, ret.
  destruct (dec w) as [|t ts] eqn:E; [discriminate|].
  destruct t; try (intros [= <-]; simpl; lia).
  cbn [dec set_dec].
  destruct (skip_loop 1 ts) as [seen [rest|]] eqn:El; [|discriminate].
  intros [= <-]. apply skip_loop_length in El. simpl. lia.
Qed.

Lemma scan_value_length ts :
  forall depth v rest,
    scan_value depth ts = Some (v, rest) -> (length rest < length ts)%nat.
Proof.
  induction ts as [|t ts IH]; intros depth v rest; [discriminate|].
  assert (Hc : forall d,
    match d with
    | O => Some ([t], ts)
    | S _ => match scan_value d ts with
             | Some (v, rest) => Some (t :: v, rest)
             | None => None
             end
    end = Some (v, rest) -> (length rest < length (t :: ts))%nat).
  { intros [|d].
    - intros [= _ <-]. simpl. lia.
    - destruct (scan_value (S d) ts) as [[v' rest']|] eqn:E; [|discriminate].
      intros [= _ <-]. apply IH in E. simpl. lia. }
  cbn [scan_value]. destruct t; try apply (Hc depth).
  destruct (isOpen c); [apply (Hc (S depth))|].
  destruct depth as [|d]; [discriminate | apply (Hc d)].
Qed.

Lemma set_dec_id w : set_dec (fun _ => dec w) w = w.
Proof. destruct w; reflexivity. Qed.

Lemma process_item_dec it w :
  match process_item it w with
  | Ok _ w' | Panic _ w' => dec w' = dec w
  | OutOfFuel => False
  end.
Proof.
  pose proof (dec_free_process_item it w (dec w)) as H.
  pose proof (total_process_item it w) as Ht.
  rewrite set_dec_id in H.
  destruct (process_item it w) as [[] w'|e w'|]; [| |congruence];
    simpl in H; injection H as H; rewrite H; reflexivity.
Qed.

Lemma total_expectDelim c : total (expectDelim c).
Proof.
  intros w. unfold expectDelim, bind, dec_Token, panic, ret.
  destruct (dec w) as [|[d| | | |] ts]; try discriminate.
  destruct (Ascii.eqb d c); discriminate.
Qed.

Lemma total_skipValue : total skipValue.
Proof.
  intros w. unfold skipValue, skipValue_depths, bind, dec_Token, panic, ret.
  destruct (dec w) as [|[d| | | |] ts]; cbn; try discriminate.
  destruct (skip_loop 1 ts) as [seen [rest|]]; cbn; discriminate.
Qed.

Lemma find_in_network_total fuel :
  forall w, (length (dec w) < fuel)%nat -> find_in_network fuel w <> OutOfFuel.
Proof.
  induction fuel as [|fuel IH]; intros w Hf; [lia|].
  cbn [find_in_network]. unfold bind at 1. unfold dec_More at 1, gets at 1.
  assert (Hkey : (k <- expectString ;;
                  if String.eqb k "in_network" then
                    expectDelim "[" ;; ret true
                  else skipValue ;; find_in_network fuel)%go w <> OutOfFuel).
  { unfold bind at 1. unfold expectString, bind at 1, dec_Token, panic, ret.
    destruct (dec w) as [|t ts] eqn:E; [discriminate|].
    destruct t; try discriminate.
    destruct (String.eqb s "in_network").
    - unfold bind. pose proof (total_expectDelim "["%char
                                 (set_dec (fun _ => ts) w)) as Hd.
      destruct (expectDelim "[" _); cbn; unfold ret; congruence.
    - unfold bind.
      destruct (skipValue (set_dec (fun _ => ts) w)) as [[] w'|e w'|] eqn:Es;
        [|discriminate|].
      + apply IH. apply skipValue_reads in Es. simpl in *. lia.
      + exfalso. exact (total_skipValue _ Es). }
  destruct (dec w) as [|t ts] eqn:E.
  { destruct (More_at_end env); [exact Hkey | discriminate]. }
  destruct t; try exact Hkey.
  destruct (isClose c); [discriminate | exact Hkey].
Qed.

Lemma process_items_total fuel :
  forall w, (length (dec w) < fuel)%nat -> process_items fuel w <> OutOfFuel.
Proof.
  induction fuel as [|fuel IH]; intros w Hf; [lia|].
  cbn [process_items]. unfold bind at 1. unfold dec_More at 1, gets at 1.
  assert (Hitem : (it <- dec_Decode ;;
                   match it with
                   | None => panic ErrDecode
                   | Some it => process_item it ;; process_items fuel
                   end)%go w <> OutOfFuel).
  { unfold bind at 1. unfold dec_Decode, readValue.
    destruct (scan_value 0 (dec w)) as [[v rest]|] eqn:Es; [|discriminate].
    destruct (unmarshal_Item env v) as [it|]; [|discriminate].
    unfold bind.
    pose proof (process_item_dec it (set_dec (fun _ => rest) w)) as Hd.
    destruct (process_item it (set_dec (fun _ => rest) w)) as [[] w'|e w'|];
      [|discriminate|contradiction].
    apply IH. rewrite Hd. apply scan_value_length in Es. simpl. lia. }
  destruct (dec w) as [|t ts] eqn:E.
  { destruct (More_at_end env); [exact Hitem | discriminate]. }
  destruct t; try exact Hitem.
  destruct (isClose c); [discriminate | exact Hitem].
Qed.

(** [main] ends on every input, by returning or by a panic: the bound on
    the two loops over the decoder is never reached. *)
Lemma run_total ts : run ts <> OutOfFuel.
Proof.
  unfold run, main. destruct (mkdir_ok env); [|discriminate].
  destruct (create_ok env unresName); [|discriminate].
  cbn [negb]. unfold bind at 1, modify at 1, defer.
  match goal with |- context [read_document ?w0] => set (w := w0) end.
  assert (H : read_document w <> OutOfFuel);
    [|destruct (read_document w); [discriminate..|congruence]].
  clearbody w. unfold read_document. unfold bind at 1.
  destruct (expectDelim "{" w) as [[] w1|e w1|] eqn:E1;
    [|discriminate|exact (False_ind _ (total_expectDelim _ _ E1))].
  unfold bind at 1, gets at 1. unfold bind at 1.
  pose proof (find_in_network_total (S (length (dec w1))) w1) as Hf.
  destruct (find_in_network (S (length (dec w1))) w1) as [found w2|e w2|];
    [|discriminate|exfalso; apply Hf; [lia | reflexivity]].
  destruct found; [|discriminate]. cbn [negb].
  unfold bind at 1, gets at 1. unfold bind at 1.
  pose proof (process_items_total (S (length (dec w2))) w2) as Hp.
  destruct (process_items (S (length (dec w2))) w2) as [[] w3|e w3|];
    [|discriminate|exfalso; apply Hp; [lia | reflexivity]].
  unfold bind at 1.
  destruct (expectDelim "]" w3) as [[] w4|e w4|] eqn:E4;
    [|discriminate|exact (False_ind _ (total_expectDelim _ _ E4))].
  unfold bind, modify, print_summary, ret. destruct rev; discriminate.
Qed.

Lemma run_document pre items tl :
  Forall (fun kv => fst kv <> "in_network"
                    /\ nesting (snd kv) <= maxInt64) pre ->
  run (root_prefix pre items ++ tl)
  = if mkdir_ok env && create_ok env unresName then
      on_world close_unres (document_outcome items tl started)
    else Panic ErrIO (start (root_prefix pre items ++ tl)).
Proof.
  intros Hpre. unfold run, main.
  destruct (mkdir_ok env); [|reflexivity].
  destruct (create_ok env unresName); [|reflexivity].
  cbn [negb andb]. unfold bind, modify, defer.
  change (set_unres _ (start (root_prefix pre items ++ tl)))
    with (set_dec (fun _ => root_prefix pre items ++ tl) started).
  rewrite (read_document_outcome pre items tl started Hpre).
  destruct (document_outcome items tl started); reflexivity.
Qed.

Lemma document_outcome_rest items rest w :
  document_outcome items rest w
  = on_world (set_dec (fun d => d ++ rest)) (document_outcome items [] w).
Proof.
  unfold document_outcome.
  destruct (items_outcome items w) as [rem [[] w'|e w'|]];
    cbn [on_world]; [| |reflexivity].
  - unfold finish. destruct rev; reflexivity.
  - f_equal. unfold set_dec. simpl. f_equal.
    now rewrite <- app_assoc.
Qed.

(** C9.  On a root object whose members [pre] before the first
    "in_network" key have other keys, the scan of the keys skips the value
    of each of them and stops at that key, inside its array.  After the
    items of the array and its closing delimiter the run reads nothing:
    the tokens [rest] that follow, a second "in_network" member among
    them or not, are still in the decoder when [main] returns, and what
    the run does is what it does on the document without them. *)
Theorem scan_stops_after_in_network pre items rest :
  Forall (fun kv => fst kv <> "in_network"
                    /\ nesting (snd kv) <= maxInt64) pre ->
  (forall tl w,
     find_in_network
       (S (length (members_tokens pre
                     ++ TStr "in_network" :: Delim "[" :: tl)))
       (set_dec (fun _ =>
          members_tokens pre ++ TStr "in_network" :: Delim "[" :: tl) w)
     = Ok true (set_dec (fun _ => tl) w))
  /\ run (root_prefix pre items ++ rest)
     = on_world (set_dec (fun d => d ++ rest))
         (run (root_prefix pre items))
  /\ (forall w, run (root_prefix pre items ++ rest) = Ok tt w ->
        dec w = rest)
  /\ run (root_prefix pre items ++ rest) <> OutOfFuel.
Proof.
  intros Hpre. split; [|split; [|split]].
  - intros tl w. apply (find_in_network_skips pre Hpre).
    rewrite length_app. pose proof (length_members_tokens pre). lia.
  - rewrite <- (app_nil_r (root_prefix pre items)) at 2.
    rewrite !(run_document pre items _ Hpre).
    destruct (mkdir_ok env && create_ok env unresName).
    + rewrite document_outcome_rest.
      destruct (document_outcome items [] started); reflexivity.
    + cbn [on_world]. f_equal. unfold start, set_dec. simpl. f_equal.
      now rewrite app_nil_r.
  - intros w. rewrite (run_document pre items _ Hpre).
    destruct (mkdir_ok env && create_ok env unresName); [|discriminate].
    unfold document_outcome.
    destruct (items_outcome items started) as [rem [[] w'|e w'|]];
      cbn [on_world]; try discriminate.
    intros [= <-]. unfold finish. destruct rev; reflexivity.
  - apply run_total.
Qed.

(** *** What a panic leaves of the tables *)



















(** *** Scalar coercion *)

Lemma existsb_string_app p s1 s2 :
  existsb_string p (String.append s1 s2)
  = existsb_string p s1 || existsb_string p s2.
Proof.
  induction s1 as [|c s1 IH]; [reflexivity|].
  change (String.append (String c s1) s2)
    with (String c (String.append s1 s2)).
  cbn [existsb_string]. rewrite IH. apply orb_assoc.
Qed.

Lemma existsb_string_rev_app p s1 s2 :
  existsb_string p (String.rev_app s1 s2)
  = existsb_string p s1 || existsb_string p s2.
Proof.
  revert s2. induction s1 as [|c s1 IH]; intros s2; [reflexivity|].
  cbn [String.rev_app existsb_string]. rewrite IH. cbn [existsb_string].
  destruct (p c), (existsb_string p s1), (existsb_string p s2); reflexivity.
Qed.

Lemma existsb_string_rev p s :
  existsb_string p (String.rev s) = existsb_string p s.
Proof.
  unfold String.rev. rewrite existsb_string_rev_app. apply orb_false_r.
Qed.

Lemma existsb_string_trimLeftByte p c s :
  existsb_string p s = false -> existsb_string p (trimLeftByte c s) = false.
Proof.
  induction s as [|d s IH]; intros H; [reflexivity|].
  cbn [trimLeftByte]. destruct (Ascii.eqb c d); [|exact H].
  apply IH. cbn [existsb_string] in H. now apply orb_false_elim in H as [_ H].
Qed.

Lemma has_exponent_trimRightByte s c :
  has_exponent s = false -> has_exponent (trimRightByte s c) = false.
Proof.
  unfold has_exponent, trimRightByte. intros H.
  rewrite existsb_string_rev. apply existsb_string_trimLeftByte.
  now rewrite existsb_string_rev.
Qed.

Lemma has_exponent_decimal z : has_exponent (decimal z) = false.
Proof.
  unfold decimal, DecimalString.NilZero.string_of_uint.
  assert (H : forall d,
            has_exponent (DecimalString.NilEmpty.string_of_uint d) = false).
  { induction d; simpl; auto. }
  destruct (N.to_uint (Z.to_N z)); try apply H. reflexivity.
Qed.

Lemma has_exponent_pad10 s :
  has_exponent s = false -> has_exponent (pad10 s) = false.
Proof.
  intros H. unfold pad10, has_exponent.
  rewrite existsb_string_app. fold (has_exponent s). rewrite H.
  rewrite orb_false_r.
  induction (10 - String.length s)%nat as [|n IH]; [reflexivity|].
  exact IH.
Qed.

Lemma has_exponent_Sprintf_10f f : has_exponent (Sprintf_10f f) = false.
Proof.
  destruct f as [s|s| |s m e]; cbn [Sprintf_10f].
  - destruct s; reflexivity.
  - destruct s; reflexivity.
  - reflexivity.
  - unfold has_exponent. rewrite !existsb_string_app.
    fold (has_exponent (decimal (round_half_even (Z.pos m * 10 ^ 10) e
                                 / 10 ^ 10))).
    fold (has_exponent (pad10 (decimal
            (round_half_even (Z.pos m * 10 ^ 10) e mod 10 ^ 10)))).
    rewrite has_exponent_decimal, has_exponent_pad10
      by apply has_exponent_decimal.
    destruct s; reflexivity.
Qed.

(** The formatting rule of the [float64] case: fixed notation, never an
    exponent. *)
Lemma float64_never_exponent f : has_exponent (anyToString (F64 f)) = false.
Proof.
  cbn [anyToString]. unfold fmtFloat.
  do 2 apply has_exponent_trimRightByte. apply has_exponent_Sprintf_10f.
Qed.

(** A [json.Number] is written as its literal stands in the document. *)
Lemma Number_verbatim n : anyToString (Num n) = n.
Proof. reflexivity. Qed.

(** C7, as the code has it.  In the [float64] case the text never uses
    exponential notation, whatever the value (also for NaN and the
    infinities).  A [json.Number], which is what the decoder set with
    [UseNumber] hands over for every number of the document, is written as
    its literal stands there, so its text has an exponent exactly when the
    literal has one. *)
Theorem number_texts :
  (forall f, has_exponent (anyToString (F64 f)) = false)
  /\ (forall n, anyToString (Num n) = n)
  /\ (forall n, has_exponent (anyToString (Num n)) = has_exponent n).
Proof.
  split; [apply float64_never_exponent|].
  split; intros n; now rewrite Number_verbatim.
Qed.

(** *** Properties kept by every statement of [main] *)

Lemma maintains_ret {A} P (a : A) : maintains P (ret a).
Proof. intros w H. exact H. Qed.

Lemma maintains_panic {A} P e : maintains P (@panic A e).
Proof. intros w H. exact H. Qed.

Lemma maintains_bind {A B} P (m : Go A) (k : A -> Go B) :
  maintains P m -> (forall a, maintains P (k a)) -> maintains P (bind m k).
Proof.
  intros Hm Hk w H. unfold bind. specialize (Hm w H).
  destruct (m w) as [a w'|e w'|]; [apply Hk, Hm | exact Hm | exact I].
Qed.

Lemma maintains_for_range {A} P (l : list A) (body : A -> Go unit) :
  (forall x, maintains P (body x)) -> maintains P (for_range l body).
Proof.
  intros H. induction l as [|x l IH]; simpl.
  - apply maintains_ret.
  - apply maintains_bind; [apply H | intros _; exact IH].
Qed.

Lemma maintains_modify P f :
  (forall w, P w -> P (f w)) -> maintains P (modify f).
Proof. intros H w Hw. apply H, Hw. Qed.

Lemma maintains_gets {A} P (f : world -> A) : maintains P (gets f).
Proof. intros w H. exact H. Qed.

Lemma reads_only_maintains {A} P (m : Go A) :
  (forall d w, P w -> P (set_dec (fun _ => d) w)) ->
  reads_only m -> maintains P m.
Proof.
  intros Hd Hm w H. specialize (Hm w).
  destruct (m w) as [a w'|e w'|]; [| |exact I];
    destruct Hm as [d ->]; apply Hd, H.
Qed.

Lemma reads_only_expectDelim c : reads_only (expectDelim c).
Proof.
  intros w. unfold expectDelim, bind, dec_Token, panic, ret.
  destruct (dec w) as [|t ts] eqn:E.
  - exists []. rewrite <- E. symmetry. apply set_dec_id.
  - destruct t as [d| | | |]; try (exists ts; reflexivity).
    destruct (Ascii.eqb d c); exists ts; reflexivity.
Qed.

Lemma reads_only_expectString : reads_only expectString.
Proof.
  intros w. unfold expectString, bind, dec_Token, panic, ret.
  destruct (dec w) as [|t ts] eqn:E.
  - exists []. rewrite <- E. symmetry. apply set_dec_id.
  - destruct t as [d| | | |]; exists ts; reflexivity.
Qed.

Lemma reads_only_skipValue : reads_only skipValue.
Proof.
  intros w. unfold skipValue, skipValue_depths, bind, dec_Token, panic, ret.
  destruct (dec w) as [|t ts] eqn:E.
  - exists []. rewrite <- E. symmetry. apply set_dec_id.
  - destruct t as [d| | | |]; cbn; try (exists ts; reflexivity).
    destruct (skip_loop 1 ts) as [seen [rest|]]; cbn;
      [exists rest | exists []]; reflexivity.
Qed.

Lemma reads_only_Decode : reads_only dec_Decode.
Proof.
  intros w. unfold dec_Decode.
  destruct (readValue (dec w)) as [[v rest]|].
  - exists rest. reflexivity.
  - exists (dec w). symmetry. apply set_dec_id.
Qed.

Lemma getWriter_returns code w a w' :
  getWriter code w = Ok a w' -> a = code /\ is_Some (writers w' !! code).
Proof.
  unfold getWriter. destruct (writers w !! code) eqn:E.
  - intros [= <- <-]. rewrite E. eauto.
  - destruct (create_ok env (csvName code)); [|discriminate].
    intros [= <- <-]. simpl. rewrite lookup_insert_eq. eauto.
Qed.

Section Invariant.

Variable P : world -> Prop.

Hypothesis P_dec : forall d w, P w -> P (set_dec (fun _ => d) w).
Hypothesis P_seenItems : forall w, P w -> P (set_seenItems incr64 w).
Hypothesis P_keptItems : forall w, P w -> P (set_keptItems incr64 w).
Hypothesis P_skippedRefRates :
  forall w, P w -> P (set_skippedRefRates incr64 w).
Hypothesis P_logged :
  forall bc w, bc ∈ allowed -> bc <> "" -> P w -> P (logged1 bc w).
Hypothesis P_open :
  forall bc, bc ∈ allowed -> bc <> "" -> rev = RevR2 ->
    maintains P (getWriter bc).
Hypothesis P_emit :
  forall bc bct na tinType tinVal p npi,
    bc ∈ allowed -> bc <> "" -> HasPrefix bct "CPT" = true ->
    maintains (fun w => P w /\ (rev = RevR2 -> is_Some (writers w !! bc)))
      (emit_row (match rev with Rev1 => "" | RevR2 => bc end) bc
         (price_row bc bct na tinType tinVal p npi)).

Lemma maintains_process_group bc bct na prices pg :
  bc ∈ allowed -> bc <> "" -> HasPrefix bct "CPT" = true ->
  maintains (fun w => P w /\ (rev = RevR2 -> is_Some (writers w !! bc)))
    (process_group (match rev with Rev1 => "" | RevR2 => bc end)
       bc bct na prices pg).
Proof.
  intros Ha Hne Hp. unfold process_group.
  destruct (TIN pg);
    (destruct (length _ =? 0)%nat; [apply maintains_ret|];
     apply maintains_for_range; intros p; unfold process_price;
     apply maintains_for_range; intros npi;
     apply (P_emit bc bct na _ _ p npi Ha Hne Hp)).
Qed.

Lemma maintains_process_rate bc bct na rate :
  bc ∈ allowed -> bc <> "" -> HasPrefix bct "CPT" = true ->
  maintains P (process_rate bc bct na rate).
Proof.
  intros Ha Hne Hp. unfold process_rate. apply maintains_bind.
  { destruct (0 <? length (ProviderReferences rate))%nat;
      [|apply maintains_ret].
    apply maintains_bind;
      [apply maintains_modify, P_skippedRefRates|].
    intros _. apply maintains_for_range. intros _ w Hw.
    exact (P_logged bc w Ha Hne Hw). }
  intros _. destruct (_ || _); [apply maintains_ret|].
  intros w Hw. unfold bind.
  pose proof (fun pg => maintains_process_group bc bct na
                          (NegotiatedPrices rate) pg Ha Hne Hp) as Hg.
  pose proof (P_open bc Ha Hne) as Ho.
  destruct rev.
  - unfold ret.
    assert (Hw' : P w /\ (Rev1 = RevR2 -> is_Some (writers w !! bc)))
      by (split; [exact Hw | discriminate]).
    pose proof (maintains_for_range _ (ProviderGroups rate) _ Hg w Hw') as Hl.
    destruct (for_range _ _ w) as [a w'|e w'|]; [apply Hl|apply Hl|exact I].
  - specialize (Ho eq_refl w Hw).
    destruct (getWriter bc w) as [a w'|e w'|] eqn:E; [|exact Ho|exact I].
    apply getWriter_returns in E as [-> Hs].
    pose proof (maintains_for_range _ (ProviderGroups rate) _ Hg w'
                  (conj Ho (fun _ => Hs))) as Hl.
    destruct (for_range _ _ w') as [a w''|e w''|]; [apply Hl|apply Hl|exact I].
Qed.

Lemma maintains_process_item it : maintains P (process_item it).
Proof.
  unfold process_item.
  apply maintains_bind; [apply maintains_modify, P_seenItems|].
  intros _. cbv zeta.
  destruct (HasPrefix _ "CPT") eqn:Hp; [|apply maintains_ret].
  destruct (String.eqb _ "") eqn:Hne; [apply maintains_ret|].
  destruct (bool_decide _) eqn:Ha; [|apply maintains_ret].
  cbn [negb].
  apply maintains_bind; [apply maintains_modify, P_keptItems|].
  intros _. apply maintains_for_range. intros rate.
  apply maintains_process_rate.
  - now apply bool_decide_eq_true in Ha.
  - now apply String.eqb_neq in Hne.
  - exact Hp.
Qed.

Lemma maintains_find_in_network fuel : maintains P (find_in_network fuel).
Proof.
  induction fuel as [|fuel IH]; [intros w H; exact I|].
  cbn [find_in_network].
  apply maintains_bind; [apply maintains_gets|]. intros more.
  destruct (negb more); [apply maintains_ret|].
  apply maintains_bind;
    [apply reads_only_maintains;
       [exact P_dec | apply reads_only_expectString]|].
  intros k. destruct (String.eqb k "in_network").
  - apply maintains_bind;
      [apply reads_only_maintains;
         [exact P_dec | apply reads_only_expectDelim]|].
    intros _. apply maintains_ret.
  - apply maintains_bind;
      [apply reads_only_maintains; [exact P_dec | apply reads_only_skipValue]|].
    intros _. exact IH.
Qed.

Lemma maintains_process_items fuel : maintains P (process_items fuel).
Proof.
  induction fuel as [|fuel IH]; [intros w H; exact I|].
  cbn [process_items].
  apply maintains_bind; [apply maintains_gets|]. intros more.
  destruct (negb more); [apply maintains_ret|].
  apply maintains_bind;
    [apply reads_only_maintains; [exact P_dec | apply reads_only_Decode]|].
  intros [it|].
  - apply maintains_bind; [apply maintains_process_item|].
    intros _. exact IH.
  - apply maintains_panic.
Qed.

(** [read_document] keeps [P] up to the loop that closes the tables. *)
Lemma read_document_maintains w :
  P w ->
  match read_document w with
  | Ok _ w' => exists w1, P w1 /\ w' = finish w1
  | Panic _ w' => P w'
  | OutOfFuel => True
  end.
Proof.
  intros H. unfold read_document.
  pose proof (reads_only_maintains P _ P_dec (reads_only_expectDelim "{"%char)
                w H) as Ha.
  unfold bind at 1.
  destruct (expectDelim "{" w) as [[] w1|e1 w1|]; [|exact Ha|exact I].
  unfold bind at 1, gets at 1. unfold bind at 1.
  pose proof (maintains_find_in_network (S (length (dec w1))) w1 Ha) as Hb.
  destruct (find_in_network (S (length (dec w1))) w1) as [found w2|e2 w2|];
    [|exact Hb|exact I].
  destruct found; cbn [negb]; [|exact Hb].
  unfold bind at 1, gets at 1. unfold bind at 1.
  pose proof (maintains_process_items (S (length (dec w2))) w2 Hb) as Hc.
  destruct (process_items (S (length (dec w2))) w2) as [[] w3|e3 w3|];
    [|exact Hc|exact I].
  unfold bind at 1.
  pose proof (reads_only_maintains P _ P_dec (reads_only_expectDelim "]"%char)
                w3 Hc) as Hd.
  destruct (expectDelim "]" w3) as [[] w4|e4 w4|]; [|exact Hd|exact I].
  unfold bind, modify, print_summary, ret, finish.
  destruct rev; (exists w4; split; [exact Hd | reflexivity]).
Qed.

(** A run that gets to create its outputs keeps [P] up to the closing of
    the tables; the deferred call then closes the unresolved-references
    table. *)
Lemma run_maintains ts :
  P (set_unres (fun _ => Some (csv_Write unresHeader newFile)) (start ts)) ->
  match run ts with
  | Ok _ w => exists w1, P w1 /\ w = close_unres (finish w1)
  | Panic _ w => w = start ts \/ exists w1, P w1 /\ w = close_unres w1
  | OutOfFuel => False
  end.
Proof.
  intros H0. pose proof (run_total ts) as Ht.
  unfold run, main in *.
  destruct (mkdir_ok env); [|left; reflexivity].
  destruct (create_ok env unresName); [|left; reflexivity].
  cbn [negb] in *. unfold bind, modify, defer in *.
  pose proof (read_document_maintains _ H0) as Hdoc.
  destruct (read_document _) as [[] w1|e1 w1|].
  - destruct Hdoc as (w2 & Hw2 & ->). exists w2. split; [exact Hw2|reflexivity].
  - right. exists w1. split; [exact Hdoc|reflexivity].
  - congruence.
Qed.

End Invariant.

(** *** The shape of the tables *)

Lemma tables_headed_empty : tables_headed ∅.
Proof. intros c f. rewrite lookup_empty. discriminate. Qed.

Lemma tables_headed_insert c m :
  c ∈ allowed -> c <> "" ->
  tables_headed m -> tables_headed (<[c := csv_Write header newFile]> m).
Proof.
  intros Ha Hne H c' f. rewrite lookup_insert.
  destruct (decide (c = c')) as [<-|]; [|apply H].
  intros [= <-]. split; [exact Ha|]. split; [exact Hne|].
  exists []. split; [apply records_newFile | constructor].
Qed.

Lemma tables_headed_alter c row m :
  row_of c row ->
  tables_headed m -> tables_headed (alter (csv_Write row) c m).
Proof.
  intros Hr H c' f. rewrite lookup_alter.
  destruct (decide (c = c')) as [<-|]; [|apply H].
  destruct (m !! c) as [f0|] eqn:E; [|discriminate].
  intros [= <-]. destruct (H c f0 E) as (Ha & Hne & rs & Hrs & Hall).
  split; [exact Ha|]. split; [exact Hne|].
  exists (rs ++ [row]). split.
  - rewrite records_Write, Hrs. reflexivity.
  - apply Forall_app. split; [exact Hall|]. constructor; [exact Hr|constructor].
Qed.

Lemma records_flush_close f : records (flush_close f) = records f.
Proof.
  unfold flush_close, csv_Flush, records.
  destruct (closed f); simpl; [reflexivity|]. now rewrite app_nil_r.
Qed.

Lemma tables_headed_closed m :
  tables_headed m -> tables_headed (flush_close <$> m).
Proof.
  intros H c f. rewrite lookup_fmap.
  destruct (m !! c) as [f0|] eqn:E; [|discriminate].
  intros [= <-]. rewrite records_flush_close. apply (H c f0 E).
Qed.

Lemma row_of_price_row bc bct na tinType tinVal p npi :
  HasPrefix bct "CPT" = true ->
  row_of bc (price_row bc bct na tinType tinVal p npi).
Proof.
  intros Hp. split; [reflexivity|]. split; [reflexivity|].
  exists bct. split; [reflexivity | exact Hp].
Qed.

(** What [emit_row] does to the tables: revision 1 opens the table of
    [bc] when it is not open; the row is written through the handle. *)
Lemma emit_row_writers (H : gmap string csvFile -> Prop) bc row :
  (forall m, H m -> m !! bc = None -> rev = Rev1 ->
     H (alter (csv_Write row) bc (<[bc := csv_Write header newFile]> m))) ->
  (forall m, H m -> (rev = Rev1 -> is_Some (m !! bc)) ->
     H (alter (csv_Write row) bc m)) ->
  maintains (fun w => H (writers w))
    (emit_row (match rev with Rev1 => "" | RevR2 => bc end) bc row).
Proof.
  intros Hins Halt w Hw.
  unfold emit_row, bind, getWriter, ret, wp_Write, modify, gets.
  destruct rev; simpl.
  - destruct (writers w !! bc) as [f|] eqn:E; simpl.
    + destruct ((0 <? progressEvery) && _); simpl;
        (apply Halt; [exact Hw | intros _; rewrite E; eauto]).
    + destruct (create_ok env (csvName bc)); simpl; [|exact Hw].
      destruct ((0 <? progressEvery) && _); simpl;
        (apply Hins; [exact Hw | exact E | reflexivity]).
  - destruct ((0 <? progressEvery) && _); simpl;
      (apply Halt; [exact Hw | discriminate]).
Qed.

Lemma getWriter_writers (H : gmap string csvFile -> Prop) bc :
  (forall m, H m -> m !! bc = None ->
     H (<[bc := csv_Write header newFile]> m)) ->
  maintains (fun w => H (writers w)) (getWriter bc).
Proof.
  intros Hins w Hw. unfold getWriter.
  destruct (writers w !! bc) eqn:E; [exact Hw|].
  destruct (create_ok env (csvName bc)); [|exact Hw].
  simpl. apply Hins; assumption.
Qed.

(** [emit_row] closes no table: the handle of revision R2 stays. *)
Lemma emit_row_handle (P : world -> Prop) bc row c :
  maintains P
    (emit_row (match rev with Rev1 => "" | RevR2 => bc end) bc row) ->
  maintains (fun w => P w /\ (rev = RevR2 -> is_Some (writers w !! c)))
    (emit_row (match rev with Rev1 => "" | RevR2 => bc end) bc row).
Proof.
  intros HP w [Hw Hs]. specialize (HP w Hw).
  pose proof (emit_row_writers
                (fun m => rev = RevR2 -> is_Some (m !! c)) bc row) as Hk.
  assert (Hins : forall m : gmap string csvFile,
             (rev = RevR2 -> is_Some (m !! c)) -> m !! bc = None ->
             rev = Rev1 ->
             rev = RevR2 ->
             is_Some (alter (csv_Write row) bc
                        (<[bc := csv_Write header newFile]> m) !! c)).
  { intros m _ _ Hr Hr'. congruence. }
  specialize (Hk Hins). clear Hins.
  assert (Halt : forall m : gmap string csvFile,
             (rev = RevR2 -> is_Some (m !! c)) ->
             (rev = Rev1 -> is_Some (m !! bc)) ->
             rev = RevR2 -> is_Some (alter (csv_Write row) bc m !! c)).
  { intros m Hm _ Hr. specialize (Hm Hr). rewrite lookup_alter.
    destruct (decide (bc = c)) as [<-|]; [|exact Hm].
    destruct Hm as [f ->]. simpl. eauto. }
  specialize (Hk Halt w Hs).
  destruct (emit_row _ bc row w); [split; assumption..|exact I].
Qed.

(** The ends of a run for a property of the tables that opening a table
    and writing a row keep. *)
Lemma run_tables (H : gmap string csvFile -> Prop) ts :
  H ∅ ->
  (forall bc m, bc ∈ allowed -> bc <> "" -> H m -> m !! bc = None ->
     H (<[bc := csv_Write header newFile]> m)) ->
  (forall bc row m, bc ∈ allowed -> bc <> "" -> row_of bc row -> H m ->
     H (alter (csv_Write row) bc m)) ->
  match run ts with
  | Ok _ w => exists w1, H (writers w1) /\ w = close_unres (finish w1)
  | Panic _ w => H (writers w)
  | OutOfFuel => False
  end.
Proof.
  intros H0 Hins Halt.
  pose proof (run_maintains (fun w => H (writers w))) as Hrun.
  specialize (Hrun (fun d w Hw => Hw) (fun w Hw => Hw) (fun w Hw => Hw)
                (fun w Hw => Hw) (fun bc w _ _ Hw => Hw)).
  assert (Ho : forall bc, bc ∈ allowed -> bc <> "" -> rev = RevR2 ->
                 maintains (fun w => H (writers w)) (getWriter bc)).
  { intros bc Ha Hne _. apply getWriter_writers. intros m. now apply Hins. }
  assert (He : forall bc bct na tinType tinVal p npi,
             bc ∈ allowed -> bc <> "" -> HasPrefix bct "CPT" = true ->
             maintains (fun w => H (writers w))
               (emit_row (match rev with Rev1 => "" | RevR2 => bc end) bc
                  (price_row bc bct na tinType tinVal p npi))).
  { intros bc bct na tinType tinVal p npi Ha Hne Hp.
    apply emit_row_writers.
    - intros m Hm E _.
      apply Halt; try assumption; [now apply row_of_price_row|].
      now apply Hins.
    - intros m Hm _. apply Halt; try assumption.
      now apply row_of_price_row. }
  specialize (Hrun Ho
                (fun bc bct na tinType tinVal p npi Ha Hne Hp =>
                   emit_row_handle _ _ _ _
                     (He bc bct na tinType tinVal p npi Ha Hne Hp)) ts H0).
  destruct (run ts) as [[] w|e w|]; [exact Hrun| |exact Hrun].
  destruct Hrun as [->|(w1 & Hw1 & ->)]; [exact H0 | exact Hw1].
Qed.

Lemma writers_finish w :
  writers (close_unres (finish w)) = flush_close <$> writers w.
Proof. unfold finish. destruct rev; reflexivity. Qed.

Lemma unres_finish w :
  unres (close_unres (finish w)) = flush_close <$> (flush_close <$> unres w).
Proof. unfold finish. destruct rev; reflexivity. Qed.

(** X5.  Whatever the input and however the run ends, every table is that of a
    code of the allow-set, a code that is not empty, and holds the header
    first and then only rows of twelve cells with this code in the
    billing_code cell and a type that starts with CPT in the
    billing_code_type cell. *)
Theorem tables_hold_rows_of_their_code ts w :
  final_state (run ts) = Some w ->
  forall c f,
    writers w !! c = Some f ->
    c ∈ allowed /\ c <> ""
    /\ exists rs, records f = header :: rs /\ Forall (row_of c) rs.
Proof.
  intros Hend.
  pose proof (run_tables tables_headed ts tables_headed_empty) as Hrun.
  assert (H : tables_headed (writers w)); [|exact H].
  destruct (run ts) as [[] w'|e w'|]; simpl in Hend; [| |discriminate];
    injection Hend as ->.
  - destruct Hrun as (w1 & Hw1 & ->).
    + intros bc m Ha Hne Hm _. now apply tables_headed_insert.
    + intros bc row m _ _ Hr Hm. now apply tables_headed_alter.
    + rewrite writers_finish. now apply tables_headed_closed.
  - apply Hrun.
    + intros bc m Ha Hne Hm _. now apply tables_headed_insert.
    + intros bc row m _ _ Hr Hm. now apply tables_headed_alter.
Qed.

(** *** The closing of the outputs *)

Lemma getWriter_unres bc w : keeps_unres w (getWriter bc w).
Proof.
  unfold getWriter. destruct (writers w !! bc); [split; reflexivity|].
  destruct (create_ok env (csvName bc)); split; reflexivity.
Qed.

(** The ends of a run for a property [U] of the unresolved-references
    table and of the count of references, which logging a reference keeps:
    [U] holds when the tables are closed. *)
Lemma run_unres (U : world -> Prop) ts :
  (forall w w', unres w' = unres w -> skippedRefIDs w' = skippedRefIDs w ->
     U w -> U w') ->
  (forall bc w, bc ∈ allowed -> bc <> "" -> U w -> U (logged1 bc w)) ->
  U (set_unres (fun _ => Some (csv_Write unresHeader newFile)) (start ts)) ->
  match run ts with
  | Ok _ w => exists w1, U w1 /\ w = close_unres (finish w1)
  | Panic _ w => w = start ts \/ exists w1, U w1 /\ w = close_unres w1
  | OutOfFuel => False
  end.
Proof.
  intros HU Hlog H0.
  apply (run_maintains U).
  - intros d w. now apply HU.
  - intros w. now apply HU.
  - intros w. now apply HU.
  - intros w. now apply HU.
  - exact Hlog.
  - intros bc _ _ _ w Hw. pose proof (getWriter_unres bc w) as Hk.
    destruct (getWriter bc w) as [a w'|e w'|]; [| |exact I];
      destruct Hk as [H1 H2]; now apply (HU w w').
  - intros bc bct na tinType tinVal p npi _ _ _.
    apply emit_row_handle. intros w Hw.
    pose proof (emit_row_unres
                  (match rev with Rev1 => "" | RevR2 => bc end) bc
                  (price_row bc bct na tinType tinVal p npi) w) as Hk.
    destruct (emit_row _ bc _ w) as [a w'|e w'|]; [| |exact I];
      destruct Hk as [H1 H2]; now apply (HU w w').
  - exact H0.
Qed.

Lemma tables_open_insert bc (m : gmap string csvFile) :
  (forall c f, m !! c = Some f -> closed f = false) ->
  forall c f, <[bc := csv_Write header newFile]> m !! c = Some f ->
              closed f = false.
Proof.
  intros H c f. rewrite lookup_insert.
  destruct (decide (bc = c)); [|apply H].
  intros [= <-]. now rewrite closed_Write.
Qed.

Lemma tables_open_alter bc row (m : gmap string csvFile) :
  (forall c f, m !! c = Some f -> closed f = false) ->
  forall c f, alter (csv_Write row) bc m !! c = Some f ->
              closed f = false.
Proof.
  intros H c f. rewrite lookup_alter.
  destruct (decide (bc = c)) as [<-|]; [|apply H].
  destruct (m !! bc) as [f0|] eqn:E; [|discriminate].
  intros [= <-]. rewrite closed_Write. apply (H bc f0 E).
Qed.

Lemma flush_close_open f :
  closed f = false -> flushed_and_closed (flush_close f).
Proof.
  intros H. unfold flushed_and_closed, flush_close, csv_Flush.
  rewrite H. split; reflexivity.
Qed.

Lemma flushed_flush_close f :
  closed f = false -> flushed (flush_close f) = records f.
Proof.
  intros H. unfold flush_close, csv_Flush. rewrite H. reflexivity.
Qed.

(** The unresolved-references table that holds its header only, after the
    deferred call. *)
Lemma unres_header_closed :
  flushed (flush_close (csv_Write unresHeader newFile)) = [unresHeader]
  /\ flushed_and_closed (flush_close (csv_Write unresHeader newFile)).
Proof.
  split.
  - rewrite flushed_flush_close by now rewrite closed_Write.
    apply records_newFile.
  - apply flush_close_open. now rewrite closed_Write.
Qed.

Lemma flush_close_closed f :
  flushed_and_closed f -> flushed_and_closed (flush_close f).
Proof.
  intros [H1 H2]. unfold flushed_and_closed, flush_close, csv_Flush.
  rewrite H1. split; [reflexivity | exact H2].
Qed.

(** X7.  When [main] returns, every table it opened and the
    unresolved-references table are flushed and closed: every record
    written is in its file, none is left in a buffer. *)
Theorem return_closes_every_output ts w :
  run ts = Ok tt w ->
  (forall c f, writers w !! c = Some f -> flushed_and_closed f)
  /\ exists u, unres w = Some u /\ flushed_and_closed u.
Proof.
  intros Hrun.
  pose proof (run_tables
                (fun m => forall c f, m !! c = Some f -> closed f = false)
                ts)
    as Ht.
  pose proof (run_unres unres_open ts) as Hu.
  rewrite Hrun in Ht, Hu. split.
  - destruct Ht as (w1 & Hw1 & ->).
    + intros c f. rewrite lookup_empty. discriminate.
    + intros bc m _ _ Hm _. now apply tables_open_insert.
    + intros bc row m _ _ _ Hm. now apply tables_open_alter.
    + intros c f. rewrite writers_finish, lookup_fmap.
      destruct (writers w1 !! c) as [f0|] eqn:E; [|discriminate].
      intros [= <-]. apply flush_close_open. apply (Hw1 c f0 E).
  - destruct Hu as (w1 & (u & Hu1 & Hu2) & ->).
    + intros w0 w' H1 _ (u & Hu1 & Hu2). exists u. split; congruence.
    + intros bc w0 _ _ (u & Hu1 & Hu2). exists (csv_Write [bc; "ref_id"] u).
      split; [simpl; rewrite Hu1; reflexivity | now rewrite closed_Write].
    + eexists. split; [reflexivity | now rewrite closed_Write].
    + rewrite unres_finish, Hu1. eexists. split; [reflexivity|].
      apply flush_close_closed, flush_close_open, Hu2.
Qed.

Lemma incr64_wrap64 z : incr64 (wrap64 z) = wrap64 (z + 1).
Proof.
  unfold incr64, wrap64.
  replace ((z + 2 ^ 63) mod 2 ^ 64 - 2 ^ 63 + 1 + 2 ^ 63)
    with ((z + 2 ^ 63) mod 2 ^ 64 + 1) by lia.
  rewrite Zplus_mod_idemp_l. f_equal. f_equal. lia.
Qed.

Lemma iter_incr64 n z :
  Nat.iter n incr64 (wrap64 z) = wrap64 (z + Z.of_nat n).
Proof.
  induction n as [|n IH].
  - simpl. f_equal. lia.
  - rewrite Nat.iter_succ, IH, incr64_wrap64. f_equal. lia.
Qed.

Lemma unres_logged_logged1 bc w :
  bc ∈ allowed -> bc <> "" -> unres_logged w -> unres_logged (logged1 bc w).
Proof.
  intros Ha Hne (u & rs & Hu & Hc & Hr & Hall & Hn).
  exists (csv_Write [bc; "ref_id"] u), (rs ++ [[bc; "ref_id"]]).
  split; [simpl; rewrite Hu; reflexivity|].
  split; [now rewrite closed_Write|]. split.
  - rewrite records_Write, Hr. reflexivity.
  - split.
    + apply Forall_app. split; [exact Hall|].
      constructor; [|constructor]. exists bc. auto.
    + simpl. rewrite Hn, incr64_wrap64, length_app. simpl. f_equal. lia.
Qed.

(** X8.  However the run ends, the unresolved-references table, once created,
    is flushed and closed (by the deferred call when [main] panics), and
    holds its header and then one record per reference counted in
    [skippedRefIDs], each made of a code of the allow-set and of the
    placeholder. *)
Theorem unresolved_table_is_closed_and_counted ts w u :
  final_state (run ts) = Some w ->
  unres w = Some u ->
  flushed_and_closed u
  /\ exists rs,
       records u = unresHeader :: rs
       /\ Forall ref_record rs
       /\ skippedRefIDs w = wrap64 (Z.of_nat (length rs)).
Proof.
  intros Hend Hu.
  pose proof (run_unres unres_logged ts) as Hrun.
  assert (H1 : forall w0 w', unres w' = unres w0 ->
                 skippedRefIDs w' = skippedRefIDs w0 ->
                 unres_logged w0 -> unres_logged w').
  { intros w0 w' E1 E2 (u1 & rs & G1 & Hc & Hr & Hall & Hn).
    exists u1, rs. repeat split; congruence. }
  assert (H0 : unres_logged
                 (set_unres (fun _ => Some (csv_Write unresHeader newFile))
                    (start ts))).
  { exists (csv_Write unresHeader newFile), [].
    split; [reflexivity|]. split; [now rewrite closed_Write|].
    split; [apply records_newFile|]. split; [constructor | reflexivity]. }
  specialize (Hrun H1 unres_logged_logged1 H0).
  destruct (run ts) as [[] w'|e w'|]; simpl in Hend; [| |discriminate];
    injection Hend as ->.
  - destruct Hrun as (w1 & (u1 & rs & G1 & Hc & Hr & Hall & Hn) & ->).
    rewrite unres_finish, G1 in Hu. injection Hu as <-. split.
    + apply flush_close_closed, flush_close_open, Hc.
    + exists rs. rewrite !records_flush_close.
      split; [exact Hr|]. split; [exact Hall|].
      rewrite <- Hn. unfold finish. destruct rev; reflexivity.
  - destruct Hrun as [->|(w1 & (u1 & rs & G1 & Hc & Hr & Hall & Hn) & ->)];
      [discriminate|].
    simpl in Hu. rewrite G1 in Hu. injection Hu as <-. split.
    + apply flush_close_open, Hc.
    + exists rs. rewrite records_flush_close. auto.
Qed.

(** *** The progress line *)

(** X12.  With a cadence of zero or less no progress line is printed, whatever
    the input: the run prints nothing but, in revision 1, its summary. *)
Theorem no_progress_line_without_cadence ts w :
  progressEvery <= 0 ->
  final_state (run ts) = Some w ->
  forall kept rows, ~ In (Progress kept rows) (stdout w).
Proof.
  intros Hp Hend.
  pose proof (run_maintains (fun w => stdout w = [])) as Hrun.
  specialize (Hrun (fun d w Hw => Hw) (fun w Hw => Hw) (fun w Hw => Hw)
                (fun w Hw => Hw) (fun bc w _ _ Hw => Hw)).
  assert (Ho : forall bc, bc ∈ allowed -> bc <> "" -> rev = RevR2 ->
                 maintains (fun w => stdout w = []) (getWriter bc)).
  { intros bc _ _ _ w0 Hw. unfold getWriter.
    destruct (writers w0 !! bc); [exact Hw|].
    destruct (create_ok env (csvName bc)); exact Hw. }
  assert (He : forall bc bct na tinType tinVal p npi,
             bc ∈ allowed -> bc <> "" -> HasPrefix bct "CPT" = true ->
             maintains (fun w => stdout w = [])
               (emit_row (match rev with Rev1 => "" | RevR2 => bc end) bc
                  (price_row bc bct na tinType tinVal p npi))).
  { intros bc bct na tinType tinVal p npi _ _ _ w0 Hw.
    unfold emit_row, bind, getWriter, ret, wp_Write, modify, gets.
    assert (Hz : (0 <? progressEvery) = false) by (apply Z.ltb_ge; lia).
    rewrite Hz. cbn [andb].
    destruct rev; simpl; [|exact Hw].
    destruct (writers w0 !! bc); simpl; [exact Hw|].
    destruct (create_ok env (csvName bc)); exact Hw. }
  specialize (Hrun Ho
                (fun bc bct na tinType tinVal p npi Ha Hne Hc =>
                   emit_row_handle _ _ _ _
                     (He bc bct na tinType tinVal p npi Ha Hne Hc))
                ts eq_refl).
  intros kept rows Hin.
  destruct (run ts) as [[] w'|e w'|]; simpl in Hend; [| |discriminate];
    injection Hend as ->.
  - destruct Hrun as (w1 & Hw1 & ->). revert Hin.
    unfold finish. destruct rev; simpl; rewrite Hw1; simpl.
    + intros [H|[]]. discriminate.
    + intros [].
  - destruct Hrun as [->|(w1 & Hw1 & ->)]; [destruct Hin|].
    simpl in Hin. rewrite Hw1 in Hin. destruct Hin.
Qed.

(** *** Tables without rows *)

(** X10.  Revision 1 opens a table when it writes a row: however the run ends,
    every table holds at least one row after its header.  (Revision R2
    opens the table of a rate group before it knows whether the group
    yields a row.) *)
Theorem rev1_tables_have_rows ts w :
  rev = Rev1 ->
  final_state (run ts) = Some w ->
  forall c f, writers w !! c = Some f -> (1 < length (records f))%nat.
Proof.
  intros Hrev Hend.
  pose proof (run_maintains
                (fun w => forall c f, writers w !! c = Some f ->
                                      (1 < length (records f))%nat)) as Hrun.
  specialize (Hrun (fun d w Hw => Hw) (fun w Hw => Hw) (fun w Hw => Hw)
                (fun w Hw => Hw) (fun bc w _ _ Hw => Hw)).
  assert (Ho : forall bc, bc ∈ allowed -> bc <> "" -> rev = RevR2 ->
                 maintains (fun w => forall c f, writers w !! c = Some f ->
                                       (1 < length (records f))%nat)
                   (getWriter bc)).
  { intros bc _ _ Hr. congruence. }
  assert (He : forall bc bct na tinType tinVal p npi,
             bc ∈ allowed -> bc <> "" -> HasPrefix bct "CPT" = true ->
             maintains (fun w => forall c f, writers w !! c = Some f ->
                                   (1 < length (records f))%nat)
               (emit_row (match rev with Rev1 => "" | RevR2 => bc end) bc
                  (price_row bc bct na tinType tinVal p npi))).
  { intros bc bct na tinType tinVal p npi _ _ _.
    apply (emit_row_writers
             (fun m => forall c f, m !! c = Some f ->
                                   (1 < length (records f))%nat)).
    - intros m Hm E _ c f. rewrite lookup_alter.
      destruct (decide (bc = c)) as [<-|].
      + rewrite lookup_insert_eq. intros [= <-].
        rewrite !records_Write, !length_app. simpl. lia.
      + rewrite lookup_insert_ne by assumption. apply Hm.
    - intros m Hm _ c f. rewrite lookup_alter.
      destruct (decide (bc = c)) as [<-|]; [|apply Hm].
      destruct (m !! bc) as [f0|] eqn:E; [|discriminate].
      intros [= <-]. specialize (Hm bc f0 E).
      rewrite records_Write, length_app. simpl. lia. }
  assert (H0 : forall c f,
             writers (set_unres
                        (fun _ => Some (csv_Write unresHeader newFile))
                        (start ts)) !! c = Some f ->
             (1 < length (records f))%nat).
  { intros c f. simpl. rewrite lookup_empty. discriminate. }
  specialize (Hrun Ho
                (fun bc bct na tinType tinVal p npi Ha Hne Hc =>
                   emit_row_handle _ _ _ _
                     (He bc bct na tinType tinVal p npi Ha Hne Hc)) ts H0).
  intros c f.
  destruct (run ts) as [[] w'|e w'|]; simpl in Hend; [| |discriminate];
    injection Hend as ->.
  - destruct Hrun as (w1 & Hw1 & ->).
    rewrite writers_finish, lookup_fmap.
    destruct (writers w1 !! c) as [f0|] eqn:E; [|discriminate].
    intros [= <-]. rewrite records_flush_close. apply (Hw1 c f0 E).
  - destruct Hrun as [->|(w1 & Hw1 & ->)].
    + simpl. rewrite lookup_empty. discriminate.
    + apply Hw1.
Qed.

(** *** What a run writes on a well-formed document *)

Lemma iter_logged1_fields bc n w :
  dec (Nat.iter n (logged1 bc) w) = dec w
  /\ seenItems (Nat.iter n (logged1 bc) w) = seenItems w
  /\ keptItems (Nat.iter n (logged1 bc) w) = keptItems w
  /\ skippedRefRates (Nat.iter n (logged1 bc) w) = skippedRefRates w.
Proof.
  induction n as [|n (H1 & H2 & H3 & H4)]; simpl;
    [repeat split; reflexivity|].
  repeat split; assumption.
Qed.

Lemma refs_logged_fields bc refs w :
  dec (refs_logged bc refs w) = dec w
  /\ seenItems (refs_logged bc refs w) = seenItems w
  /\ keptItems (refs_logged bc refs w) = keptItems w
  /\ skippedRefRates (refs_logged bc refs w)
     = if (0 <? length refs)%nat then incr64 (skippedRefRates w)
       else skippedRefRates w.
Proof.
  unfold refs_logged. destruct (0 <? length refs)%nat.
  - destruct (iter_logged1_fields bc (length refs)
                (set_skippedRefRates incr64 w)) as (-> & -> & -> & ->).
    repeat split; reflexivity.
  - repeat split; reflexivity.
Qed.

Lemma process_rate_done bc bct na rate w :
  create_ok env (csvName bc) = true ->
  process_rate bc bct na rate w = Ok tt (rate_done bc bct na w rate).
Proof.
  intros Hc. rewrite process_rate_eq. unfold rate_done. cbv zeta.
  destruct (_ || _); [reflexivity|].
  unfold bind. destruct rev eqn:Er.
  - unfold ret. apply emit_rows_ok. unfold ready. now rewrite Er.
  - rewrite (getWriter_ok _ _ Hc). apply emit_rows_ok.
    unfold ready. rewrite Er. split; [reflexivity | apply opened_lookup].
Qed.

Lemma rate_rows_none bc bct na rate :
  (length (ProviderGroups rate) =? 0)%nat
  || (length (NegotiatedPrices rate) =? 0)%nat = true ->
  rate_rows bc bct na rate = [].
Proof.
  intros H. apply length_zero_iff_nil. rewrite length_rate_rows.
  apply orb_true_iff in H as [H|H]; apply Nat.eqb_eq in H.
  - destruct (ProviderGroups rate); [simpl; lia | discriminate].
  - rewrite H. reflexivity.
Qed.

(** What [rate_done] changes. *)
Lemma rate_done_spec bc bct na rate w :
  create_ok env (csvName bc) = true ->
  let w' := rate_done bc bct na w rate in
  rows_written bc w w' (rate_rows bc bct na rate)
  /\ outRows w'
     = Nat.iter (length (rate_rows bc bct na rate)) incr64 (outRows w)
  /\ unres_records w'
     = (fun old =>
          old ++ repeat [bc; "ref_id"] (length (ProviderReferences rate)))
         <$> unres_records w
  /\ skippedRefIDs w'
     = Nat.iter (length (ProviderReferences rate)) incr64 (skippedRefIDs w)
  /\ skippedRefRates w'
     = (if (0 <? length (ProviderReferences rate))%nat
        then incr64 (skippedRefRates w) else skippedRefRates w)
  /\ seenItems w' = seenItems w
  /\ keptItems w' = keptItems w.
Proof.
  intros Hc. cbv zeta.
  pose proof (process_rate_done bc bct na rate w Hc) as Hdone.
  unfold rate_done in *. cbv zeta in *.
  set (w1 := refs_logged bc (ProviderReferences rate) w) in *.
  destruct (refs_logged_frame bc (ProviderReferences rate) w) as [Hw Ho].
  destruct (refs_logged_fields bc (ProviderReferences rate) w)
    as (_ & Hs & Hk & Hr).
  pose proof (refs_logged_unres bc (ProviderReferences rate) w) as Hu.
  pose proof (refs_logged_count bc (ProviderReferences rate) w) as Hn.
  fold w1 in Hw, Ho, Hs, Hk, Hr, Hu, Hn.
  destruct (_ || _) eqn:E.
  - rewrite (rate_rows_none _ _ _ _ E).
    split; [|repeat split; assumption].
    split; [left; split; [reflexivity | now rewrite Hw]|].
    intros c _. now rewrite Hw.
  - set (rows := rate_rows bc bct na rate) in *.
    set (w2 := match rev with Rev1 => w1 | RevR2 => opened bc w1 end) in *.
    assert (Hw2 : seenItems w2 = seenItems w1
                  /\ keptItems w2 = keptItems w1
                  /\ skippedRefRates w2 = skippedRefRates w1
                  /\ skippedRefIDs w2 = skippedRefIDs w1
                  /\ unres w2 = unres w1).
    { unfold w2, opened. destruct rev; [repeat split; reflexivity|].
      destruct (writers w1 !! bc); repeat split; reflexivity. }
    destruct Hw2 as (G2 & G3 & G4 & G5 & G6).
    destruct (emitted_frame bc rows w2) as (_ & F2 & F3 & F4 & F5 & F6).
    apply orb_false_iff in E as [E1 E2].
    apply Nat.eqb_neq in E1, E2.
    destruct (process_rate_rows bc bct na rate w Hc)
      as (w' & Hrun & Hrows & Hout).
    { intros H0. apply E1. now rewrite H0. }
    { intros H0. apply E2. now rewrite H0. }
    rewrite Hrun in Hdone. injection Hdone as ->.
    split; [exact Hrows|]. split; [exact Hout|].
    split; [unfold unres_records at 1; rewrite F6, G6; exact Hu|].
    split; [rewrite F5, G5; exact Hn|].
    split; [rewrite F4, G4; exact Hr|].
    split; [rewrite F2, G2; exact Hs | rewrite F3, G3; exact Hk].
Qed.

Lemma process_item_done it w :
  (passes_filter it = true ->
   create_ok env (csvName (item_code it)) = true) ->
  process_item it w = Ok tt (item_done w it).
Proof.
  intros Hc. unfold item_done.
  destruct (passes_filter it) eqn:Hp.
  - specialize (Hc eq_refl). rewrite (process_item_kept it w Hp).
    unfold bind, modify. fold (item_code it) (item_type it).
    generalize (set_keptItems incr64 (set_seenItems incr64 w)) as w0.
    induction (NegotiatedRates it) as [|rate rates IH]; intros w0; simpl.
    + reflexivity.
    + unfold bind. rewrite (process_rate_done _ _ _ _ _ Hc). apply IH.
  - clear Hc. unfold passes_filter in Hp. unfold process_item.
    unfold bind, modify, ret.
    destruct (HasPrefix _ "CPT"); simpl in *; [|reflexivity].
    destruct (String.eqb (TrimSpace' (BillingCode it)) ""); simpl in *;
      [reflexivity|].
    rewrite Hp. reflexivity.
Qed.

Lemma tabled_ext R R' w :
  (forall c, R c = R' c) -> tabled R w -> tabled R' w.
Proof. intros H Ht c. rewrite <- H. apply Ht. Qed.

Lemma tabled_written R bc rows w w' :
  tabled R w -> rows_written bc w w' rows ->
  tabled (fun c => if String.eqb bc c then R c ++ rows else R c) w'.
Proof.
  intros Ht [Hd Ho] c. destruct (String.eqb bc c) eqn:E.
  - apply String.eqb_eq in E. subst c.
    destruct Hd as [[-> Hl]|Htab].
    + rewrite app_nil_r, Hl. apply Ht.
    + unfold table, opened in Htab. destruct (Ht bc) as [[Hn Hr]|(f & Hf & Hr)].
      * rewrite Hn in Htab. simpl in Htab.
        rewrite lookup_insert_eq, records_newFile in Htab.
        right. destruct (writers w' !! bc) as [f'|]; [|discriminate].
        exists f'. split; [reflexivity|]. rewrite Htab, Hr. reflexivity.
      * rewrite Hf in Htab. rewrite Hf in Htab.
        right. destruct (writers w' !! bc) as [f'|].
        -- exists f'. split; [reflexivity|]. rewrite Htab, Hr. reflexivity.
        -- rewrite Hr in Htab. discriminate.
  - apply String.eqb_neq in E. rewrite (Ho c) by congruence. apply Ht.
Qed.

Lemma extracting_start its bc w :
  extracted its w ->
  extracting its bc [] [] 0 (set_keptItems incr64 (set_seenItems incr64 w)).
Proof.
  intros (Ht & Hu & Hs & Hk & Ho & Hr & Hi).
  split; [|split; [|split; [|split; [|split; [|split]]]]]; simpl.
  - apply (tabled_ext (fun c => rows_of_code c its)); [|exact Ht].
    intros c. destruct (String.eqb bc c); now rewrite app_nil_r.
  - rewrite app_nil_r. exact Hu.
  - rewrite Hs. apply incr64_wrap64.
  - rewrite Hk. apply incr64_wrap64.
  - rewrite Ho. f_equal. lia.
  - rewrite Hr. f_equal. lia.
  - rewrite Hi. f_equal. lia.
Qed.

Lemma extracting_rate its bc bct na rows refs n rate w :
  create_ok env (csvName bc) = true ->
  extracting its bc rows refs n w ->
  extracting its bc (rows ++ rate_rows bc bct na rate)
    (refs ++ repeat [bc; "ref_id"] (length (ProviderReferences rate)))
    (n + length (List.filter
                   (fun rate => (0 <? length (ProviderReferences rate))%nat)
                   [rate]))
    (rate_done bc bct na w rate).
Proof.
  intros Hc (Ht & Hu & Hs & Hk & Ho & Hr & Hi).
  destruct (rate_done_spec bc bct na rate w Hc)
    as (Hrows & Hout & Hunres & Hids & Hrates & Hseen & Hkept).
  split; [|split; [|split; [|split; [|split; [|split]]]]].
  - eapply tabled_ext; [|apply (tabled_written _ _ _ _ _ Ht Hrows)].
    intros c. cbv beta. destruct (String.eqb bc c).
    + now rewrite <- app_assoc.
    + reflexivity.
  - rewrite Hunres, Hu. simpl. now rewrite <- app_assoc.
  - now rewrite Hseen.
  - now rewrite Hkept.
  - rewrite Hout, Ho, iter_incr64, length_app. f_equal. lia.
  - rewrite Hrates, Hr. simpl.
    destruct (0 <? length (ProviderReferences rate))%nat; simpl.
    + rewrite incr64_wrap64. f_equal. lia.
    + f_equal. lia.
  - rewrite Hids, Hi, iter_incr64, length_app, repeat_length. f_equal. lia.
Qed.

Lemma extracting_rates its bc bct na rates :
  create_ok env (csvName bc) = true ->
  forall rows refs n w,
    extracting its bc rows refs n w ->
    extracting its bc (rows ++ flat_map (rate_rows bc bct na) rates)
      (refs ++ flat_map (fun rate =>
                 repeat [bc; "ref_id"] (length (ProviderReferences rate)))
                 rates)
      (n + length (List.filter
                     (fun rate => (0 <? length (ProviderReferences rate))%nat)
                     rates))
      (fold_left (rate_done bc bct na) rates w).
Proof.
  intros Hc. induction rates as [|rate rates IH]; intros rows refs n w H.
  - simpl. rewrite !app_nil_r, Nat.add_0_r. exact H.
  - pose proof (IH _ _ _ _ (extracting_rate _ _ bct na _ _ _ rate _ Hc H))
      as H'.
    cbn [fold_left flat_map]. rewrite !app_assoc.
    replace (n + length (List.filter
                  (fun rate0 => (0 <? length (ProviderReferences rate0))%nat)
                  (rate :: rates)))%nat
      with (n + length (List.filter
                  (fun rate0 => (0 <? length (ProviderReferences rate0))%nat)
                  [rate])
            + length (List.filter
                  (fun rate0 => (0 <? length (ProviderReferences rate0))%nat)
                  rates))%nat.
    + exact H'.
    + simpl. destruct (0 <? length (ProviderReferences rate))%nat; simpl; lia.
Qed.

Lemma rows_of_code_snoc c its it :
  rows_of_code c (its ++ [it])
  = rows_of_code c its
    ++ (if String.eqb (item_code it) c then item_rows it else []).
Proof.
  unfold rows_of_code. rewrite flat_map_app. simpl. now rewrite app_nil_r.
Qed.

Lemma flat_map_snoc {A B} (f : A -> list B) l x :
  flat_map f (l ++ [x]) = flat_map f l ++ f x.
Proof. rewrite flat_map_app. simpl. now rewrite app_nil_r. Qed.

Lemma extracted_item its it w :
  (passes_filter it = true ->
   create_ok env (csvName (item_code it)) = true) ->
  extracted its w -> extracted (its ++ [it]) (item_done w it).
Proof.
  intros Hc H. unfold item_done, extracted.
  rewrite !flat_map_snoc, List.filter_app, !length_app. cbn [List.filter].
  assert (Hrows : item_rows it
            = if passes_filter it then
                flat_map (rate_rows (item_code it) (item_type it)
                            (anyToString (NegotiationArrangement it)))
                  (NegotiatedRates it)
              else []) by reflexivity.
  assert (Hrefs : item_refs it
            = if passes_filter it then
                flat_map (fun rate =>
                  repeat [item_code it; "ref_id"]
                    (length (ProviderReferences rate))) (NegotiatedRates it)
              else []) by reflexivity.
  assert (Hrates : item_ref_rates it
            = if passes_filter it then
                List.filter
                  (fun rate => (0 <? length (ProviderReferences rate))%nat)
                  (NegotiatedRates it)
              else []) by reflexivity.
  destruct (passes_filter it) eqn:Hp.
  - specialize (Hc eq_refl).
    pose proof (extracting_rates its (item_code it) (item_type it)
                  (anyToString (NegotiationArrangement it))
                  (NegotiatedRates it) Hc _ _ _ _
                  (extracting_start its (item_code it) w H))
      as (Ht & Hu & Hs & Hk & Ho & Hr & Hi).
    cbn [app Nat.add] in *. rewrite <- Hrows, <- Hrefs, <- Hrates in *.
    split; [|split; [|split; [|split; [|split; [|split]]]]].
    + eapply tabled_ext; [|exact Ht]. intros c. cbv beta.
      now rewrite rows_of_code_snoc.
    + exact Hu.
    + rewrite Hs. f_equal. simpl length. lia.
    + rewrite Hk. f_equal. simpl length. lia.
    + rewrite Ho. f_equal. lia.
    + rewrite Hr. f_equal. lia.
    + rewrite Hi. f_equal. lia.
  - destruct H as (Ht & Hu & Hs & Hk & Ho & Hr & Hi).
    rewrite Hrows, Hrefs, Hrates.
    split; [|split; [|split; [|split; [|split; [|split]]]]]; simpl.
    + eapply tabled_ext; [|exact Ht]. intros c. cbv beta.
      rewrite rows_of_code_snoc, Hrows.
      destruct (String.eqb (item_code it) c); now rewrite app_nil_r.
    + rewrite app_nil_r. exact Hu.
    + rewrite Hs, incr64_wrap64. f_equal. lia.
    + rewrite Hk. f_equal. lia.
    + rewrite Ho. f_equal. lia.
    + rewrite Hr. f_equal. lia.
    + rewrite Hi. f_equal. lia.
Qed.

Lemma extracted_started : extracted [] started.
Proof.
  split; [|split; [|repeat split; reflexivity]].
  - intros c. left. split; [|reflexivity].
    simpl. apply lookup_empty.
  - unfold unres_records, started. simpl. now rewrite records_newFile.
Qed.

Lemma extracted_items items its :
  decodable items its ->
  forall done w,
    extracted done w ->
    extracted (done ++ its) (fold_left item_done its w).
Proof.
  induction 1 as [|v it items its [_ Hc] _ IH]; intros done w H.
  - now rewrite app_nil_r.
  - cbn [fold_left].
    replace (done ++ it :: its) with ((done ++ [it]) ++ its)
      by now rewrite <- app_assoc.
    apply IH. now apply extracted_item.
Qed.

Lemma items_outcome_done items its :
  decodable items its ->
  forall rest w,
    items_outcome (items ++ rest) w
    = items_outcome rest (fold_left item_done its w).
Proof.
  induction 1 as [|v it items its [Hd Hc] _ IH]; intros rest w.
  - reflexivity.
  - cbn [app items_outcome fold_left]. rewrite Hd.
    rewrite (process_item_done it w Hc). apply IH.
Qed.

Lemma table_closed w c :
  table (close_unres (finish w)) c = table w c.
Proof.
  unfold table. rewrite writers_finish, lookup_fmap.
  destruct (writers w !! c); [apply records_flush_close | reflexivity].
Qed.

Lemma tabled_table R w c :
  tabled R w ->
  table w c = header :: R c \/ (table w c = [] /\ R c = []).
Proof.
  intros H. unfold table. destruct (H c) as [[-> Hr]|(f & -> & Hr)]; auto.
Qed.

(** The run on a document whose array's elements all decode. *)
Lemma run_done pre items its tl :
  skipped_members pre ->
  mkdir_ok env = true -> create_ok env unresName = true ->
  decodable items its ->
  run (root_prefix pre items ++ tl)
  = Ok tt
      (close_unres
         (finish (set_dec (fun _ => tl) (fold_left item_done its started)))).
Proof.
  intros Hpre Hm Hc Hd. rewrite (run_document pre items tl Hpre), Hm, Hc.
  cbn [andb]. unfold document_outcome.
  rewrite <- (app_nil_r items), (items_outcome_done items its Hd).
  reflexivity.
Qed.

(** X1.  On a document whose root object holds the "in_network" array after
    members of other keys, when the outputs can be created and every
    element of the array decodes to an item, [main] returns, and the table
    of each code holds the header followed by the rows of the items of that
    code that pass the filter: the rows of each item in the order of its
    rate groups, provider groups, prices and NPIs, the items in the order
    of the array.  A code without rows has no table, or a table with the
    header only. *)
Theorem tables_hold_the_rows_of_the_kept_items pre items its tl :
  skipped_members pre ->
  mkdir_ok env = true -> create_ok env unresName = true ->
  decodable items its ->
  exists w,
    run (root_prefix pre items ++ tl) = Ok tt w
    /\ forall c,
         table w c = header :: rows_of_code c its
         \/ (table w c = [] /\ rows_of_code c its = []).
Proof.
  intros Hpre Hm Hc Hd. eexists.
  split; [apply (run_done _ _ _ _ Hpre Hm Hc Hd)|].
  intros c. rewrite table_closed.
  destruct (extracted_items items its Hd [] started extracted_started)
    as (Ht & _).
  apply (tabled_table _ _ c) in Ht. exact Ht.
Qed.

(** X2.  On a document whose root object holds the "in_network" array after
    members of other keys, when the outputs can be created and every
    element of the array decodes to an item, the unresolved-references
    table holds, after its header, one record for every provider reference
    of every rate group of every item that passes the filter, in document
    order, each with the item's code and the placeholder; [skippedRefIDs]
    counts these records and [skippedRefRates] the rate groups that hold a
    reference (modulo 2^64). *)
Theorem unresolved_table_holds_the_references pre items its tl :
  skipped_members pre ->
  mkdir_ok env = true -> create_ok env unresName = true ->
  decodable items its ->
  exists w,
    run (root_prefix pre items ++ tl) = Ok tt w
    /\ unres_records w = Some (unresHeader :: flat_map item_refs its)
    /\ skippedRefIDs w = wrap64 (Z.of_nat (length (flat_map item_refs its)))
    /\ skippedRefRates w
       = wrap64 (Z.of_nat (length (flat_map item_ref_rates its))).
Proof.
  intros Hpre Hm Hc Hd. eexists.
  split; [apply (run_done _ _ _ _ Hpre Hm Hc Hd)|].
  destruct (extracted_items items its Hd [] started extracted_started)
    as (_ & Hu & _ & _ & _ & Hr & Hi).
  cbn [app] in *. split; [|split].
  - unfold unres_records in *. rewrite unres_finish. cbn [unres set_dec].
    destruct (unres (fold_left item_done its started)) as [u|];
      [|discriminate].
    simpl in *. rewrite !records_flush_close. exact Hu.
  - rewrite <- Hi. unfold finish. destruct rev; reflexivity.
  - rewrite <- Hr. unfold finish. destruct rev; reflexivity.
Qed.

(** X3.  On a document whose root object holds the "in_network" array after
    members of other keys, when the outputs can be created and every
    element of the array decodes to an item, the counters end as the
    numbers of the elements of the array, of the items that pass the
    filter, and of the rows of these items (modulo 2^64); revision 1 prints
    them in its summary, the last thing it prints. *)
Theorem counters_count_items_and_rows pre items its tl :
  skipped_members pre ->
  mkdir_ok env = true -> create_ok env unresName = true ->
  decodable items its ->
  exists w,
    run (root_prefix pre items ++ tl) = Ok tt w
    /\ seenItems w = wrap64 (Z.of_nat (length its))
    /\ keptItems w
       = wrap64 (Z.of_nat (length (List.filter passes_filter its)))
    /\ outRows w = wrap64 (Z.of_nat (length (flat_map item_rows its)))
    /\ (rev = Rev1 ->
        exists o,
          stdout w
          = o ++ [Summary (seenItems w) (keptItems w) (outRows w)
                    (skippedRefRates w) (skippedRefIDs w)]).
Proof.
  intros Hpre Hm Hc Hd. eexists.
  split; [apply (run_done _ _ _ _ Hpre Hm Hc Hd)|].
  destruct (extracted_items items its Hd [] started extracted_started)
    as (_ & _ & Hs & Hk & Ho & _ & _).
  cbn [app] in *. unfold finish. rewrite <- Hs, <- Hk, <- Ho.
  destruct rev; (split; [reflexivity|]); (split; [reflexivity|]);
    (split; [reflexivity|]); intros Hr; [|discriminate].
  eexists. reflexivity.
Qed.

(** *** The counter of the rows *)

Lemma data_rows_total_insert c f (m : gmap string csvFile) :
  m !! c = None ->
  data_rows_total (<[c := f]> m)
  = (length (records f) - 1 + data_rows_total m)%nat.
Proof.
  intros H. unfold data_rows_total.
  rewrite map_fold_insert_L; [reflexivity | intros; lia | exact H].
Qed.

Lemma data_rows_total_lookup c f (m : gmap string csvFile) :
  m !! c = Some f ->
  data_rows_total m
  = (length (records f) - 1 + data_rows_total (delete c m))%nat.
Proof.
  intros H. rewrite <- (insert_delete_id m c f H) at 1.
  apply data_rows_total_insert, lookup_delete_eq.
Qed.

Lemma data_rows_total_alter c f row (m : gmap string csvFile) :
  m !! c = Some f -> records f <> [] ->
  data_rows_total (alter (csv_Write row) c m) = S (data_rows_total m).
Proof.
  intros H Hne. rewrite (alter_alt_Some _ _ _ _ H), <- insert_delete_eq.
  rewrite data_rows_total_insert by apply lookup_delete_eq.
  rewrite (data_rows_total_lookup c f m H).
  rewrite records_Write, length_app. simpl.
  destruct (records f); [congruence | simpl; lia].
Qed.

Lemma data_rows_total_closed (m : gmap string csvFile) :
  data_rows_total (flush_close <$> m) = data_rows_total m.
Proof.
  induction m as [|c f m Hc IH] using map_ind.
  - now rewrite fmap_empty.
  - rewrite fmap_insert, !data_rows_total_insert, IH, records_flush_close;
      [reflexivity | exact Hc | now rewrite lookup_fmap, Hc].
Qed.

Lemma rows_counted_open bc w :
  rows_counted w -> writers w !! bc = None ->
  rows_counted (set_writers (insert bc (csv_Write header newFile)) w).
Proof.
  intros [Hne Hn] E. split; simpl.
  - intros c f. rewrite lookup_insert.
    destruct (decide (bc = c)); [|apply Hne].
    intros [= <-]. rewrite records_newFile. discriminate.
  - rewrite (data_rows_total_insert _ _ _ E), records_newFile. exact Hn.
Qed.

Lemma rows_counted_write bc row w :
  rows_counted w -> is_Some (writers w !! bc) ->
  rows_counted
    (set_outRows incr64 (set_writers (alter (csv_Write row) bc) w)).
Proof.
  intros [Hne Hn] [f0 E]. split; simpl.
  - intros c f. rewrite lookup_alter.
    destruct (decide (bc = c)) as [<-|]; [|apply Hne].
    rewrite E. intros [= <-]. rewrite records_Write.
    intros H. now apply app_eq_nil in H as [_ H].
  - rewrite (data_rows_total_alter _ _ _ _ E (Hne _ _ E)), Hn, incr64_wrap64.
    f_equal. lia.
Qed.

(** X6.  However the run ends, [outRows] is the number of data rows in the
    tables, the records after their headers (modulo 2^64): a row is
    counted when it is written, and only then. *)
Theorem rows_counter_matches_tables ts w :
  final_state (run ts) = Some w ->
  outRows w = wrap64 (Z.of_nat (data_rows_total (writers w))).
Proof.
  intros Hend.
  pose proof (run_maintains rows_counted) as Hrun.
  specialize (Hrun (fun d w Hw => Hw) (fun w Hw => Hw) (fun w Hw => Hw)
                (fun w Hw => Hw) (fun bc w _ _ Hw => Hw)).
  assert (Ho : forall bc, bc ∈ allowed -> bc <> "" -> rev = RevR2 ->
                 maintains rows_counted (getWriter bc)).
  { intros bc _ _ _ w0 Hw. unfold getWriter.
    destruct (writers w0 !! bc) eqn:E; [exact Hw|].
    destruct (create_ok env (csvName bc)); [|exact Hw].
    now apply rows_counted_open. }
  assert (He : forall bc bct na tinType tinVal p npi,
             bc ∈ allowed -> bc <> "" -> HasPrefix bct "CPT" = true ->
             maintains
               (fun w => rows_counted w
                         /\ (rev = RevR2 -> is_Some (writers w !! bc)))
               (emit_row (match rev with Rev1 => "" | RevR2 => bc end) bc
                  (price_row bc bct na tinType tinVal p npi))).
  { intros bc bct na tinType tinVal p npi _ _ _ w0 [Hw Hs].
    set (row := price_row bc bct na tinType tinVal p npi).
    assert (Hkeep : forall m : gmap string csvFile,
              is_Some (m !! bc) ->
              is_Some (alter (csv_Write row) bc m !! bc)).
    { intros m [f E]. rewrite lookup_alter_eq, E. simpl. eauto. }
    unfold emit_row, bind, getWriter, ret, wp_Write, modify, gets.
    destruct rev; simpl.
    - destruct (writers w0 !! bc) as [f|] eqn:E; simpl.
      + destruct ((0 <? progressEvery) && _); simpl;
          (split; [|discriminate]);
          exact (rows_counted_write bc row w0 Hw (ex_intro _ f E)).
      + destruct (create_ok env (csvName bc)); simpl;
          [|split; [exact Hw | discriminate]].
        assert (Hs' : is_Some
                        (writers (set_writers
                                    (insert bc (csv_Write header newFile))
                                    w0) !! bc))
          by (simpl; rewrite lookup_insert_eq; eauto).
        destruct ((0 <? progressEvery) && _); simpl;
          (split; [|discriminate]);
          exact (rows_counted_write bc row _
                   (rows_counted_open bc w0 Hw E) Hs').
    - specialize (Hs eq_refl).
      destruct ((0 <? progressEvery) && _); simpl;
        (split; [|intros _; now apply Hkeep]);
        exact (rows_counted_write bc row w0 Hw Hs). }
  assert (H0 : rows_counted
                 (set_unres (fun _ => Some (csv_Write unresHeader newFile))
                    (start ts))).
  { split; [|reflexivity]. intros c f. simpl. rewrite lookup_empty.
    discriminate. }
  specialize (Hrun Ho He ts H0).
  destruct (run ts) as [[] w'|e w'|]; simpl in Hend; [| |discriminate];
    injection Hend as ->.
  - destruct Hrun as (w1 & [_ Hw1] & ->).
    rewrite writers_finish, data_rows_total_closed, <- Hw1.
    unfold finish. destruct rev; reflexivity.
  - destruct Hrun as [->|(w1 & [_ Hw1] & ->)]; [reflexivity | exact Hw1].
Qed.

(** *** The cadence of the progress line *)

Lemma div_succ t n :
  0 <= t -> 0 < n ->
  (t + 1) / n = t / n + (if Z.rem (t + 1) n =? 0 then 1 else 0).
Proof.
  intros Ht Hn. rewrite Z.rem_mod_nonneg by lia.
  pose proof (Z.div_mod t n ltac:(lia)) as Hdm.
  pose proof (Z.mod_pos_bound t n Hn) as Hb.
  destruct (Z.eq_dec (t mod n + 1) n) as [E|E].
  - assert (Hm : (t + 1) mod n = 0).
    { symmetry. apply (Z.mod_unique (t + 1) n (t / n + 1) 0); lia. }
    rewrite Hm. simpl.
    symmetry. apply (Z.div_unique (t + 1) n (t / n + 1) 0); lia.
  - assert (Hm : (t + 1) mod n = t mod n + 1).
    { symmetry. apply (Z.mod_unique (t + 1) n (t / n) (t mod n + 1)); lia. }
    rewrite Hm. destruct (t mod n + 1 =? 0) eqn:Ez; [lia|].
    symmetry. rewrite Z.add_0_r.
    apply (Z.div_unique (t + 1) n (t / n) (t mod n + 1)); lia.
Qed.

Lemma progress_lines_snoc o e :
  progress_lines (o ++ [e])
  = (progress_lines o
     + match e with Progress _ _ => 1 | _ => 0 end)%nat.
Proof.
  unfold progress_lines. rewrite List.filter_app, length_app.
  destruct e; reflexivity.
Qed.

Lemma progress_counted_open bc w :
  progress_counted w -> writers w !! bc = None ->
  progress_counted (set_writers (insert bc (csv_Write header newFile)) w).
Proof.
  intros [Hc Hp] E. split; [now apply rows_counted_open|].
  simpl. rewrite (data_rows_total_insert _ _ _ E), records_newFile.
  exact Hp.
Qed.

(** The state after a row was written and counted, and the progress line
    printed if it is due. *)
Lemma progress_counted_write bc row w :
  0 < progressEvery ->
  progress_counted w -> is_Some (writers w !! bc) ->
  let w1 := set_outRows incr64 (set_writers (alter (csv_Write row) bc) w) in
  progress_counted
    (if (0 <? progressEvery) && (Z.rem (outRows w1) progressEvery =? 0)
     then set_stdout (fun o => o ++ [Progress (keptItems w1) (outRows w1)]) w1
     else w1).
Proof.
  intros Hn [Hc Hp] Hs. cbv zeta.
  pose proof (rows_counted_write bc row w Hc Hs) as Hc1.
  set (w1 := set_outRows incr64 (set_writers (alter (csv_Write row) bc) w))
    in *.
  assert (Ht : data_rows_total (writers w1) = S (data_rows_total (writers w))).
  { destruct Hs as [f E]. destruct Hc as [Hne _].
    apply (data_rows_total_alter _ _ _ _ E (Hne _ _ E)). }
  assert (Hstep : Z.of_nat (data_rows_total (writers w1)) <= maxInt64 ->
            outRows w1 = Z.of_nat (data_rows_total (writers w)) + 1
            /\ Z.of_nat (progress_lines (stdout w))
               = Z.of_nat (data_rows_total (writers w)) / progressEvery).
  { intros Hle. rewrite Ht in Hle. split; [|apply Hp; lia].
    destruct Hc1 as [_ ->]. rewrite Ht.
    rewrite wrap64_small by (unfold maxInt64 in *; lia). lia. }
  apply Z.ltb_lt in Hn as Hn'. rewrite Hn'. cbn [andb].
  destruct (Z.rem (outRows w1) progressEvery =? 0) eqn:Er.
  - split; [exact Hc1|]. intros Hle. destruct (Hstep Hle) as [Ho Hl].
    change (stdout (set_stdout _ w1))
      with (stdout w ++ [Progress (keptItems w1) (outRows w1)]).
    change (writers (set_stdout _ w1)) with (writers w1).
    rewrite progress_lines_snoc, Ht, Nat2Z.inj_add, Hl.
    change (Z.of_nat 1) with 1.
    rewrite (Nat2Z.inj_succ (data_rows_total (writers w))), <- Z.add_1_r.
    rewrite (div_succ _ _ (Nat2Z.is_nonneg _) Hn).
    rewrite Ho in Er. now rewrite Er.
  - split; [exact Hc1|]. intros Hle. destruct (Hstep Hle) as [Ho Hl].
    change (stdout w1) with (stdout w).
    rewrite Ht, Hl.
    rewrite (Nat2Z.inj_succ (data_rows_total (writers w))), <- Z.add_1_r.
    rewrite (div_succ _ _ (Nat2Z.is_nonneg _) Hn).
    rewrite Ho in Er. rewrite Er. lia.
Qed.

(** X11.  With a cadence above zero, and as long as the number of rows written
    fits the counter, one progress line is printed each time the number of
    rows written reaches a multiple of the cadence: however the run ends,
    it has printed as many progress lines as the cadence goes into the
    number of data rows in the tables. *)
Theorem progress_line_every_cadence_rows ts w :
  0 < progressEvery ->
  final_state (run ts) = Some w ->
  Z.of_nat (data_rows_total (writers w)) <= maxInt64 ->
  Z.of_nat (progress_lines (stdout w))
  = Z.of_nat (data_rows_total (writers w)) / progressEvery.
Proof.
  intros Hn Hend.
  pose proof (run_maintains progress_counted) as Hrun.
  specialize (Hrun (fun d w Hw => Hw) (fun w Hw => Hw) (fun w Hw => Hw)
                (fun w Hw => Hw) (fun bc w _ _ Hw => Hw)).
  assert (Ho : forall bc, bc ∈ allowed -> bc <> "" -> rev = RevR2 ->
                 maintains progress_counted (getWriter bc)).
  { intros bc _ _ _ w0 Hw. unfold getWriter.
    destruct (writers w0 !! bc) eqn:E; [exact Hw|].
    destruct (create_ok env (csvName bc)); [|exact Hw].
    now apply progress_counted_open. }
  assert (He : forall bc bct na tinType tinVal p npi,
             bc ∈ allowed -> bc <> "" -> HasPrefix bct "CPT" = true ->
             maintains
               (fun w => progress_counted w
                         /\ (rev = RevR2 -> is_Some (writers w !! bc)))
               (emit_row (match rev with Rev1 => "" | RevR2 => bc end) bc
                  (price_row bc bct na tinType tinVal p npi))).
  { intros bc bct na tinType tinVal p npi _ _ _ w0 [Hw Hs].
    set (row := price_row bc bct na tinType tinVal p npi).
    assert (Hkeep : forall m : gmap string csvFile,
              is_Some (m !! bc) ->
              is_Some (alter (csv_Write row) bc m !! bc)).
    { intros m [f E]. rewrite lookup_alter_eq, E. simpl. eauto. }
    unfold emit_row, bind, getWriter, ret, wp_Write, modify, gets.
    destruct rev; simpl.
    - destruct (writers w0 !! bc) as [f|] eqn:E; simpl.
      + pose proof (progress_counted_write bc row w0 Hn Hw (ex_intro _ f E))
          as Hw1. cbv zeta in Hw1.
        destruct ((0 <? progressEvery) && _); simpl;
          (split; [exact Hw1 | discriminate]).
      + destruct (create_ok env (csvName bc)); simpl;
          [|split; [exact Hw | discriminate]].
        assert (Hs' : is_Some
                        (writers (set_writers
                                    (insert bc (csv_Write header newFile))
                                    w0) !! bc))
          by (simpl; rewrite lookup_insert_eq; eauto).
        pose proof (progress_counted_write bc row _ Hn
                      (progress_counted_open bc w0 Hw E) Hs') as Hw1.
        cbv zeta in Hw1.
        destruct ((0 <? progressEvery) && _); simpl;
          (split; [exact Hw1 | discriminate]).
    - specialize (Hs eq_refl).
      pose proof (progress_counted_write bc row w0 Hn Hw Hs) as Hw1.
      cbv zeta in Hw1.
      destruct ((0 <? progressEvery) && _); simpl;
        (split; [exact Hw1 | intros _; now apply Hkeep]). }
  assert (H0 : progress_counted
                 (set_unres (fun _ => Some (csv_Write unresHeader newFile))
                    (start ts))).
  { split.
    - split; [|reflexivity]. intros c f. simpl. rewrite lookup_empty.
      discriminate.
    - intros _. simpl. unfold data_rows_total. rewrite map_fold_empty.
      simpl. symmetry. apply Z.div_0_l. lia. }
  specialize (Hrun Ho He ts H0).
  destruct (run ts) as [[] w'|e w'|]; simpl in Hend; [| |discriminate];
    injection Hend as ->.
  - destruct Hrun as (w1 & [_ Hw1] & ->).
    rewrite writers_finish, data_rows_total_closed.
    intros Hle. rewrite <- (Hw1 Hle).
    unfold finish. destruct rev; [|reflexivity].
    cbn [stdout set_stdout close_unres set_unres close_writers set_writers].
    rewrite progress_lines_snoc. simpl. now rewrite Nat.add_0_r.
  - destruct Hrun as [->|(w1 & [_ Hw1] & ->)]; [|exact Hw1].
    intros _. simpl. unfold data_rows_total. rewrite map_fold_empty.
    simpl. symmetry. apply Z.div_0_l. lia.
Qed.

(** *** Documents the run gives up on *)

(** X13.  An element of the array that does not decode to an item ends the run:
    [main] panics with the decoder's error, the elements after it are not
    read (they are still in the decoder), and the element is not counted.
    The tables hold the rows of the items before it. *)
Theorem undecodable_item_ends_the_run pre good its bad later tl :
  skipped_members pre ->
  mkdir_ok env = true -> create_ok env unresName = true ->
  decodable good its ->
  unmarshal_Item env (tokens bad) = None ->
  exists w,
    run (root_prefix pre (good ++ bad :: later) ++ tl) = Panic ErrDecode w
    /\ dec w = elems_tokens later ++ Delim "]" :: tl
    /\ seenItems w = wrap64 (Z.of_nat (length its))
    /\ forall c,
         table w c = header :: rows_of_code c its
         \/ (table w c = [] /\ rows_of_code c its = []).
Proof.
  intros Hpre Hm Hc Hd Hbad.
  rewrite (run_document pre _ tl Hpre), Hm, Hc.
  cbn [andb]. unfold document_outcome.
  rewrite (items_outcome_done good its Hd). cbn [items_outcome].
  rewrite Hbad. cbn [on_world]. eexists. split; [reflexivity|].
  destruct (extracted_items good its Hd [] started extracted_started)
    as (Ht & _ & Hs & _).
  split; [reflexivity|]. split; [exact Hs|].
  intros c. apply (tabled_table _ _ c) in Ht. exact Ht.
Qed.

Lemma process_items_cut items :
  forall fuel w,
    (length items < fuel)%nat ->
    process_items fuel (set_dec (fun _ => elems_tokens items) w)
    = match items_outcome items w with
      | (_, Ok _ w') =>
          if More_at_end env then Panic ErrDecode (set_dec (fun _ => []) w')
          else Ok tt (set_dec (fun _ => []) w')
      | (rem, Panic e w') => Panic e (set_dec (fun _ => elems_tokens rem) w')
      | (_, OutOfFuel) => OutOfFuel
      end.
Proof.
  induction items as [|v vs IH]; intros fuel w Hf;
    (destruct fuel as [|fuel]; [simpl in Hf; lia|]).
  - cbn [process_items items_outcome]. unfold bind at 1, dec_More, gets.
    cbn [dec set_dec elems_tokens map concat].
    destruct (More_at_end env); reflexivity.
  - simpl in Hf.
    change (elems_tokens (v :: vs)) with (tokens v ++ elems_tokens vs).
    cbn [process_items]. unfold bind at 1. rewrite More_value.
    cbn [negb]. unfold bind at 1. unfold dec_Decode.
    change (dec (set_dec _ w)) with (tokens v ++ elems_tokens vs).
    rewrite readValue_value. cbn [items_outcome].
    destruct (unmarshal_Item env (tokens v)) as [it|]; [|reflexivity].
    unfold bind.
    match goal with
    | |- context [process_item it (set_dec ?f (set_dec ?g w))] =>
        change (set_dec f (set_dec g w))
          with (set_dec (fun _ => elems_tokens vs) w)
    end.
    rewrite dec_free_process_item.
    destruct (process_item it w) as [[] w'|e w'|]; simpl on_world;
      [|reflexivity..].
    apply IH. lia.
Qed.

(** X14.  A document that ends after an element of the array, before the
    closing delimiter of the array: every element is decoded and
    processed, and [main] then panics with an error of the decoder.  Where
    it does depends on what [dec.More()] answers at the end of the input:
    when false, the loop ends and the read of the closing delimiter
    fails; when true, the loop goes on and [dec.Decode] fails.  Either way
    the input is used up and the tables hold the rows of all the items. *)
Theorem array_cut_off_after_items pre items its :
  skipped_members pre ->
  mkdir_ok env = true -> create_ok env unresName = true ->
  decodable items its ->
  exists w,
    run (Delim "{" :: members_tokens pre
           ++ TStr "in_network" :: Delim "[" :: elems_tokens items)
    = Panic (if More_at_end env then ErrDecode else ErrToken) w
    /\ dec w = []
    /\ seenItems w = wrap64 (Z.of_nat (length its))
    /\ forall c,
         table w c = header :: rows_of_code c its
         \/ (table w c = [] /\ rows_of_code c its = []).
Proof.
  intros Hpre Hm Hc Hd. unfold run, main. rewrite Hm, Hc. cbn [negb].
  unfold bind at 1, modify at 1, defer, read_document.
  unfold bind at 1. unfold expectDelim at 1, bind at 1, dec_Token at 1.
  cbn [dec set_dec set_unres start Ascii.eqb Bool.eqb]. unfold ret at 1.
  unfold bind at 1. unfold gets at 1. cbn [dec set_dec].
  unfold bind at 1.
  match goal with
  | |- context [find_in_network ?n ?w0] =>
      change w0 with
        (set_dec (fun _ => members_tokens pre
                             ++ TStr "in_network" :: Delim "["
                                  :: elems_tokens items) started)
  end.
  rewrite (find_in_network_skips pre Hpre).
  2:{ rewrite length_app. pose proof (length_members_tokens pre). lia. }
  cbn [negb]. unfold bind at 1. unfold gets at 1. cbn [dec set_dec].
  unfold bind at 1.
  rewrite (process_items_cut items) by
    (pose proof (length_elems_tokens items); lia).
  pose proof (items_outcome_done items its Hd [] started) as Hio.
  rewrite app_nil_r in Hio. rewrite Hio.
  cbn [items_outcome].
  destruct (extracted_items items its Hd [] started extracted_started)
    as (Ht & _ & Hs & _).
  destruct (More_at_end env).
  - eexists. split; [reflexivity|].
    split; [reflexivity|]. split; [exact Hs|].
    intros c. apply (tabled_table _ _ c) in Ht. exact Ht.
  - unfold bind at 1. unfold expectDelim at 1, bind at 1, dec_Token at 1.
    cbn [dec set_dec]. unfold panic.
    eexists. split; [reflexivity|].
    split; [reflexivity|]. split; [exact Hs|].
    intros c. apply (tabled_table _ _ c) in Ht. exact Ht.
Qed.

Lemma find_in_network_absent pre :
  skipped_members pre ->
  forall fuel tl w,
    (length pre < fuel)%nat ->
    find_in_network fuel
      (set_dec (fun _ => members_tokens pre ++ Delim "}" :: tl) w)
    = Ok false (set_dec (fun _ => Delim "}" :: tl) w).
Proof.
  induction 1 as [|[k v] pre [Hk Hv] _ IH]; intros fuel tl w Hf;
    (destruct fuel as [|fuel]; [simpl in Hf; lia|]).
  - reflexivity.
  - simpl in Hf. rewrite members_tokens_cons.
    cbn [find_in_network]. unfold bind at 1.
    unfold dec_More at 1, gets at 1. cbn [dec set_dec negb].
    unfold bind at 1. unfold expectString at 1, bind at 1, dec_Token at 1.
    cbn [dec set_dec]. unfold ret at 1.
    simpl in Hk. apply String.eqb_neq in Hk. rewrite Hk.
    unfold bind at 1.
    pose proof (skipValue_value v
                  (members_tokens pre ++ Delim "}" :: tl)
                  (set_dec (fun _ => tokens v ++ members_tokens pre
                     ++ Delim "}" :: tl) w)
                  eq_refl Hv) as Hskip.
    match goal with
    | |- context [skipValue ?w1] =>
        change (skipValue w1) with
          (skipValue (set_dec (fun _ => tokens v ++ members_tokens pre
                        ++ Delim "}" :: tl) w))
    end.
    rewrite Hskip.
    apply (IH fuel tl w). lia.
Qed.

(** X15.  A root object without an "in_network" member: the scan skips every
    member, stops in front of the closing delimiter of the object, and
    [main] panics.  No table was opened; the unresolved-references table
    holds its header only, and the deferred call has flushed and closed
    it. *)
Theorem missing_in_network_panics pre tl :
  skipped_members pre ->
  mkdir_ok env = true -> create_ok env unresName = true ->
  exists w u,
    run (tokens (JObj pre) ++ tl) = Panic NoInNetwork w
    /\ dec w = Delim "}" :: tl
    /\ writers w = ∅
    /\ unres w = Some u
    /\ flushed u = [unresHeader] /\ flushed_and_closed u.
Proof.
  intros Hpre Hm Hc. rewrite tokens_JObj.
  unfold run, main. rewrite Hm, Hc. cbn [negb].
  unfold bind at 1, modify at 1, defer.
  unfold read_document.
  unfold bind at 1. unfold expectDelim at 1, bind at 1, dec_Token at 1.
  cbn [dec set_dec set_unres start app Ascii.eqb Bool.eqb]. unfold ret at 1.
  unfold bind at 1. unfold gets at 1. cbn [dec set_dec].
  unfold bind at 1.
  rewrite <- app_assoc. cbn [app].
  match goal with
  | |- context [find_in_network ?n ?w0] =>
      change w0 with
        (set_dec (fun _ => members_tokens pre ++ Delim "}" :: tl)
           (set_unres (fun _ => Some (csv_Write unresHeader newFile))
              (start [])))
  end.
  rewrite (find_in_network_absent pre Hpre).
  2:{ rewrite length_app. pose proof (length_members_tokens pre). lia. }
  cbn [negb]. unfold panic.
  eexists _, _. split; [reflexivity|].
  split; [reflexivity|]. split; [reflexivity|]. split; [reflexivity|].
  apply unres_header_closed.
Qed.

(** *** The allow-set *)

Lemma append_cons c s t :
  String.append (String c s) t = String c (String.append s t).
Proof. reflexivity. Qed.

Lemma append_nil_r s : String.append s "" = s.
Proof.
  induction s as [|c s IH]; [reflexivity|]. now rewrite append_cons, IH.
Qed.

Lemma append_assoc s1 s2 s3 :
  String.append (String.append s1 s2) s3
  = String.append s1 (String.append s2 s3).
Proof.
  induction s1 as [|c s1 IH]; [reflexivity|]. now rewrite !append_cons, IH.
Qed.

Lemma rev_app_rev_app s1 s2 s3 :
  String.rev_app (String.rev_app s1 s2) s3
  = String.rev_app s2 (String.append s1 s3).
Proof.
  revert s2 s3. induction s1 as [|c s1 IH]; intros s2 s3.
  - reflexivity.
  - rewrite append_cons. cbn [String.rev_app]. rewrite IH. reflexivity.
Qed.

Lemma rev_rev s : String.rev (String.rev s) = s.
Proof.
  unfold String.rev. rewrite rev_app_rev_app.
  cbn [String.rev_app]. apply append_nil_r.
Qed.

Lemma forallb_string_rev_app p s1 s2 :
  forallb_string p (String.rev_app s1 s2)
  = forallb_string p s1 && forallb_string p s2.
Proof.
  revert s2. induction s1 as [|c s1 IH]; intros s2; simpl.
  - reflexivity.
  - rewrite IH. simpl. destruct (p c), (forallb_string p s1); reflexivity.
Qed.

Lemma forallb_string_rev p s :
  forallb_string p (String.rev s) = forallb_string p s.
Proof.
  unfold String.rev. rewrite forallb_string_rev_app. simpl.
  now rewrite andb_true_r.
Qed.

Lemma forallb_string_app p s1 s2 :
  forallb_string p (String.append s1 s2)
  = forallb_string p s1 && forallb_string p s2.
Proof.
  induction s1 as [|c s1 IH]; [reflexivity|].
  rewrite append_cons. cbn [forallb_string]. rewrite IH.
  now rewrite andb_assoc.
Qed.

(** [TrimSpace] leaves a text without white space and without bytes that
    are not ASCII at its ends as it is; here, a text without any. *)
Lemma TrimSpace_code s :
  forallb_string (fun c => isASCIIbyte c && negb (asciiSpace c)) s = true ->
  TrimSpace' s = s.
Proof.
  intros H. unfold TrimSpace', TrimSpace.
  destruct s as [|c s]; [reflexivity|].
  pose proof H as Hr. rewrite <- forallb_string_rev in Hr.
  simpl in H. apply andb_prop in H as [Hc _]. apply andb_prop in Hc as [H1 H2].
  cbn [TrimSpace_start]. rewrite H1. cbn [negb].
  apply negb_true_iff in H2. rewrite H2.
  destruct (String.rev (String c s)) as [|d r] eqn:E.
  - apply (f_equal String.rev) in E. rewrite rev_rev in E. discriminate.
  - simpl in Hr. apply andb_prop in Hr as [Hd _].
    apply andb_prop in Hd as [G1 G2]. apply negb_true_iff in G2.
    cbn [TrimSpace_stop]. rewrite G1, G2. cbn [negb].
    rewrite <- E. apply rev_rev.
Qed.

(** [TrimSpace] empties a text of ASCII white space. *)
Lemma TrimSpace_blank s :
  forallb_string asciiSpace s = true -> TrimSpace' s = "".
Proof.
  intros H. unfold TrimSpace', TrimSpace.
  assert (Hs : TrimSpace_start (TrimFunc_IsSpace env) s = inr EmptyString).
  { induction s as [|c s IH]; [reflexivity|].
    simpl in H. apply andb_prop in H as [Hc Hs].
    cbn [TrimSpace_start].
    assert (Ha : isASCIIbyte c = true).
    { unfold asciiSpace, isASCIIbyte, RuneSelf in *.
      apply N.ltb_lt.
      apply orb_prop in Hc as [Hc|Hc].
      - apply andb_prop in Hc as [_ Hc]. apply N.leb_le in Hc. lia.
      - apply N.eqb_eq in Hc. lia. }
    rewrite Ha, Hc. cbn [negb]. now apply IH. }
  rewrite Hs. reflexivity.
Qed.

Lemma FieldsFunc_loop_field f code :
  forallb_string (fun c => negb (f c)) code = true ->
  forall t rest,
    FieldsFunc_loop f (Some t) (String.append code rest)
    = FieldsFunc_loop f (Some (String.append t code)) rest.
Proof.
  induction code as [|c code IH]; intros H t rest.
  - change (String.append "" rest) with rest. now rewrite append_nil_r.
  - simpl in H. apply andb_prop in H as [Hc H].
    apply negb_true_iff in Hc. rewrite append_cons. cbn [FieldsFunc_loop].
    rewrite Hc. rewrite (IH H). cbn [default from_option id].
    rewrite append_assoc. reflexivity.
Qed.

Lemma FieldsFunc_loop_start f code :
  code <> "" ->
  forallb_string (fun c => negb (f c)) code = true ->
  forall rest,
    FieldsFunc_loop f None (String.append code rest)
    = FieldsFunc_loop f (Some code) rest.
Proof.
  intros Hne H rest. destruct code as [|c code]; [congruence|].
  simpl in H. apply andb_prop in H as [Hc H].
  apply negb_true_iff in Hc. rewrite append_cons. cbn [FieldsFunc_loop].
  rewrite Hc. cbn [default from_option].
  rewrite (FieldsFunc_loop_field f code H). reflexivity.
Qed.

Lemma FieldsFunc_loop_sep f sep :
  forallb_string f sep = true ->
  forall rest,
    FieldsFunc_loop f None (String.append sep rest)
    = FieldsFunc_loop f None rest.
Proof.
  induction sep as [|c sep IH]; intros H rest; [reflexivity|].
  simpl in H. apply andb_prop in H as [Hc H].
  rewrite append_cons. cbn [FieldsFunc_loop]. rewrite Hc. now apply IH.
Qed.

Lemma FieldsFunc_loop_end f sep :
  sep <> "" -> forallb_string f sep = true ->
  forall t rest,
    FieldsFunc_loop f (Some t) (String.append sep rest)
    = t :: FieldsFunc_loop f None rest.
Proof.
  intros Hne H t rest. destruct sep as [|c sep]; [congruence|].
  simpl in H. apply andb_prop in H as [Hc H].
  rewrite append_cons. cbn [FieldsFunc_loop]. rewrite Hc.
  f_equal. now apply FieldsFunc_loop_sep.
Qed.

(** The fields of codes joined by a separator are the codes. *)
Lemma FieldsFunc_Join f sep codes :
  sep <> "" -> forallb_string f sep = true ->
  Forall (fun code => code <> ""
            /\ forallb_string (fun c => negb (f c)) code = true) codes ->
  FieldsFunc (Join codes sep) f = codes.
Proof.
  intros Hne Hsep. unfold FieldsFunc, Join.
  induction 1 as [|code codes [Hc1 Hc2] Hall IH]; [reflexivity|].
  cbn [String.concat]. destruct codes as [|code' codes].
  - rewrite <- (append_nil_r code) at 1.
    rewrite (FieldsFunc_loop_start f code Hc1 Hc2). reflexivity.
  - change (code ++ sep ++ String.concat sep (code' :: codes))%string
      with (String.append code
              (String.append sep (String.concat sep (code' :: codes)))).
    rewrite (FieldsFunc_loop_start f code Hc1 Hc2).
    rewrite (FieldsFunc_loop_end f sep Hne Hsep). f_equal. exact IH.
Qed.

Lemma isCodeByte_spec c :
  isCodeByte c = true ->
  isASCIIbyte c && negb (asciiSpace c) = true /\ negb (isCodeSep c) = true.
Proof. unfold isCodeByte. intros H. now apply andb_prop in H. Qed.

Lemma forallb_string_impl (p q : ascii -> bool) s :
  (forall c, p c = true -> q c = true) ->
  forallb_string p s = true -> forallb_string q s = true.
Proof.
  intros Hpq. induction s as [|c s IH]; simpl; [reflexivity|].
  intros H. apply andb_prop in H as [Hc Hs].
  now rewrite (Hpq c Hc), IH.
Qed.

Lemma parse_fold_codes codes :
  Forall (fun code => isCode code = true) codes ->
  forall acc : gset string,
    fold_left (fun allowed tok =>
        let t := TrimSpace' tok in
        if String.eqb t "" then allowed else {[t]} ∪ allowed)
      codes acc
    = list_to_set codes ∪ acc.
Proof.
  induction 1 as [|code codes Hc _ IH]; intros acc.
  - simpl. now rewrite (left_id_L ∅ (∪)).
  - cbn [fold_left list_to_set]. cbv zeta.
    unfold isCode in Hc. apply andb_prop in Hc as [Hne Hb].
    rewrite TrimSpace_code.
    2:{ revert Hb. apply forallb_string_impl. intros c Hcb.
        now apply isCodeByte_spec in Hcb. }
    apply negb_true_iff in Hne. rewrite Hne. rewrite IH.
    rewrite (assoc_L (∪)). f_equal. apply (comm_L (∪)).
Qed.

(** X19.  The codes of [-codes] come back as the allow-set: for codes written
    without white space and commas, joined by a separator made of commas,
    spaces and tabs (a comma, a space, a comma and a space), the allow-set
    holds these codes and nothing else, and the check of the flags lets
    the run start. *)
Theorem codes_flag_round_trip inPath sep codes :
  inPath <> "" -> codes <> [] ->
  sep <> "" -> forallb_string isCodeSep sep = true ->
  Forall (fun code => isCode code = true) codes ->
  parse_codes (Join codes sep) = list_to_set codes
  /\ check_flags inPath (Join codes sep) = Some (list_to_set codes).
Proof.
  intros Hin Hcodes Hne Hsep Hall.
  assert (Hf : FieldsFunc (Join codes sep) isCodeSep = codes).
  { apply FieldsFunc_Join; [exact Hne | exact Hsep |].
    revert Hall. apply List.Forall_impl. intros code Hc.
    unfold isCode in Hc. apply andb_prop in Hc as [H1 H2].
    split.
    - apply negb_true_iff, String.eqb_neq in H1. exact H1.
    - revert H2. apply forallb_string_impl. intros c Hcb.
      now apply isCodeByte_spec in Hcb. }
  assert (Hp : parse_codes (Join codes sep) = list_to_set codes).
  { unfold parse_codes. rewrite Hf, (parse_fold_codes codes Hall).
    apply (right_id_L ∅ (∪)). }
  split; [exact Hp|].
  unfold check_flags. apply String.eqb_neq in Hin. rewrite Hin. cbn [orb].
  destruct (String.eqb (Join codes sep) "") eqn:E.
  - apply String.eqb_eq in E. rewrite E in Hf.
    destruct codes; [congruence | discriminate].
  - cbv zeta. rewrite Hp.
    destruct codes as [|code codes]; [congruence|].
    destruct (size (list_to_set (code :: codes) : gset string) =? 0)%nat
      eqn:Es; [|reflexivity].
    apply Nat.eqb_eq, size_empty_inv in Es.
    exfalso. apply (not_elem_of_empty (C := gset string) code).
    rewrite <- Es. cbn [list_to_set].
    apply elem_of_union_l, elem_of_singleton. reflexivity.
Qed.

Lemma FieldsFunc_loop_Forall (Q : ascii -> bool) f s :
  forallb_string (fun c => f c || Q c) s = true ->
  forall field,
    forallb_string Q (default EmptyString field) = true ->
    Forall (fun t => forallb_string Q t = true) (FieldsFunc_loop f field s).
Proof.
  induction s as [|c s IH]; intros H field Hf.
  - destruct field; simpl; [|constructor]. constructor; [exact Hf|constructor].
  - simpl in H. apply andb_prop in H as [Hc H]. cbn [FieldsFunc_loop].
    destruct (f c) eqn:Efc.
    + destruct field; [constructor; [exact Hf|]|]; now apply IH.
    + apply IH; [exact H|]. cbn [default from_option id].
      rewrite forallb_string_app, Hf. simpl in Hc. simpl. now rewrite Hc.
Qed.

(** X20.  A value of [-codes] made of commas and ASCII white space only holds no
    code: the allow-set is empty and [main] ends the process with status 2
    before it creates anything. *)
Theorem blank_codes_flag_exits inPath codeStr :
  forallb_string (fun c => isCodeSep c || asciiSpace c) codeStr = true ->
  parse_codes codeStr = ∅ /\ check_flags inPath codeStr = None.
Proof.
  intros H.
  assert (Hp : parse_codes codeStr = ∅).
  { unfold parse_codes, FieldsFunc.
    pose proof (FieldsFunc_loop_Forall asciiSpace isCodeSep codeStr H None
                  eq_refl) as Hall.
    induction Hall as [|tok toks Ht _ IH]; [reflexivity|].
    cbn [fold_left]. cbv zeta. rewrite (TrimSpace_blank tok Ht). exact IH. }
  split; [exact Hp|]. unfold check_flags.
  destruct (String.eqb inPath "" || String.eqb codeStr ""); [reflexivity|].
  cbv zeta. rewrite Hp. reflexivity.
Qed.

(** *** Input that ends inside a skipped value *)

Lemma skip_loop_head d ts : exists tl, fst (skip_loop d ts) = d :: tl.
Proof.
  destruct ts as [|t ts]; simpl; [eauto|].
  destruct (0 <? d); [|eauto].
  destruct (skip_loop (depth_after d t) ts). simpl. eauto.
Qed.

Lemma skip_loop_prefix p :
  forall d q,
    Forall (fun x => 0 < x)
      (firstn (S (length p)) (fst (skip_loop d (p ++ q)))) ->
    snd (skip_loop d p) = None.
Proof.
  induction p as [|t p IH]; intros d q H.
  - destruct (skip_loop_head d ([] ++ q)) as [tl Htl]. rewrite Htl in H.
    simpl in H. inversion H as [|x l Hd _]; subst.
    simpl. apply Z.ltb_lt in Hd. now rewrite Hd.
  - destruct (skip_loop_head d ((t :: p) ++ q)) as [tl Htl].
    pose proof H as H'. rewrite Htl in H'.
    cbn [length firstn] in H'. inversion H' as [|x l Hd _]; subst.
    change ((t :: p) ++ q) with (t :: (p ++ q)) in H.
    rewrite skip_loop_step in H by assumption.
    rewrite skip_loop_step by assumption.
    cbn [fst snd length firstn] in *. inversion H as [|x l _ Hrest]; subst.
    apply (IH _ q Hrest).
Qed.

(** X18.  When the input ends inside an object or an array that [skipValue] is
    skipping, [skipValue] panics with the decoder's error, having read
    all there was: it never takes a value that is cut off for a value. *)
Theorem skipValue_panics_on_truncated_value v p q w :
  tokens v = p ++ q -> p <> [] -> q <> [] ->
  dec w = p -> nesting v <= maxInt64 ->
  skipValue w = Panic ErrToken (set_dec (fun _ => []) w).
Proof.
  intros Hv Hp Hq Hdec Hn.
  destruct (skipValue_depths_value v []
              (set_dec (fun _ => tokens v) w)) as (seen & Hrun & Hseen);
    [now rewrite app_nil_r | exact Hn |].
  destruct p as [|t p]; [congruence|].
  assert (Hnp : primitive v = false).
  { destruct v; try reflexivity; simpl in Hv; injection Hv as _ Hv;
      destruct p; destruct q; simpl in Hv; congruence. }
  rewrite Hnp in Hseen. destruct Hseen as (pos & Hpos & Hall & Hlen).
  assert (Ht : exists c, t = Delim c).
  { destruct v; try discriminate.
    - rewrite tokens_JArr in Hv. injection Hv as <- _. eauto.
    - rewrite tokens_JObj in Hv. injection Hv as <- _. eauto. }
  destruct Ht as [c ->].
  unfold skipValue, skipValue_depths, bind, dec_Token in *.
  rewrite Hdec. rewrite Hv in Hrun, Hlen.
  cbn [dec set_dec app] in *.
  destruct (skip_loop 1 (p ++ q)) as [seen' [rest'|]] eqn:El; [|discriminate].
  injection Hrun as <- _.
  pose proof (skip_loop_prefix p 1 q) as Hpre. rewrite El in Hpre.
  cbn [fst] in Hpre.
  destruct (skip_loop 1 p) as [s r] eqn:Ep. cbn [snd] in Hpre.
  rewrite Hpre; [reflexivity|].
  rewrite Hpos. simpl in Hlen. rewrite length_app in Hlen.
  rewrite Hpos, length_app in Hlen. simpl in Hlen.
  rewrite firstn_app.
  assert (Hq' : (1 <= length q)%nat).
  { destruct q; [congruence | simpl; lia]. }
  replace (S (length p) - length pos)%nat with 0%nat by lia.
  rewrite firstn_O, app_nil_r. now apply Forall_take.
Qed.

(** *** Documents of another shape *)

(** X17.  A document whose first token is not the opening delimiter of an
    object, or that holds no token at all, makes [main] panic at once,
    with the decoder's error when there is no token: the outputs were
    created, no table was opened, and the deferred call has flushed and
    closed the unresolved-references table, which holds its header. *)
Theorem root_must_be_an_object ts :
  head ts <> Some (Delim "{") ->
  mkdir_ok env = true -> create_ok env unresName = true ->
  exists w u,
    run ts
    = Panic (match ts with [] => ErrToken | _ => ExpectedDelim "{" end) w
    /\ dec w = tail ts
    /\ writers w = ∅
    /\ unres w = Some u
    /\ flushed u = [unresHeader] /\ flushed_and_closed u.
Proof.
  intros Hh Hm Hc. unfold run, main. rewrite Hm, Hc. cbn [negb].
  unfold bind at 1, modify at 1, defer, read_document.
  unfold bind at 1. unfold expectDelim at 1, bind at 1, dec_Token at 1.
  cbn [dec set_unres start].
  assert (Hend : forall w u,
            writers w = ∅ ->
            unres w = Some (flush_close (csv_Write unresHeader newFile)) ->
            u = flush_close (csv_Write unresHeader newFile) ->
            writers w = ∅ /\ unres w = Some u
            /\ flushed u = [unresHeader] /\ flushed_and_closed u).
  { intros w u Hw Hu ->. split; [exact Hw|]. split; [exact Hu|].
    apply unres_header_closed. }
  destruct ts as [|t rest].
  - eexists _, _. split; [reflexivity|]. split; [reflexivity|].
    now apply Hend.
  - destruct t as [d| | | |];
      try (eexists _, _; split; [reflexivity|]; split; [reflexivity|];
           now apply Hend).
    destruct (Ascii.eqb d "{") eqn:E.
    + apply Ascii.eqb_eq in E. subst d. now contradiction Hh.
    + eexists _, _. split; [reflexivity|]. split; [reflexivity|].
      now apply Hend.
Qed.

Lemma find_in_network_members pre :
  skipped_members pre ->
  forall fuel rest w,
    find_in_network (length pre + fuel)
      (set_dec (fun _ => members_tokens pre ++ rest) w)
    = find_in_network fuel (set_dec (fun _ => rest) w).
Proof.
  induction 1 as [|[k v] pre [Hk Hv] _ IH]; intros fuel rest w.
  - reflexivity.
  - rewrite members_tokens_cons.
    cbn [length Nat.add find_in_network]. unfold bind at 1.
    unfold dec_More at 1, gets at 1. cbn [dec set_dec negb].
    unfold bind at 1. unfold expectString at 1, bind at 1, dec_Token at 1.
    cbn [dec set_dec]. unfold ret at 1.
    simpl in Hk. apply String.eqb_neq in Hk. rewrite Hk.
    unfold bind at 1.
    pose proof (skipValue_value v (members_tokens pre ++ rest)
                  (set_dec (fun _ => tokens v ++ members_tokens pre ++ rest) w)
                  eq_refl Hv) as Hskip.
    match goal with
    | |- context [skipValue ?w1] =>
        change (skipValue w1) with
          (skipValue
             (set_dec (fun _ => tokens v ++ members_tokens pre ++ rest) w))
    end.
    rewrite Hskip. apply (IH fuel rest w).
Qed.

(** X16.  A root object whose "in_network" member is not an array: the token
    after the key is not the opening delimiter of an array, and [main]
    panics there, before it opens a table or decodes an item. *)
Theorem in_network_must_be_an_array pre t tl :
  skipped_members pre ->
  t <> Delim "[" ->
  mkdir_ok env = true -> create_ok env unresName = true ->
  exists w,
    run (Delim "{" :: members_tokens pre ++ TStr "in_network" :: t :: tl)
    = Panic (ExpectedDelim "[") w
    /\ dec w = tl
    /\ writers w = ∅
    /\ seenItems w = 0.
Proof.
  intros Hpre Ht Hm Hc. unfold run, main. rewrite Hm, Hc. cbn [negb].
  unfold bind at 1, modify at 1, defer, read_document.
  unfold bind at 1. unfold expectDelim at 1, bind at 1, dec_Token at 1.
  cbn [dec set_dec set_unres start Ascii.eqb Bool.eqb]. unfold ret at 1.
  unfold bind at 1. unfold gets at 1. cbn [dec set_dec].
  unfold bind at 1.
  match goal with
  | |- context [find_in_network ?n ?w0] =>
      change w0 with
        (set_dec (fun _ => members_tokens pre
                             ++ TStr "in_network" :: t :: tl)
           (set_unres (fun _ => Some (csv_Write unresHeader newFile))
              (start [])));
      replace n with (length pre + (n - length pre))%nat
  end.
  2:{ rewrite length_app. pose proof (length_members_tokens pre). lia. }
  rewrite (find_in_network_members pre Hpre).
  rewrite length_app. cbn [length].
  replace (S (length (members_tokens pre) + S (S (length tl))) - length pre)%nat
    with (S (length (members_tokens pre) + S (S (length tl)) - length pre))
    by (pose proof (length_members_tokens pre); lia).
  cbn [find_in_network]. unfold bind at 1.
  unfold dec_More at 1, gets at 1. cbn [dec set_dec negb].
  unfold bind at 1. unfold expectString at 1, bind at 1, dec_Token at 1.
  cbn [dec set_dec]. unfold ret at 1.
  change (String.eqb "in_network" "in_network") with true. cbv iota.
  unfold bind at 1. unfold expectDelim at 1, bind at 1, dec_Token at 1.
  cbn [dec set_dec].
  destruct t as [d| | | |];
    try (eexists; split; [reflexivity|]; repeat split; reflexivity).
  destruct (Ascii.eqb d "[") eqn:E.
  - apply Ascii.eqb_eq in E. subst d. now contradiction Ht.
  - eexists. split; [reflexivity|]. repeat split; reflexivity.
Qed.

(** *** The check of the code type ignores case *)

Lemma upperByte_ascii c :
  isASCIIbyte c = true ->
  isASCIIbyte (upperByte c) = true
  /\ asciiSpace (upperByte c) = asciiSpace c
  /\ isLower (upperByte c) = false.
Proof.
  destruct c as [[] [] [] [] [] [] [] []]; intros H;
    try discriminate H; repeat split; reflexivity.
Qed.

Lemma map_string_rev_app f s1 s2 :
  map_string f (String.rev_app s1 s2)
  = String.rev_app (map_string f s1) (map_string f s2).
Proof.
  revert s2. induction s1 as [|c s1 IH]; intros s2; simpl; [reflexivity|].
  now rewrite IH.
Qed.

Lemma map_string_rev f s :
  map_string f (String.rev s) = String.rev (map_string f s).
Proof. unfold String.rev. now rewrite map_string_rev_app. Qed.

Lemma TrimSpace_start_upper s :
  forallb_string isASCIIbyte s = true ->
  exists t,
    TrimSpace_start (TrimFunc_IsSpace env) s = inr t
    /\ forallb_string isASCIIbyte t = true
    /\ TrimSpace_start (TrimFunc_IsSpace env) (map_string upperByte s)
       = inr (map_string upperByte t).
Proof.
  induction s as [|c s IH]; intros H.
  - exists EmptyString. repeat split; reflexivity.
  - pose proof H as Hall. simpl in H. apply andb_prop in H as [Hc Hs].
    destruct (upperByte_ascii c Hc) as (Ha & Hsp & _).
    cbn [TrimSpace_start map_string]. rewrite Hc, Ha, Hsp. cbn [negb].
    destruct (asciiSpace c).
    + apply (IH Hs).
    + exists (String c s).
      split; [reflexivity|]. split; [exact Hall | reflexivity].
Qed.

Lemma TrimSpace_stop_upper r :
  forallb_string isASCIIbyte r = true ->
  forallb_string isASCIIbyte (TrimSpace_stop (TrimRightFunc_IsSpace env) r)
  = true
  /\ TrimSpace_stop (TrimRightFunc_IsSpace env) (map_string upperByte r)
     = map_string upperByte (TrimSpace_stop (TrimRightFunc_IsSpace env) r).
Proof.
  induction r as [|c r IH]; intros H.
  - split; reflexivity.
  - pose proof H as Hall. simpl in H. apply andb_prop in H as [Hc Hs].
    destruct (upperByte_ascii c Hc) as (Ha & Hsp & _).
    cbn [TrimSpace_stop map_string]. rewrite Hc, Ha, Hsp. cbn [negb].
    destruct (asciiSpace c).
    + apply (IH Hs).
    + split.
      * now rewrite forallb_string_rev.
      * change (String (upperByte c) (map_string upperByte r))
          with (map_string upperByte (String c r)).
        now rewrite map_string_rev.
Qed.

Lemma TrimSpace_upper s :
  forallb_string isASCIIbyte s = true ->
  forallb_string isASCIIbyte (TrimSpace' s) = true
  /\ TrimSpace' (map_string upperByte s) = map_string upperByte (TrimSpace' s).
Proof.
  intros H. unfold TrimSpace', TrimSpace.
  destruct (TrimSpace_start_upper s H) as (t & -> & Ht & ->).
  rewrite <- map_string_rev.
  apply TrimSpace_stop_upper. now rewrite forallb_string_rev.
Qed.

Lemma ToUpper_ascii t :
  forallb_string isASCIIbyte t = true ->
  ToUpper' t = map_string upperByte t.
Proof.
  intros H. unfold ToUpper', ToUpper. rewrite H.
  destruct (existsb_string isLower t) eqn:E; [reflexivity|].
  cbn [negb]. clear H. induction t as [|c t IH]; [reflexivity|].
  simpl in E. apply orb_false_iff in E as [Ec Et].
  simpl. unfold upperByte at 1. rewrite Ec. now rewrite <- IH.
Qed.

(** X21.  The check of the billing-code type ignores the case of ASCII letters:
    two items whose billing-code types are ASCII texts that differ in the
    case of their letters only, and whose billing codes are the same, are
    both kept or both dropped. *)
Theorem filter_ignores_case it it' :
  forallb_string isASCIIbyte (BillingCodeType it) = true ->
  forallb_string isASCIIbyte (BillingCodeType it') = true ->
  map_string upperByte (BillingCodeType it)
  = map_string upperByte (BillingCodeType it') ->
  BillingCode it = BillingCode it' ->
  passes_filter it = passes_filter it'.
Proof.
  intros Ha Ha' Hcase Hcode. unfold passes_filter. rewrite Hcode.
  destruct (TrimSpace_upper _ Ha) as [Ht Hu].
  destruct (TrimSpace_upper _ Ha') as [Ht' Hu'].
  rewrite (ToUpper_ascii _ Ht), (ToUpper_ascii _ Ht').
  now rewrite <- Hu, <- Hu', Hcase.
Qed.

(** *** The shapes of the NPI field *)

(** X22.  The NPI field comes as an array of numbers, as an array of strings or
    as a slice of strings: the three shapes of the same identifiers
    normalize to the same sequence, the identifiers' texts in order, and so
    give the same rows. *)
Theorem npi_shapes_agree (l : list string) :
  normalizeNPIs (Arr (map Num l)) = l
  /\ normalizeNPIs (Arr (map Str l)) = l
  /\ normalizeNPIs (Strs l) = l
  /\ forall bc bct na prices t,
       group_rows bc bct na prices {| TIN := t; NPI := Arr (map Num l) |}
       = group_rows bc bct na prices {| TIN := t; NPI := Arr (map Str l) |}.
Proof.
  assert (H1 : normalizeNPIs (Arr (map Num l)) = l).
  { simpl. rewrite map_map. simpl. apply map_id. }
  assert (H2 : normalizeNPIs (Arr (map Str l)) = l).
  { simpl. rewrite map_map. simpl. apply map_id. }
  split; [exact H1|]. split; [exact H2|]. split; [reflexivity|].
  intros bc bct na prices t. unfold group_rows. cbn [NPI TIN].
  now rewrite H1, H2.
Qed.

(** *** The text of a [float64] *)

Lemma rev_app_append s1 s2 :
  String.rev_app s1 s2 = String.append (String.rev s1) s2.
Proof.
  unfold String.rev. revert s2.
  induction s1 as [|c s1 IH]; intros s2; [reflexivity|].
  cbn [String.rev_app]. rewrite IH, (IH (String c "")), append_assoc.
  reflexivity.
Qed.

Lemma rev_append s1 s2 :
  String.rev (String.append s1 s2)
  = String.append (String.rev s2) (String.rev s1).
Proof.
  induction s1 as [|c s1 IH].
  - change (String.append "" s2) with s2. now rewrite append_nil_r.
  - rewrite append_cons. unfold String.rev at 1 3. cbn [String.rev_app].
    rewrite !rev_app_append. fold (String.rev (String.append s1 s2)).
    rewrite IH. now rewrite append_assoc.
Qed.

Lemma trimLeftByte_stop c d s :
  Ascii.eqb c d = false -> trimLeftByte c (String d s) = String d s.
Proof. intros H. cbn [trimLeftByte]. now rewrite H. Qed.

Lemma trimLeftByte_app c x d y :
  Ascii.eqb c d = false ->
  trimLeftByte c (String.append x (String d y))
  = String.append (trimLeftByte c x) (String d y).
Proof.
  intros H. induction x as [|a x IH].
  - change (String.append "" (String d y)) with (String d y).
    now rewrite trimLeftByte_stop.
  - rewrite append_cons. cbn [trimLeftByte].
    destruct (Ascii.eqb c a); [exact IH|]. now rewrite append_cons.
Qed.

Lemma forallb_string_trimLeftByte p c s :
  forallb_string p s = true -> forallb_string p (trimLeftByte c s) = true.
Proof.
  induction s as [|d s IH]; intros H; [reflexivity|].
  cbn [trimLeftByte]. destruct (Ascii.eqb c d); [|exact H].
  apply IH. simpl in H. now apply andb_prop in H as [_ H].
Qed.

Lemma isDigit_decimal z :
  decimal z <> "" /\ forallb_string isDigit (decimal z) = true.
Proof.
  unfold decimal, DecimalString.NilZero.string_of_uint.
  assert (H : forall d,
            forallb_string isDigit (DecimalString.NilEmpty.string_of_uint d)
            = true).
  { induction d; simpl; auto. }
  destruct (N.to_uint (Z.to_N z)) eqn:E;
    (split; [discriminate | try apply H; reflexivity]).
Qed.

Lemma isDigit_pad10 s :
  forallb_string isDigit s = true -> forallb_string isDigit (pad10 s) = true.
Proof.
  intros H. unfold pad10. rewrite forallb_string_app, H, andb_true_r.
  induction (10 - String.length s)%nat as [|n IH]; [reflexivity | exact IH].
Qed.

(** A text that ends with a digit has no point to trim at its end. *)
Lemma trimRightByte_digit s :
  s <> "" -> forallb_string isDigit s = true ->
  forall pre, trimRightByte (String.append pre s) "." = String.append pre s.
Proof.
  intros Hne Hd pre. unfold trimRightByte. rewrite rev_append.
  rewrite <- forallb_string_rev in Hd.
  destruct (String.rev s) as [|d r] eqn:E.
  - apply (f_equal String.rev) in E. rewrite rev_rev in E. contradiction.
  - rewrite append_cons, trimLeftByte_stop.
    + rewrite <- append_cons, <- E, <- rev_append. apply rev_rev.
    + simpl in Hd. apply andb_prop in Hd as [Hd _].
      destruct (Ascii.eqb "." d) eqn:Ed; [|reflexivity].
      apply Ascii.eqb_eq in Ed. subst d. discriminate.
Qed.

(** X23.  The text of a finite [float64] that is not zero: its sign, the digits
    of its integer part as they are, and, when a digit of the fraction is
    left after its trailing zeros were dropped, the point and these digits.
    The trimming takes no digit of the integer part and leaves no point
    at the end. *)
Theorem float64_text (s : bool) (m : positive) (e : Z) :
  let n := round_half_even (Z.pos m * 10 ^ 10) e in
  anyToString (F64 (S754_finite s m e))
  = String.append (if s then "-" else "")
      (String.append (decimal (n / 10 ^ 10))
         (if String.eqb (fraction_digits n) "" then ""
          else String.append "." (fraction_digits n))).
Proof.
  cbv zeta. cbn [anyToString]. unfold fmtFloat. cbn [Sprintf_10f].
  set (n := round_half_even (Z.pos m * 10 ^ 10) e).
  set (sign := if s then "-" else "").
  set (int := decimal (n / 10 ^ 10)).
  set (F := pad10 (decimal (n mod 10 ^ 10))).
  destruct (isDigit_decimal (n / 10 ^ 10)) as [Hint1 Hint2].
  fold int in Hint1, Hint2.
  assert (HF : forallb_string isDigit F = true).
  { apply isDigit_pad10, isDigit_decimal. }
  assert (Hfrac : forallb_string isDigit (fraction_digits n) = true).
  { unfold fraction_digits, trimRightByte. fold F.
    rewrite forallb_string_rev. apply forallb_string_trimLeftByte.
    now rewrite forallb_string_rev. }
  assert (H1 : trimRightByte
                 (String.append sign
                    (String.append int (String.append "." F))) "0"
               = String.append sign
                   (String.append int
                      (String.append "." (fraction_digits n)))).
  { unfold fraction_digits. fold F. unfold trimRightByte.
    rewrite <- !append_assoc, rev_append.
    rewrite (rev_append (String.append sign int) ".").
    change (String.rev ".") with ".".
    change (String.append "." (String.rev (String.append sign int)))
      with (String "." (String.rev (String.append sign int))).
    rewrite trimLeftByte_app by reflexivity.
    rewrite rev_append.
    change (String "." (String.rev (String.append sign int)))
      with (String.append "." (String.rev (String.append sign int))).
    rewrite rev_append, rev_rev. change (String.rev ".") with ".".
    now rewrite !append_assoc. }
  rewrite H1.
  destruct (String.eqb (fraction_digits n) "") eqn:E.
  - apply String.eqb_eq in E. rewrite E.
    change (String.append "." "") with ".".
    rewrite <- !append_assoc. unfold trimRightByte at 1.
    rewrite rev_append. change (String.rev ".") with ".".
    change (String.append "." (String.rev (String.append sign int)))
      with (String "." (String.rev (String.append sign int))).
    cbn [trimLeftByte]. change (Ascii.eqb "." ".") with true. cbv iota.
    fold (trimRightByte (String.append sign int) ".").
    rewrite (trimRightByte_digit int Hint1 Hint2 sign).
    now rewrite append_nil_r.
  - apply String.eqb_neq in E.
    rewrite <- !append_assoc.
    rewrite (trimRightByte_digit (fraction_digits n) E Hfrac).
    reflexivity.
Qed.

End Program.

(** ** The properties on the scenarios *)

Import Scenario.

Lemma cross_product_multiplicity_witness :
  create_ok (asciiEnv itemA) (csvName "27130") = true
  /\ ProviderGroups rateA <> []
  /\ NegotiatedPrices rateA <> []
  /\ exists rows w',
       process_rate (asciiEnv itemA) 0 Rev1 "27130" "CPT4" "ffs" rateA
         (start []) = Ok tt w'
       /\ rows_written (asciiEnv itemA) "27130" (start []) w' rows
       /\ length rows = 6%nat.
Proof.
  split; [reflexivity|]. split; [discriminate|]. split; [discriminate|].
  destruct (cross_product_multiplicity (asciiEnv itemA) 0 Rev1
              "27130" "CPT4" "ffs" rateA (start []))
    as (rows & w' & Hrun & Hrows & _ & _ & Hlen & _);
    [reflexivity | discriminate | discriminate |].
  exists rows, w'. split; [exact Hrun|]. split; [exact Hrows|].
  rewrite Hlen. reflexivity.
Defined.

Lemma filter_rejects_witness :
  passes_filter (asciiEnv itemB) allow itemB = false
  /\ process_item (asciiEnv itemB) allow 0 Rev1 itemB (start [])
     = Ok tt (set_seenItems incr64 (start [])).
Proof.
  split; [vm_compute; reflexivity|].
  apply (filter_rejects (asciiEnv itemB) allow 0 Rev1 itemB (start [])).
  vm_compute; reflexivity.
Defined.

Lemma skipValue_consumes_value_witness :
  dec (start (tokens itemA_json ++ [TStr "next"]))
  = tokens itemA_json ++ [TStr "next"]
  /\ nesting itemA_json <= maxInt64
  /\ skipValue (start (tokens itemA_json ++ [TStr "next"]))
     = Ok tt (start [TStr "next"]).
Proof.
  split; [reflexivity|]. split; [vm_compute; discriminate|].
  apply (skipValue_consumes_value itemA_json [TStr "next"]
           (start (tokens itemA_json ++ [TStr "next"])));
    [reflexivity | vm_compute; discriminate].
Defined.

Lemma header_exactly_once_witness :
  writers (start []) = ∅
  /\ Forall (fun call => create_ok (asciiEnv itemA) (csvName (fst call)) = true)
       calls
  /\ exists w',
       for_range calls (writeRows (asciiEnv itemA)) (start []) = Ok tt w'
       /\ table w' "27130" = [header; ["a"]; ["b"]; ["c"]]
       /\ table w' "27447" = [header].
Proof.
  split; [reflexivity|]. split; [repeat constructor|].
  destruct (header_exactly_once (asciiEnv itemA) calls (start []))
    as (w' & Hrun & Hcodes); [reflexivity | repeat constructor |].
  exists w'. split; [exact Hrun|]. split.
  - destruct (Hcodes "27130") as [Hin _].
    destruct Hin as (_ & Ht & _); [left; reflexivity | exact Ht].
  - destruct (Hcodes "27447") as [Hin _].
    destruct Hin as (_ & Ht & _); [right; left; reflexivity | exact Ht].
Defined.

Lemma null_npis_emit_rows_witness :
  ready (asciiEnv itemA) Rev1 "" "27130" (start [])
  /\ normalizeNPIs (asciiEnv itemA) (Arr [Nil; Num "111"]) = [""; "111"]
  /\ (exists w',
       process_group (asciiEnv itemA) 0 Rev1 "" "27130" "CPT4" "ffs"
         [priceA "10"] {| TIN := None; NPI := Arr [Nil; Num "111"] |}
         (start [])
       = Ok tt w'
       /\ table w' "27130"
          = [header;
             [""; ""; ""; "10"; "2025-12-31"; "11|22";
              "27130"; "CPT4"; "ffs"; "negotiated"; "professional"; ""];
             ["111"; ""; ""; "10"; "2025-12-31"; "11|22";
              "27130"; "CPT4"; "ffs"; "negotiated"; "professional"; ""]]
       /\ outRows w' = 2)
  /\ exists (rows : list record) w',
       process_group (asciiEnv itemA) 0 Rev1 "" "27130" "CPT4" "ffs"
         [priceA "10"] {| TIN := None; NPI := Arr [Nil; Nil] |} (start [])
       = Ok tt w'
       /\ length rows = 2%nat
       /\ table w' "27130" = header :: rows
       /\ Forall (fun r => r !! 0%nat = Some "") rows.
Proof.
  split; [reflexivity|].
  destruct (null_npis_emit_rows (asciiEnv itemA) 0 Rev1 "" "27130" "CPT4"
              "ffs" [priceA "10"] None [Nil; Num "111"] (start []))
    as (Hn & _ & _ & _ & _ & rows & w' & Hrun & Hrows & _ & _ & Hout & _
        & Htab & _); [reflexivity|].
  split; [exact Hn|]. split.
  - exists w'. split; [exact Hrun|].
    destruct Htab as [_ Htab]; [discriminate | discriminate |].
    rewrite Hrows in Htab, Hout. split; [exact Htab | exact Hout].
  - destruct (null_npis_emit_rows (asciiEnv itemA) 0 Rev1 "" "27130" "CPT4"
                "ffs" [priceA "10"] None [Nil; Nil] (start []))
      as (_ & _ & _ & _ & _ & rows0 & w0 & Hrun0 & _ & _ & Hlen & _ & _
          & Htab0 & Hcells); [reflexivity|].
    exists rows0, w0. split; [exact Hrun0|]. split; [exact Hlen|].
    destruct Htab0 as [_ Htab0]; [discriminate | discriminate |].
    split; [exact Htab0 | apply Hcells; repeat constructor].
Defined.

Lemma absent_tin_blank_cells_witness :
  ready (asciiEnv itemA) RevR2 "27130" "27130"
    (opened (asciiEnv itemA) "27130" (start []))
  /\ exists wN wT,
       process_group (asciiEnv itemA) 0 RevR2 "27130" "27130" "CPT4" "ffs"
         [priceA "10"] {| TIN := None; NPI := Arr [Num "111"] |}
         (opened (asciiEnv itemA) "27130" (start [])) = Ok tt wN
       /\ process_group (asciiEnv itemA) 0 RevR2 "27130" "27130" "CPT4" "ffs"
            [priceA "10"] {| TIN := Some einA; NPI := Arr [Num "111"] |}
            (opened (asciiEnv itemA) "27130" (start [])) = Ok tt wT
       /\ table wN "27130"
          = [header;
             ["111"; ""; ""; "10"; "2025-12-31"; "11|22";
              "27130"; "CPT4"; "ffs"; "negotiated"; "professional"; ""]]
       /\ table wT "27130"
          = [header;
             ["111"; "ein"; "12-3456789"; "10"; "2025-12-31"; "11|22";
              "27130"; "CPT4"; "ffs"; "negotiated"; "professional"; ""]]
       /\ outRows wN = 1.
Proof.
  assert (Hr : ready (asciiEnv itemA) RevR2 "27130" "27130"
                 (opened (asciiEnv itemA) "27130" (start []))).
  { split; [reflexivity | vm_compute; eauto]. }
  split; [exact Hr|].
  destruct (absent_tin_blank_cells (asciiEnv itemA) 0 RevR2 "27130" "27130"
              "CPT4" "ffs" [priceA "10"] einA (Arr [Num "111"])
              (opened (asciiEnv itemA) "27130" (start [])) Hr)
    as (rowsN & rowsT & wN & wT & HN & _ & HT & _ & _ & _ & _ & HrN & HrT
        & _ & _ & Hout & _ & Htab & _).
  exists wN, wT.
  split; [exact HN|]. split; [exact HT|].
  destruct Htab as (_ & HtN & HtT); [discriminate | discriminate |].
  rewrite HrN in HtN, Hout. rewrite HrT in HtT.
  split; [exact HtN|]. split; [exact HtT | exact Hout].
Defined.

Lemma scan_stops_after_in_network_witness :
  Forall (fun kv => fst kv <> "in_network" /\ nesting (snd kv) <= maxInt64)
    preamble
  /\ run (asciiEnv itemA) allow 0 Rev1
       (root_prefix preamble [itemA_json] ++ trailer)
     = on_world (set_dec (fun d => d ++ trailer))
         (run (asciiEnv itemA) allow 0 Rev1
            (root_prefix preamble [itemA_json])).
Proof.
  assert (H : Forall (fun kv => fst kv <> "in_network"
                                /\ nesting (snd kv) <= maxInt64) preamble).
  { repeat constructor; try discriminate. }
  split; [exact H|].
  apply (scan_stops_after_in_network (asciiEnv itemA) allow 0 Rev1
           preamble [itemA_json] trailer H).
Defined.

(** C7 as stated fails on the number literal [1e5]: decoded with
    [UseNumber] it is the [json.Number] of that text, and its text in the
    table is [1e5], in exponential notation. *)
Lemma Number_literal_keeps_exponent :
  anyToString (asciiEnv itemA) (Num "1e5") = "1e5"
  /\ has_exponent (anyToString (asciiEnv itemA) (Num "1e5")) = true.
Proof. split; reflexivity. Qed.

(** C5.  Two documents on which [main] panics after an item was kept: one
    whose array holds an element that cannot be decoded into an item
    ([dec.Decode] returns an error), one cut off inside the array
    ([dec.More] answers false at the end of the input and reading the
    closing delimiter fails).  The deferred call flushes and closes the
    unresolved-references table.  The table of the item's code was opened
    and is neither flushed nor closed: its header and its six rows are in
    the buffer, none in the file. *)
Theorem panic_leaves_tables_open (rev : revision) :
  (exists w f u,
     run (asciiEnv itemA) allow 0 rev malformed = Panic ErrDecode w
     /\ writers w !! "27130" = Some f
     /\ closed f = false /\ flushed f = [] /\ length (pending f) = 7%nat
     /\ unres w = Some u
     /\ closed u = true /\ pending u = [] /\ flushed u = [unresHeader])
  /\ (exists w f u,
        run (asciiEnv itemA) allow 0 rev truncated = Panic ErrToken w
        /\ writers w !! "27130" = Some f
        /\ closed f = false /\ flushed f = [] /\ length (pending f) = 7%nat
        /\ unres w = Some u
        /\ closed u = true /\ pending u = [] /\ flushed u = [unresHeader]).
Proof.
  destruct rev; split;
    (eexists _, _, _; split; [vm_compute; reflexivity|];
     split; [vm_compute; reflexivity|];
     repeat split; reflexivity).
Qed.

(** Scenario A, read from its document: six rows for code 27130. *)
Example scenario_A (rev : revision) :
  exists w,
    run (asciiEnv itemA) allow 0 rev (tokens (JObj (preamble
      ++ [("in_network", JArr [itemA_json])])))
    = Ok tt w
    /\ length (table w "27130") = 7%nat
    /\ outRows w = 6 /\ keptItems w = 1 /\ seenItems w = 1.
Proof.
  destruct rev; (eexists; split; [vm_compute; reflexivity|]);
    repeat split; vm_compute; reflexivity.
Qed.

(** Scenario C: three unresolved-reference records and no row. *)
Example scenario_C (rev : revision) :
  exists w,
    process_rate (asciiEnv itemA) 0 rev "27130" "CPT4" "ffs" rateC
      (set_unres (fun _ => Some (csv_Write (asciiEnv itemA) unresHeader newFile)) (start []))
    = Ok tt w
    /\ unres_records w
       = Some [unresHeader; ["27130"; "ref_id"]; ["27130"; "ref_id"];
               ["27130"; "ref_id"]]
    /\ writers w = ∅ /\ outRows w = 0.
Proof.
  destruct rev; (eexists; split; [vm_compute; reflexivity|]);
    repeat split; reflexivity.
Qed.

(** Scenario D: the provider group whose NPI field is null gives no row, the
    other group of the rate group gives its row. *)
Example scenario_D (rev : revision) :
  exists w,
    process_rate (asciiEnv itemA) 0 rev "27130" "CPT4" "ffs" rateD (start [])
    = Ok tt w
    /\ table w "27130"
       = [header;
          ["111"; "ein"; "12-3456789"; "10"; "2025-12-31"; "11|22";
           "27130"; "CPT4"; "ffs"; "negotiated"; "professional"; ""]]
    /\ outRows w = 1.
Proof.
  destruct rev; (eexists; split; [vm_compute; reflexivity|]);
    split; vm_compute; reflexivity.
Qed.

(** ** The two revisions *)

(** X4.  On a document whose root object holds the "in_network" array after
    members of other keys, when the outputs can be created and every
    element of the array decodes to an item, the two revisions return with
    the same data rows in the table of every code, the same records in the
    unresolved-references table and the same counters.  (They differ in
    the tables that hold a header and no row, which revision R2 alone
    creates.) *)
Theorem revisions_write_the_same_rows (env : Env) (allowed : gset string)
    (progressEvery : Z) pre items its tl :
  skipped_members pre ->
  mkdir_ok env = true -> create_ok env unresName = true ->
  decodable env allowed items its ->
  exists w1 w2,
    run env allowed progressEvery Rev1 (root_prefix pre items ++ tl) = Ok tt w1
    /\ run env allowed progressEvery RevR2 (root_prefix pre items ++ tl)
       = Ok tt w2
    /\ (forall c, tail (table w1 c) = tail (table w2 c))
    /\ unres_records w1 = unres_records w2
    /\ seenItems w1 = seenItems w2
    /\ keptItems w1 = keptItems w2
    /\ outRows w1 = outRows w2
    /\ skippedRefRates w1 = skippedRefRates w2
    /\ skippedRefIDs w1 = skippedRefIDs w2.
Proof.
  intros Hpre Hm Hc Hd.
  destruct (extracted_items env allowed progressEvery Rev1 items its Hd []
              (started env) (extracted_started env allowed))
    as (T1 & U1 & S1 & K1 & O1 & R1 & I1).
  destruct (extracted_items env allowed progressEvery RevR2 items its Hd []
              (started env) (extracted_started env allowed))
    as (T2 & U2 & S2 & K2 & O2 & R2 & I2).
  cbn [app] in *.
  eexists _, _.
  split; [exact (run_done env allowed progressEvery Rev1 pre items its tl
                   Hpre Hm Hc Hd)|].
  split; [exact (run_done env allowed progressEvery RevR2 pre items its tl
                   Hpre Hm Hc Hd)|].
  split; [|split].
  - intros c. rewrite !table_closed.
    destruct (tabled_table _ _ c T1) as [E1|[E1 Z1]];
      destruct (tabled_table _ _ c T2) as [E2|[E2 Z2]];
      unfold table in *; cbn [writers set_dec] in *;
      rewrite E1, E2; try rewrite Z1; try rewrite Z2; reflexivity.
  - unfold unres_records in *. rewrite !unres_finish. cbn [unres set_dec].
    destruct (unres (fold_left (item_done env allowed progressEvery Rev1)
                       its (started env))) as [u1|]; [|discriminate].
    destruct (unres (fold_left (item_done env allowed progressEvery RevR2)
                       its (started env))) as [u2|]; [|discriminate].
    simpl in *. rewrite !records_flush_close. congruence.
  - cbn. rewrite S1, S2, K1, K2, O1, O2, R1, R2, I1, I2.
    repeat split; reflexivity.
Qed.

(** ** The further properties on the scenarios *)

Lemma tables_hold_rows_of_their_code_witness :
  exists w f,
    final_state (run (asciiEnv itemA) allow 0 Rev1 documentA) = Some w
    /\ writers w !! "27130" = Some f
    /\ ("27130" ∈ allow /\ "27130" <> ""
        /\ exists rs, records f = header :: rs /\ Forall (row_of "27130") rs).
Proof.
  eexists _, _. split; [vm_compute; reflexivity|].
  split; [vm_compute; reflexivity|].
  eapply (tables_hold_rows_of_their_code (asciiEnv itemA) allow 0 Rev1
            documentA); vm_compute; reflexivity.
Defined.

Lemma return_closes_every_output_witness :
  exists w,
    run (asciiEnv itemA) allow 0 Rev1 documentA = Ok tt w
    /\ (exists f, writers w !! "27130" = Some f)
    /\ ((forall c f, writers w !! c = Some f -> flushed_and_closed f)
        /\ exists u, unres w = Some u /\ flushed_and_closed u).
Proof.
  eexists. split; [vm_compute; reflexivity|].
  split; [eexists; vm_compute; reflexivity|].
  apply (return_closes_every_output (asciiEnv itemA) allow 0 Rev1 documentA).
  vm_compute; reflexivity.
Defined.

Lemma unresolved_table_is_closed_and_counted_witness :
  exists e w u,
    run (asciiEnv itemC) allow 0 Rev1 malformed = Panic e w
    /\ unres w = Some u
    /\ length (records u) = 4%nat
    /\ (flushed_and_closed u
        /\ exists rs,
             records u = unresHeader :: rs
             /\ Forall (ref_record allow) rs
             /\ skippedRefIDs w = wrap64 (Z.of_nat (length rs))).
Proof.
  eexists _, _, _. split; [vm_compute; reflexivity|].
  split; [vm_compute; reflexivity|]. split; [vm_compute; reflexivity|].
  eapply (unresolved_table_is_closed_and_counted (asciiEnv itemC) allow 0
            Rev1 malformed); vm_compute; reflexivity.
Defined.

Lemma no_progress_line_without_cadence_witness :
  0 <= 0
  /\ exists w,
       final_state (run (asciiEnv itemA) allow 0 Rev1 documentA) = Some w
       /\ outRows w = 6
       /\ forall kept rows, ~ In (Progress kept rows) (stdout w).
Proof.
  split; [lia|]. eexists. split; [vm_compute; reflexivity|].
  split; [vm_compute; reflexivity|].
  apply (no_progress_line_without_cadence (asciiEnv itemA) allow 0 Rev1
           documentA); [lia | vm_compute; reflexivity].
Defined.

Lemma rev1_tables_have_rows_witness :
  exists w f,
    final_state (run (asciiEnv itemA) allow 0 Rev1 documentA) = Some w
    /\ writers w !! "27130" = Some f
    /\ (1 < length (records f))%nat.
Proof.
  eexists _, _. split; [vm_compute; reflexivity|].
  split; [vm_compute; reflexivity|].
  refine (rev1_tables_have_rows (asciiEnv itemA) allow 0 Rev1 documentA
            _ eq_refl _ "27130" _ _); vm_compute; reflexivity.
Defined.

Lemma scenarioA_decodable :
  skipped_members preamble
  /\ decodable (asciiEnv itemA) allow [itemA_json] [itemA].
Proof.
  split.
  - repeat constructor; discriminate.
  - repeat constructor.
Qed.

Lemma tables_hold_the_rows_of_the_kept_items_witness :
  skipped_members preamble
  /\ decodable (asciiEnv itemA) allow [itemA_json] [itemA]
  /\ length (rows_of_code (asciiEnv itemA) allow "27130" [itemA]) = 6%nat
  /\ exists w,
       run (asciiEnv itemA) allow 0 RevR2
         (root_prefix preamble [itemA_json] ++ [Delim "}"]) = Ok tt w
       /\ forall c,
            table w c = header :: rows_of_code (asciiEnv itemA) allow c [itemA]
            \/ (table w c = []
                /\ rows_of_code (asciiEnv itemA) allow c [itemA] = []).
Proof.
  destruct scenarioA_decodable as [Hpre Hdec].
  split; [exact Hpre|]. split; [exact Hdec|]. split; [reflexivity|].
  apply (tables_hold_the_rows_of_the_kept_items (asciiEnv itemA) allow 0
           RevR2 preamble [itemA_json] [itemA] [Delim "}"] Hpre);
    [reflexivity | reflexivity | exact Hdec].
Defined.

Lemma unresolved_table_holds_the_references_witness :
  skipped_members preamble
  /\ decodable (asciiEnv itemC) allow [itemA_json; itemA_json] [itemC; itemC]
  /\ length (flat_map (item_refs (asciiEnv itemC) allow) [itemC; itemC])
     = 6%nat
  /\ exists w,
       run (asciiEnv itemC) allow 0 Rev1
         (root_prefix preamble [itemA_json; itemA_json] ++ [Delim "}"])
       = Ok tt w
       /\ unres_records w
          = Some (unresHeader
                    :: flat_map (item_refs (asciiEnv itemC) allow)
                         [itemC; itemC])
       /\ skippedRefIDs w
          = wrap64 (Z.of_nat (length (flat_map
                                        (item_refs (asciiEnv itemC) allow)
                                        [itemC; itemC])))
       /\ skippedRefRates w
          = wrap64 (Z.of_nat (length (flat_map
                                        (item_ref_rates (asciiEnv itemC) allow)
                                        [itemC; itemC]))).
Proof.
  assert (Hpre : skipped_members preamble)
    by (repeat constructor; discriminate).
  assert (Hdec : decodable (asciiEnv itemC) allow [itemA_json; itemA_json]
                   [itemC; itemC]) by (repeat constructor).
  split; [exact Hpre|]. split; [exact Hdec|]. split; [reflexivity|].
  apply (unresolved_table_holds_the_references (asciiEnv itemC) allow 0
           Rev1 preamble [itemA_json; itemA_json] [itemC; itemC] [Delim "}"]
           Hpre); [reflexivity | reflexivity | exact Hdec].
Defined.

Lemma counters_count_items_and_rows_witness :
  skipped_members preamble
  /\ decodable (asciiEnv itemA) allow [itemA_json] [itemA]
  /\ exists w,
       run (asciiEnv itemA) allow 0 Rev1
         (root_prefix preamble [itemA_json] ++ [Delim "}"]) = Ok tt w
       /\ seenItems w = wrap64 (Z.of_nat (length [itemA]))
       /\ keptItems w
          = wrap64 (Z.of_nat (length (List.filter
                                        (passes_filter (asciiEnv itemA) allow)
                                        [itemA])))
       /\ outRows w
          = wrap64 (Z.of_nat (length (flat_map
                                        (item_rows (asciiEnv itemA) allow)
                                        [itemA])))
       /\ (Rev1 = Rev1 ->
           exists o,
             stdout w
             = o ++ [Summary (seenItems w) (keptItems w) (outRows w)
                       (skippedRefRates w) (skippedRefIDs w)]).
Proof.
  destruct scenarioA_decodable as [Hpre Hdec].
  split; [exact Hpre|]. split; [exact Hdec|].
  apply (counters_count_items_and_rows (asciiEnv itemA) allow 0 Rev1
           preamble [itemA_json] [itemA] [Delim "}"] Hpre);
    [reflexivity | reflexivity | exact Hdec].
Defined.

Lemma undecodable_item_ends_the_run_witness :
  skipped_members preamble
  /\ decodable (asciiEnv itemA) allow [itemA_json] [itemA]
  /\ unmarshal_Item (asciiEnv itemA) (tokens (JNum "5")) = None
  /\ exists w,
       run (asciiEnv itemA) allow 0 Rev1
         (root_prefix preamble ([itemA_json] ++ JNum "5" :: [itemA_json])
            ++ [Delim "}"]) = Panic ErrDecode w
       /\ dec w = elems_tokens [itemA_json] ++ Delim "]" :: [Delim "}"]
       /\ seenItems w = wrap64 (Z.of_nat (length [itemA]))
       /\ forall c,
            table w c = header :: rows_of_code (asciiEnv itemA) allow c [itemA]
            \/ (table w c = []
                /\ rows_of_code (asciiEnv itemA) allow c [itemA] = []).
Proof.
  destruct scenarioA_decodable as [Hpre Hdec].
  split; [exact Hpre|]. split; [exact Hdec|]. split; [reflexivity|].
  apply (undecodable_item_ends_the_run (asciiEnv itemA) allow 0 Rev1
           preamble [itemA_json] [itemA] (JNum "5") [itemA_json] [Delim "}"]
           Hpre); [reflexivity | reflexivity | exact Hdec | reflexivity].
Defined.

Lemma missing_in_network_panics_witness :
  skipped_members preamble
  /\ exists w u,
       run (asciiEnv itemA) allow 0 Rev1 (tokens (JObj preamble) ++ [])
       = Panic NoInNetwork w
       /\ dec w = Delim "}" :: []
       /\ writers w = ∅
       /\ unres w = Some u
       /\ flushed u = [unresHeader] /\ flushed_and_closed u.
Proof.
  destruct scenarioA_decodable as [Hpre _].
  split; [exact Hpre|].
  apply (missing_in_network_panics (asciiEnv itemA) allow 0 Rev1 preamble []
           Hpre); reflexivity.
Defined.

Lemma codes_flag_round_trip_witness :
  Forall (fun code => isCode code = true) ["27130"; "27447"; "27130"]
  /\ Join ["27130"; "27447"; "27130"] ", " = "27130, 27447, 27130"
  /\ parse_codes (asciiEnv itemA) "27130, 27447, 27130"
     = list_to_set ["27130"; "27447"; "27130"]
  /\ check_flags (asciiEnv itemA) "rates.json.gz" "27130, 27447, 27130"
     = Some (list_to_set ["27130"; "27447"; "27130"]).
Proof.
  assert (H : Forall (fun code => isCode code = true)
                ["27130"; "27447"; "27130"]) by (repeat constructor).
  split; [exact H|]. split; [reflexivity|].
  apply (codes_flag_round_trip (asciiEnv itemA) "rates.json.gz" ", "
           ["27130"; "27447"; "27130"]);
    [discriminate | discriminate | discriminate | reflexivity | exact H].
Defined.

Lemma blank_codes_flag_exits_witness :
  parse_codes (asciiEnv itemA) " ,	, " = ∅
  /\ check_flags (asciiEnv itemA) "rates.json.gz" " ,	, " = None.
Proof.
  apply (blank_codes_flag_exits (asciiEnv itemA) "rates.json.gz" " ,	, ").
  reflexivity.
Defined.

Lemma skipValue_panics_on_truncated_value_witness :
  tokens itemA_json
  = firstn 9 (tokens itemA_json) ++ skipn 9 (tokens itemA_json)
  /\ skipValue (start (firstn 9 (tokens itemA_json)))
     = Panic ErrToken (start []).
Proof.
  split; [reflexivity|].
  apply (skipValue_panics_on_truncated_value itemA_json
           (firstn 9 (tokens itemA_json)) (skipn 9 (tokens itemA_json))
           (start (firstn 9 (tokens itemA_json))));
    [reflexivity | discriminate | discriminate | reflexivity
    | vm_compute; discriminate].
Defined.

Lemma root_must_be_an_object_witness :
  (exists w u,
     run (asciiEnv itemA) allow 0 Rev1 (tokens (JArr [itemA_json]))
     = Panic (ExpectedDelim "{") w
     /\ dec w = tail (tokens (JArr [itemA_json]))
     /\ writers w = ∅
     /\ unres w = Some u
     /\ flushed u = [unresHeader] /\ flushed_and_closed u)
  /\ exists w u,
       run (asciiEnv itemA) allow 0 Rev1 [] = Panic ErrToken w
       /\ dec w = []
       /\ writers w = ∅
       /\ unres w = Some u
       /\ flushed u = [unresHeader] /\ flushed_and_closed u.
Proof.
  split.
  - apply (root_must_be_an_object (asciiEnv itemA) allow 0 Rev1
             (tokens (JArr [itemA_json]))); [discriminate | reflexivity..].
  - apply (root_must_be_an_object (asciiEnv itemA) allow 0 Rev1 []);
      [discriminate | reflexivity..].
Defined.

Lemma in_network_must_be_an_array_witness :
  skipped_members preamble
  /\ exists w,
       run (asciiEnv itemA) allow 0 Rev1
         (Delim "{" :: members_tokens preamble
            ++ TStr "in_network" :: TNull :: [Delim "}"])
       = Panic (ExpectedDelim "[") w
       /\ dec w = [Delim "}"]
       /\ writers w = ∅
       /\ seenItems w = 0.
Proof.
  destruct scenarioA_decodable as [Hpre _].
  split; [exact Hpre|].
  apply (in_network_must_be_an_array (asciiEnv itemA) allow 0 Rev1 preamble
           TNull [Delim "}"] Hpre); [discriminate | reflexivity..].
Defined.

Lemma filter_ignores_case_witness :
  BillingCodeType itemA_lower <> BillingCodeType itemA
  /\ passes_filter (asciiEnv itemA) allow itemA_lower
     = passes_filter (asciiEnv itemA) allow itemA.
Proof.
  split; [discriminate|].
  apply (filter_ignores_case (asciiEnv itemA) allow itemA_lower itemA);
    reflexivity.
Defined.

Lemma rows_counter_matches_tables_witness :
  exists w,
    final_state (run (asciiEnv itemA) allow 0 RevR2 documentA) = Some w
    /\ data_rows_total (writers w) = 6%nat
    /\ outRows w = wrap64 (Z.of_nat (data_rows_total (writers w))).
Proof.
  eexists. split; [vm_compute; reflexivity|].
  split; [vm_compute; reflexivity|].
  apply (rows_counter_matches_tables (asciiEnv itemA) allow 0 RevR2
           documentA).
  vm_compute; reflexivity.
Defined.


Lemma progress_line_every_cadence_rows_witness :
  0 < 4
  /\ exists w,
       final_state (run (asciiEnv itemA) allow 4 Rev1 documentA) = Some w
       /\ data_rows_total (writers w) = 6%nat
       /\ progress_lines (stdout w) = 1%nat
       /\ Z.of_nat (progress_lines (stdout w))
          = Z.of_nat (data_rows_total (writers w)) / 4.
Proof.
  split; [lia|]. eexists. split; [vm_compute; reflexivity|].
  split; [vm_compute; reflexivity|]. split; [vm_compute; reflexivity|].
  apply (progress_line_every_cadence_rows (asciiEnv itemA) allow 4 Rev1
           documentA);
    [lia | vm_compute; reflexivity | vm_compute; discriminate].
Defined.

Lemma array_cut_off_after_items_witness :
  skipped_members preamble
  /\ decodable (asciiEnv itemA) allow [itemA_json] [itemA]
  /\ decodable (asciiEnvV2 itemA) allow [itemA_json] [itemA]
  /\ (exists w,
        run (asciiEnv itemA) allow 0 Rev1
          (Delim "{" :: members_tokens preamble
             ++ TStr "in_network" :: Delim "[" :: elems_tokens [itemA_json])
        = Panic ErrToken w
        /\ dec w = []
        /\ seenItems w = wrap64 (Z.of_nat (length [itemA]))
        /\ forall c,
             table w c
             = header :: rows_of_code (asciiEnv itemA) allow c [itemA]
             \/ (table w c = []
                 /\ rows_of_code (asciiEnv itemA) allow c [itemA] = []))
  /\ exists w,
       run (asciiEnvV2 itemA) allow 0 Rev1
         (Delim "{" :: members_tokens preamble
            ++ TStr "in_network" :: Delim "[" :: elems_tokens [itemA_json])
       = Panic ErrDecode w
       /\ dec w = []
       /\ seenItems w = wrap64 (Z.of_nat (length [itemA]))
       /\ forall c,
            table w c
            = header :: rows_of_code (asciiEnvV2 itemA) allow c [itemA]
            \/ (table w c = []
                /\ rows_of_code (asciiEnvV2 itemA) allow c [itemA] = []).
Proof.
  destruct scenarioA_decodable as [Hpre Hdec].
  assert (Hdec2 : decodable (asciiEnvV2 itemA) allow [itemA_json] [itemA])
    by repeat constructor.
  split; [exact Hpre|]. split; [exact Hdec|]. split; [exact Hdec2|]. split.
  - apply (array_cut_off_after_items (asciiEnv itemA) allow 0 Rev1 preamble
             [itemA_json] [itemA] Hpre);
      [reflexivity | reflexivity | exact Hdec].
  - apply (array_cut_off_after_items (asciiEnvV2 itemA) allow 0 Rev1 preamble
             [itemA_json] [itemA] Hpre);
      [reflexivity | reflexivity | exact Hdec2].
Defined.

Lemma revisions_write_the_same_rows_witness :
  skipped_members preamble
  /\ decodable (asciiEnv itemN) allow [itemA_json] [itemN]
  /\ exists w1 w2,
       run (asciiEnv itemN) allow 0 Rev1
         (root_prefix preamble [itemA_json] ++ [Delim "}"]) = Ok tt w1
       /\ run (asciiEnv itemN) allow 0 RevR2
            (root_prefix preamble [itemA_json] ++ [Delim "}"]) = Ok tt w2
       /\ (forall c, tail (table w1 c) = tail (table w2 c))
       /\ unres_records w1 = unres_records w2
       /\ seenItems w1 = seenItems w2
       /\ keptItems w1 = keptItems w2
       /\ outRows w1 = outRows w2
       /\ skippedRefRates w1 = skippedRefRates w2
       /\ skippedRefIDs w1 = skippedRefIDs w2.
Proof.
  assert (Hpre : skipped_members preamble)
    by (repeat constructor; discriminate).
  assert (Hdec : decodable (asciiEnv itemN) allow [itemA_json] [itemN])
    by (repeat constructor).
  split; [exact Hpre|]. split; [exact Hdec|].
  apply (revisions_write_the_same_rows (asciiEnv itemN) allow 0 preamble
           [itemA_json] [itemN] [Delim "}"] Hpre);
    [reflexivity | reflexivity | exact Hdec].
Defined.

(** On the item of scenario N the revisions differ: revision R2 leaves a
    table with its header and no row, revision 1 no table. *)
Example scenario_N :
  exists w1 w2,
    run (asciiEnv itemN) allow 0 Rev1
      (root_prefix preamble [itemA_json] ++ [Delim "}"]) = Ok tt w1
    /\ run (asciiEnv itemN) allow 0 RevR2
         (root_prefix preamble [itemA_json] ++ [Delim "}"]) = Ok tt w2
    /\ table w1 "27130" = [] /\ table w2 "27130" = [header].
Proof.
  eexists _, _. split; [vm_compute; reflexivity|].
  split; [vm_compute; reflexivity|]. split; vm_compute; reflexivity.
Qed.
